(** * Classroom-assignment analysis scripts: Pareto extraction and the
      normality-driven hypothesis-testing pipeline.

    Shallow embedding of
      - [plot_pareto_front.py]        ([dominates], [get_non_dominated_solutions]),
      - [kolmogorov_smirnov_test.py]  ([perform_kolmogorov_smirnov_test]),
      - [anderson_darling_test.py]    ([perform_anderson_darling_test]),
      - [kruskal_wallis_test.py]      ([perform_kruskal_wallis_test], [perform_posthoc_tests]),
      - [anova_test.py]               ([perform_one_way_anova], [perform_bonferroni_correction]).

    Numbers.  The scripts compute on IEEE doubles.  Here a double is either
    the rational it denotes or [nan] ([float := option Q]).  Comparisons of
    doubles are exact, so every branch taken below is the branch the script
    takes.  Arithmetic ([+], [-], [*], [/]) is the exact operation followed
    by the rounding of binary64 (53 binary digits, subnormals down to
    [2 ^ -1074], round to nearest, ties to even), and a decimal literal of
    the scripts is the double nearest to it ([double]).  Infinities are left
    out: a result beyond the range of the doubles stays finite here.  The
    sums of numpy are taken in numpy's order (pairwise, in blocks).  The
    routines of scipy and numpy that the scripts call ([kstest], [anderson],
    [kruskal], [f_oneway], [mannwhitneyu], [ttest_ind], [sqrt], [median],
    [percentile]) are variables of the sections that use them.  A call that
    may raise returns an [outcome]. *)

From Stdlib Require Import String Ascii Decimal DecimalString.
From Stdlib Require Import List Bool Arith ZArith QArith Qabs Qround Qpower.
From Stdlib Require Import Lia Lqa Permutation Sorted.
Import ListNotations.

Local Open Scope Q_scope.

(** * Part I: the programs *)

(** ** The rounding of binary64 *)

Module Binary64.

(** [floor (log2 q)], for [q > 0] *)
Definition exponent (q : Q) : Z :=
  let e := (Z.log2 (Qnum q) - Z.log2 (Zpos (Qden q)))%Z in
  if Qle_bool (2 ^ e) q then e else (e - 1)%Z.

(** The nearest integer, a tie going to the even one. *)
Definition nearest_even (q : Q) : Z :=
  let f := Qfloor q in
  match Qcompare (q - inject_Z f) (1 # 2) with
  | Lt => f
  | Gt => (f + 1)%Z
  | Eq => if Z.even f then f else (f + 1)%Z
  end.

(** The exponent of the last binary digit that is kept: 53 digits, and
    never below the smallest subnormal [2 ^ -1074]. *)
Definition ulp_exponent (q : Q) : Z :=
  Z.max (exponent (Qabs q) - 52) (-1074).

(** The double nearest to [q], as a reduced fraction. *)
Definition round (q : Q) : Q :=
  if Qeq_bool q 0 then 0
  else
    let u := ulp_exponent q in
    Qred (inject_Z (nearest_even (q / 2 ^ u)) * 2 ^ u).

(** [q] is a double. *)
Definition representable (q : Q) : Prop := round q == q.

(** The correctly rounded square root ([np.sqrt] on a double [v >= 0]):
    with [m] the integer part of the root of [v] counted in units of the
    last digit, [v] is compared with the square of [m + 1/2]. *)
Definition sqrt (v : Q) : Q :=
  if Qle_bool v 0 then 0
  else
    let u := Z.max (Z.div (exponent v) 2 - 52) (-1074) in
    let w := v / 2 ^ (2 * u) in
    let m := Z.sqrt (Qfloor w) in
    let half := inject_Z (m * m + m) + (1 # 4) in
    let k := match Qcompare w half with
             | Lt => m
             | Gt => (m + 1)%Z
             | Eq => if Z.even m then m else (m + 1)%Z
             end in
    Qred (inject_Z k * 2 ^ u).

End Binary64.

(** ** Doubles *)

Module Float.

Definition float : Type := option Q.

Definition nan : float := None.

(** The double that a decimal literal of the scripts denotes. *)
Definition double (q : Q) : float := Some (Binary64.round q).

Definition lift2 (f : Q -> Q -> Q) (x y : float) : float :=
  match x, y with
  | Some a, Some b => Some (f a b)
  | _, _ => None
  end.

Definition fadd : float -> float -> float :=
  lift2 (fun a b => Binary64.round (a + b)).
Definition fsub : float -> float -> float :=
  lift2 (fun a b => Binary64.round (a - b)).
Definition fmul : float -> float -> float :=
  lift2 (fun a b => Binary64.round (a * b)).

(** Division; the scripts divide only by values they have tested to be
    non-zero, so the value chosen at a zero divisor is never read. *)
Definition fdiv (x y : float) : float :=
  match x, y with
  | Some a, Some b =>
      if Qeq_bool b 0 then None else Some (Binary64.round (a / b))
  | _, _ => None
  end.

Definition fabs (x : float) : float := option_map Qabs x.

(** Comparisons: any comparison with [nan] is false, except [!=]. *)
Definition cmp2 (f : Q -> Q -> bool) (x y : float) : bool :=
  match x, y with
  | Some a, Some b => f a b
  | _, _ => false
  end.

Definition fle : float -> float -> bool := cmp2 Qle_bool.
Definition flt : float -> float -> bool := cmp2 (fun a b => negb (Qle_bool b a)).
Definition fge (x y : float) : bool := fle y x.
Definition fgt (x y : float) : bool := flt y x.
Definition feq : float -> float -> bool := cmp2 Qeq_bool.
Definition fne (x y : float) : bool := negb (feq x y).

(** The conversion of a count to a double. *)
Definition of_nat (n : nat) : float :=
  Some (Binary64.round (inject_Z (Z.of_nat n))).

(** Python's built-in [min(x, y)]: [y] when [y < x], else [x]. *)
Definition py_min (x y : float) : float := if flt y x then y else x.

End Float.

Export Float.

(** ** Exceptions *)

Inductive outcome (A : Type) : Type :=
| Returned (a : A)
| Raised (msg : string).

Arguments Returned {A} a.
Arguments Raised {A} msg.

Definition bind {A B : Type} (m : outcome A) (k : A -> outcome B) : outcome B :=
  match m with
  | Returned a => k a
  | Raised msg => Raised msg
  end.

Notation "x <- m ;; k" := (bind m (fun x => k))
  (at level 61, m at next level, right associativity).

(** The result of a call that returned, mapped. *)
Definition outcome_map {A B : Type} (f : A -> B) (m : outcome A) : outcome B :=
  match m with
  | Returned a => Returned (f a)
  | Raised msg => Raised msg
  end.

(** [l[i]] for [i >= 0] *)
Definition index {A : Type} (l : list A) (i : nat) : outcome A :=
  match nth_error l i with
  | Some a => Returned a
  | None => Raised "index out of bounds"
  end.

(** [l[-1]] *)
Definition index_last {A : Type} (l : list A) : outcome A :=
  index l (length l - 1).

(** [mapM]: run [f] over [l] from the left, stopping at the first raise. *)
Fixpoint for_each {A B : Type} (f : A -> outcome B) (l : list A)
  : outcome (list B) :=
  match l with
  | [] => Returned []
  | a :: l' => b <- f a ;; bs <- for_each f l' ;; Returned (b :: bs)
  end.

(** ** Python built-ins *)

(** [str(n)] for a non-negative integer *)
Definition str_of_nat (n : nat) : string :=
  NilEmpty.string_of_uint (Nat.to_uint n).

(** [enumerate(l)] *)
Definition enumerate {A : Type} (l : list A) : list (nat * A) :=
  combine (seq 0 (length l)) l.

(** [zip(groups, names)], then the filter [len(group) > 0] that opens
    every test of the pipeline. *)
Definition valid_pairs {A B : Type} (groups : list (list A)) (names : list B)
  : list (list A * B) :=
  filter (fun gn => Nat.ltb 0 (length (fst gn))) (combine groups names).

(** [itertools.combinations(l, 2)] *)
Fixpoint combinations2 {A : Type} (l : list A) : list (A * A) :=
  match l with
  | [] => []
  | x :: l' => map (pair x) l' ++ combinations2 l'
  end.

(** The pairs taken by two nested loops with the test [i < j]. *)
Definition ordered_pairs {A : Type} (l : list (nat * A))
  : list ((nat * A) * (nat * A)) :=
  flat_map
    (fun a => flat_map (fun b => if Nat.ltb (fst a) (fst b) then [(a, b)] else []) l)
    l.

(** [min(l, key=key)]: the first element whose key no later element
    undercuts; [ValueError] on an empty [l]. *)
Fixpoint min_key_from {A : Type} (key : A -> float) (best : A) (l : list A) : A :=
  match l with
  | [] => best
  | x :: l' => min_key_from key (if flt (key x) (key best) then x else best) l'
  end.

Definition min_key {A : Type} (key : A -> float) (l : list A) : outcome A :=
  match l with
  | [] => Raised "min() arg is an empty sequence"
  | x :: l' => Returned (min_key_from key x l')
  end.

(** A [dict]: keys in insertion order, an assignment to a present key
    replaces its value in place. *)
Fixpoint dict_set {V : Type} (d : list (string * V)) (k : string) (v : V)
  : list (string * V) :=
  match d with
  | [] => [(k, v)]
  | (k', v') :: d' =>
      if String.eqb k' k then (k, v) :: d' else (k', v') :: dict_set d' k v
  end.

Fixpoint dict_get {V : Type} (d : list (string * V)) (k : string) : option V :=
  match d with
  | [] => None
  | (k', v') :: d' => if String.eqb k' k then Some v' else dict_get d' k
  end.

(** ** numpy's descriptive statistics *)

Module Numpy.

(** The sum of [data], added from the left onto [acc]. *)
Definition sum_left (acc : float) (data : list float) : float :=
  fold_left fadd data acc.

(** Eight partial sums [r], each taking every eighth value of the next
    [blocks] blocks of eight. *)
Fixpoint interleaved (r data : list float) (blocks : nat)
  : list float * list float :=
  match blocks with
  | O => (r, data)
  | S blocks' =>
      interleaved (map (fun ab => fadd (fst ab) (snd ab))
                       (combine r (firstn 8 data)))
                  (skipn 8 data) blocks'
  end.

(** The sum of 8 to 128 values: eight interleaved partial sums over the
    whole blocks of eight, combined pairwise, then the values that are
    left added from the left. *)
Definition block_sum (data : list float) : float :=
  let '(r, rest) :=
    interleaved (firstn 8 data) (skipn 8 data) (length data / 8 - 1) in
  match r with
  | [r0; r1; r2; r3; r4; r5; r6; r7] =>
      sum_left (fadd (fadd (fadd r0 r1) (fadd r2 r3))
                     (fadd (fadd r4 r5) (fadd r6 r7)))
               rest
  | _ => nan
  end.

(** numpy's pairwise summation, the reduction behind [np.mean] and
    [np.std] on an array of doubles: fewer than 8 values are added from
    the left, up to 128 by [block_sum], and a longer array is cut in two,
    the first part a multiple of 8 long.  [fuel] bounds the depth of the
    cuts; the length of the array is enough. *)
Fixpoint pairwise_sum (fuel : nat) (data : list float) : float :=
  let n := length data in
  if Nat.ltb n 8 then sum_left (Some 0) data
  else if Nat.leb n 128 then block_sum data
  else
    match fuel with
    | O => nan
    | S fuel' =>
        let n2 := (n / 2 - (n / 2) mod 8)%nat in
        fadd (pairwise_sum fuel' (firstn n2 data))
             (pairwise_sum fuel' (skipn n2 data))
    end.

Definition fsum (data : list float) : float :=
  pairwise_sum (length data) data.

(** [np.mean(data)]; [nan] on an empty array *)
Definition mean (data : list float) : float :=
  match data with
  | [] => nan
  | _ => fdiv (fsum data) (of_nat (length data))
  end.

(** The sum of squared deviations over [n - 1]; [nan] when [n <= 1]
    (numpy divides zero by zero there). *)
Definition var_ddof1 (data : list float) : float :=
  if Nat.leb (length data) 1 then nan
  else
    let m := mean data in
    fdiv (fsum (map (fun x => fmul (fsub x m) (fsub x m)) data))
         (of_nat (length data - 1)).

Section Sqrt.
Variable sqrt : Q -> Q.

(** [np.std(data, ddof=1)] *)
Definition std_ddof1 (data : list float) : float :=
  option_map sqrt (var_ddof1 data).

End Sqrt.

(** All values of [data] are one and the same number. *)
Definition all_identical (data : list float) : Prop :=
  exists c : Q, forall x, In x data -> x = Some c.

End Numpy.

(** ** Pareto-dominance extractor ([plot_pareto_front.py]) *)

Module Pareto.

(** A row of the [f1],[f2] columns: [f1] is minimised, [f2] maximised. *)
Definition solution : Type := (float * float)%type.

(** [dominates(solution_a, solution_b)] *)
Definition dominates (solution_a solution_b : solution) : bool :=
  let f1_better := fle (fst solution_a) (fst solution_b) in
  let f2_better := fge (snd solution_a) (snd solution_b) in
  let f1_strictly_better := flt (fst solution_a) (fst solution_b) in
  let f2_strictly_better := fgt (snd solution_a) (snd solution_b) in
  (f1_better && f2_better) && (f1_strictly_better || f2_strictly_better).

(** The inner loop of [get_non_dominated_solutions]:
    [for j, sol_b in enumerate(solutions)], left at the first [sol_b]
    with [i != j and dominates(sol_b, sol_a)].  [j] is the index of the
    head of the part of [solutions] still to visit. *)
Fixpoint is_dominated_loop (i : nat) (sol_a : solution) (j : nat)
         (rest : list solution) : bool :=
  match rest with
  | [] => false
  | sol_b :: rest' =>
      if negb (Nat.eqb i j) && dominates sol_b sol_a then true
      else is_dominated_loop i sol_a (S j) rest'
  end.

(** The three accumulators of the outer loop. *)
Record accumulators : Type := mkAcc {
  non_dominated : list solution;
  dominated : list solution;
  dominated_indices : list nat
}.

(** The outer loop, [for i, sol_a in enumerate(solutions)]. *)
Fixpoint partition_loop (solutions : list solution) (i : nat)
         (todo : list solution) (acc : accumulators) : accumulators :=
  match todo with
  | [] => acc
  | sol_a :: todo' =>
      let is_dominated := is_dominated_loop i sol_a 0 solutions in
      partition_loop solutions (S i) todo'
        (if is_dominated
         then mkAcc (non_dominated acc)
                    (dominated acc ++ [sol_a])
                    (dominated_indices acc ++ [i])
         else mkAcc (non_dominated acc ++ [sol_a])
                    (dominated acc)
                    (dominated_indices acc))
  end.

(** [get_non_dominated_solutions(solutions)]: the pair
    [(non_dominated, dominated)]. *)
Definition get_non_dominated_solutions (solutions : list solution)
  : list solution * list solution :=
  let acc := partition_loop solutions 0 solutions (mkAcc [] [] []) in
  (non_dominated acc, dominated acc).

(** The test on values that the inner loop amounts to. *)
Definition has_dominator (solutions : list solution) (sol : solution) : bool :=
  existsb (fun other => dominates other sol) solutions.

End Pareto.

(** ** ECDF-based normality test ([kolmogorov_smirnov_test.py]) *)

Module KS.

(** The dictionary the test returns.  [note] and [significance_level] are
    keys that only some of the returned dictionaries have. *)
Record result : Type := mkResult {
  statistic : float;
  p_value : float;
  normal : bool;
  mean : float;
  std : float;
  n : nat;
  note : option string;
  significance_level : option float
}.

Section Test.
Variable sqrt : Q -> Q.
(** [stats.kstest(normalized_data, 'norm')]: statistic and p-value *)
Variable kstest : list float -> outcome (float * float).

Definition perform_kolmogorov_smirnov_test (data : list float)
           (significance_level : float) : result :=
  let n := length data in
  if Nat.ltb n 3 then
    mkResult nan nan false (Numpy.mean data) (Numpy.std_ddof1 sqrt data) n
      (Some ("Tamaño de muestra insuficiente (n=" ++ str_of_nat n
             ++ " < 3). Se requieren al menos 3 observaciones."))%string
      None
  else
    let std := Numpy.std_ddof1 sqrt data in
    if feq std (Some 0) then
      mkResult nan nan false (Numpy.mean data) std n
        (Some "Todos los valores son iguales (std=0)"%string) None
    else
      let mean := Numpy.mean data in
      let std := Numpy.std_ddof1 sqrt data in
      let normalized_data := map (fun x => fdiv (fsub x mean) std) data in
      match kstest normalized_data with
      | Returned (statistic, p_value) =>
          let is_normal := fge p_value significance_level in
          mkResult statistic p_value is_normal mean std n None
                   (Some significance_level)
      | Raised e =>
          mkResult nan nan false mean std n
            (Some ("Error al realizar el test: " ++ e))%string None
      end.

End Test.

End KS.

(** ** Tail-sensitive normality test ([anderson_darling_test.py]) *)

Module AD.

(** What [stats.anderson(group, dist='norm')] returns. *)
Record anderson_result : Type := mkAnderson {
  ar_statistic : float;
  ar_critical_values : list float;
  ar_significance_level : list float
}.

(** [results[name]]; [critical_alpha] and [note] are optional keys. *)
Record group_result : Type := mkGroup {
  statistic : float;
  critical_value : float;
  critical_alpha : option float;
  p_value : float;
  normal : bool;
  mean : float;
  std : float;
  n : nat;
  note : option string
}.

(** The dictionary of the whole test: either the two-key error
    dictionary or the six-key report. *)
Inductive report : Type :=
| NoValidGroups (error metric : string)
| Report (metric : string) (alpha : float) (groups : list string)
         (test_results : list (string * group_result))
         (all_groups_normal : bool) (test_name : string).

(** The body of [for i in range(len(critical_values) - 1)]: the first [i]
    with [critical_values[i+1] <= statistic <= critical_values[i]] sets
    [p_value] and leaves the loop; [None] is Python's [None]. *)
Fixpoint interpolation_loop (critical_values significance_levels : list float)
         (statistic : float) (range : list nat) : outcome (option float) :=
  match range with
  | [] => Returned None
  | i :: range' =>
      lower <- index critical_values (i + 1) ;;
      if fle lower statistic then
        upper <- index critical_values i ;;
        if fle statistic upper then
          s1 <- index significance_levels i ;;
          let alpha1 := fdiv s1 (Some 100) in
          s2 <- index significance_levels (i + 1) ;;
          let alpha2 := fdiv s2 (Some 100) in
          cv1 <- index critical_values i ;;
          cv2 <- index critical_values (i + 1) ;;
          if fne cv1 cv2 then
            let ratio := fdiv (fsub statistic cv2) (fsub cv1 cv2) in
            Returned (Some (fadd alpha2 (fmul ratio (fsub alpha1 alpha2))))
          else Returned (Some alpha1)
        else interpolation_loop critical_values significance_levels statistic range'
      else interpolation_loop critical_values significance_levels statistic range'
  end.

(** The statements from [p_value = None] to the end of the [if] chain. *)
Definition approximate_p_value (critical_values significance_levels : list float)
           (statistic : float) : outcome (option float) :=
  last <- index_last critical_values ;;
  if fle statistic last then Returned (Some (double 0.01))
  else
    first <- index critical_values 0 ;;
    if fge statistic first then Returned (Some (double 0.15))
    else interpolation_loop critical_values significance_levels statistic
           (seq 0 (length critical_values - 1)).

Section Test.
Variable sqrt : Q -> Q.
Variable anderson : list float -> outcome anderson_result.

(** The [try] block of the loop body: everything between
    [stats.anderson] and the assignment to [results[name]]. *)
Definition run_test (group : list float) (significance_level : float)
           (std : float) (n : nat) : outcome group_result :=
  result <- anderson group ;;
  let statistic := ar_statistic result in
  let critical_values := ar_critical_values result in
  let significance_levels := ar_significance_level result in
  idx <- min_key
           (fun i => fabs (fsub (nth i significance_levels nan)
                                (fmul significance_level (Some 100))))
           (seq 0 (length significance_levels)) ;;
  critical_value_actual <- index critical_values idx ;;
  s <- index significance_levels idx ;;
  let actual_alpha := fdiv s (Some 100) in
  let is_normal := fle statistic critical_value_actual in
  p <- approximate_p_value critical_values significance_levels statistic ;;
  let p_value := match p with Some v => v | None => actual_alpha end in
  Returned (mkGroup statistic critical_value_actual (Some actual_alpha)
                    p_value is_normal (Numpy.mean group) std n None).

(** The body of [for group, name in zip(valid_groups, valid_names)],
    as the value stored in [results[name]]. *)
Definition classify_group (group : list float) (significance_level : float)
  : group_result :=
  let n := length group in
  if Nat.ltb n 8 then
    mkGroup nan nan None nan false (Numpy.mean group)
      (Numpy.std_ddof1 sqrt group) n
      (Some ("Tamaño de muestra insuficiente (n=" ++ str_of_nat n
             ++ " < 8). Se requieren al menos 8 observaciones."))%string
  else
    let std := Numpy.std_ddof1 sqrt group in
    if feq std (Some 0) then
      mkGroup nan nan None nan false (Numpy.mean group) std n
        (Some "Todos los valores son iguales (std=0)"%string)
    else
      match run_test group significance_level std n with
      | Returned r => r
      | Raised e =>
          mkGroup nan nan None nan false (Numpy.mean group) std n
            (Some ("Error al realizar el test: " ++ e))%string
      end.

(** The loop over the valid groups, on the state [(results, all_normal)].
    Every branch of the body that stores a result with [normal = False]
    also sets [all_normal = False]. *)
Definition test_loop (significance_level : float)
           (pairs : list (list float * string))
           (state : list (string * group_result) * bool)
  : list (string * group_result) * bool :=
  fold_left
    (fun st gn =>
       let r := classify_group (fst gn) significance_level in
       (dict_set (fst st) (snd gn) r, snd st && normal r))
    pairs state.

Definition perform_anderson_darling_test (groups : list (list float))
           (group_names : list string) (metric_name : string)
           (significance_level : float) : report :=
  let valid := valid_pairs groups group_names in
  let valid_names := map snd valid in
  if Nat.eqb (length valid) 0 then
    NoValidGroups "No hay grupos válidos para el test de normalidad." metric_name
  else
    let st := test_loop significance_level valid ([], true) in
    Report metric_name significance_level valid_names (fst st) (snd st)
           "Anderson-Darling".

End Test.

(** The per-group results of a report (none in the error dictionary). *)
Definition test_results_of (r : report) : list (string * group_result) :=
  match r with
  | NoValidGroups _ _ => []
  | Report _ _ _ test_results _ _ => test_results
  end.

End AD.

(** ** Rank-based omnibus test and its post-hoc ([kruskal_wallis_test.py]) *)

Module KruskalWallis.

Record group_stat : Type := mkStat {
  gs_n : nat;
  gs_median : float;
  gs_mean : float;
  gs_std : float;
  gs_q25 : float;
  gs_q75 : float
}.

(** The dictionary of the omnibus test; the last four keys are present
    in some of the returned dictionaries only. *)
Record result : Type := mkResult {
  factor : string;
  statistic : float;
  p_value : float;
  significant : bool;
  groups : nat;
  group_names : option (list string);
  group_stats : option (list (string * group_stat));
  alpha : option float;
  note : option string
}.

(** One entry of the post-hoc list.  [correction] is the argument as it
    was passed ([None] in Python is [Some None] here); the entry of a
    failed test has an [error] and no [correction]. *)
Record comparison : Type := mkComparison {
  group1 : string;
  group2 : string;
  c_statistic : float;
  c_p_value : float;
  p_value_corrected : float;
  c_significant : bool;
  correction : option (option string);
  error : option string
}.

(** The non-empty groups of a dictionary, as the rank-based test counts
    them. *)
Definition nonempty_groups (groups_data : list (string * list float)) : nat :=
  length (filter (fun nd => Nat.ltb 0 (length (snd nd))) groups_data).

(** No group of the dictionary is empty. *)
Definition all_nonempty (groups_data : list (string * list float)) : Prop :=
  forall name data, dict_get groups_data name = Some data -> data <> [].

(** The same entry under another correction label; the entry of a failed
    test has no label and stays as it is. *)
Definition with_label (label : option string) (c : comparison) : comparison :=
  mkComparison (group1 c) (group2 c) (c_statistic c) (c_p_value c)
               (p_value_corrected c) (c_significant c)
               (option_map (fun _ => label) (correction c)) (error c).

Section Test.
Variable sqrt : Q -> Q.
Variable median : list float -> float.
Variable percentile : list float -> Q -> float.
(** [kruskal], applied to the valid groups *)
Variable kruskal : list (list float) -> outcome (float * float).
(** [mannwhitneyu(data1, data2, alternative='two-sided')] *)
Variable mannwhitneyu : list float -> list float -> outcome (float * float).

(** [groups_data] is a [dict]: its keys are distinct, so the values read
    back key by key are its values in order. *)
Definition perform_kruskal_wallis_test (groups_data : list (string * list float))
           (factor_name : string) (alpha : float) : result :=
  let group_names := map fst groups_data in
  let groups := map snd groups_data in
  let valid :=
    filter (fun nd => Nat.ltb 0 (length (snd nd))) (combine group_names groups) in
  let valid_names := map fst valid in
  let valid_groups := map snd valid in
  if Nat.ltb (length valid_groups) 2 then
    mkResult factor_name nan nan false (length valid_groups) None None None
      (Some "Se requieren al menos 2 grupos para realizar el test"%string)
  else
    match kruskal valid_groups with
    | Returned (statistic, p_value) =>
        let is_significant := flt p_value alpha in
        let group_stats :=
          fold_left
            (fun stats nd =>
               dict_set stats (fst nd)
                 (mkStat (length (snd nd)) (median (snd nd))
                         (Numpy.mean (snd nd)) (Numpy.std_ddof1 sqrt (snd nd))
                         (percentile (snd nd) 25) (percentile (snd nd) 75)))
            valid [] in
        mkResult factor_name statistic p_value is_significant
                 (length valid_groups) (Some valid_names) (Some group_stats)
                 (Some alpha) None
    | Raised e =>
        mkResult factor_name nan nan false (length valid_groups) None None None
          (Some ("Error al realizar el test: " ++ e))%string
    end.

(** [groups_data[name]], a [KeyError] when [name] is not a key *)
Definition lookup (groups_data : list (string * list float)) (name : string)
  : outcome (list float) :=
  match dict_get groups_data name with
  | Some data => Returned data
  | None => Raised ("KeyError: " ++ name)%string
  end.

(** [correction == s], where [correction] is a string or [None] *)
Definition is_method (correction : option string) (s : string) : bool :=
  match correction with
  | Some c => String.eqb c s
  | None => false
  end.

(** The [if]/[elif]/[else] on [correction] *)
Definition correct (correction : option string) (p_value : float)
           (n_comparisons : nat) : float :=
  if is_method correction "bonferroni" then
    py_min (fmul p_value (of_nat n_comparisons)) (Some 1)
  else if is_method correction "holm" then
    py_min (fmul p_value (of_nat n_comparisons)) (Some 1)
  else p_value.

(** The loop [for group1, group2 in comparisons], appending to [results]. *)
Fixpoint posthoc_loop (groups_data : list (string * list float))
         (alpha : float) (correction : option string) (n_comparisons : nat)
         (comparisons : list (string * string)) (results : list comparison)
  : outcome (list comparison) :=
  match comparisons with
  | [] => Returned results
  | (group1, group2) :: comparisons' =>
      data1 <- lookup groups_data group1 ;;
      data2 <- lookup groups_data group2 ;;
      if Nat.eqb (length data1) 0 || Nat.eqb (length data2) 0 then
        posthoc_loop groups_data alpha correction n_comparisons comparisons'
                     results
      else
        match mannwhitneyu data1 data2 with
        | Returned (statistic, p_value) =>
            let p_value_corrected := correct correction p_value n_comparisons in
            let is_significant := flt p_value_corrected alpha in
            posthoc_loop groups_data alpha correction n_comparisons comparisons'
              (results ++ [mkComparison group1 group2 statistic p_value
                             p_value_corrected is_significant
                             (Some correction) None])
        | Raised e =>
            posthoc_loop groups_data alpha correction n_comparisons comparisons'
              (results ++ [mkComparison group1 group2 nan nan nan false
                             None (Some e)])
        end
  end.

Definition perform_posthoc_tests (groups_data : list (string * list float))
           (group_names : list string) (alpha : float)
           (correction : option string) : outcome (list comparison) :=
  let comparisons := combinations2 group_names in
  let n_comparisons := length comparisons in
  posthoc_loop groups_data alpha correction n_comparisons comparisons [].

End Test.

End KruskalWallis.

(** ** Parametric omnibus test and its post-hoc ([anova_test.py]) *)

Module Anova.

Record descriptive : Type := mkDesc {
  d_n : nat;
  d_mean : float;
  d_std : float;
  d_median : float;
  d_min : float;
  d_max : float
}.

(** The dictionary of [perform_one_way_anova].  Only [metric] is a key of
    every returned dictionary: an absent key is [None]. *)
Record result : Type := mkResult {
  error : option string;
  metric : string;
  f_statistic : option float;
  p_value : option float;
  significant : option bool;
  alpha : option float;
  groups : option (list string);
  descriptive_stats : option (list (string * descriptive))
}.

(** A row of the table of [perform_bonferroni_correction]; the columns
    are [Grupo 1], [Grupo 2], [Diferencia], [p_value], [p_value_corregido]
    and [Significativo]. *)
Record row : Type := mkRow {
  grupo_1 : string;
  grupo_2 : string;
  diferencia : float;
  r_p_value : float;
  p_value_corregido : float;
  significativo : bool
}.

(** [np.min] and [np.max]: [nan] as soon as a value is [nan]. *)
Definition np_extremum (pick_left : float -> float -> bool) (data : list float)
  : float :=
  match data with
  | [] => nan
  | x :: data' =>
      fold_left
        (fun best y =>
           match best, y with
           | Some _, Some _ => if pick_left best y then best else y
           | _, _ => nan
           end)
        data' x
  end.

Definition np_min : list float -> float := np_extremum fle.
Definition np_max : list float -> float := np_extremum fge.

(** The index pairs visited by the two nested [enumerate] loops with the
    test [i < j], in the order visited. *)
Definition index_pairs (valid_names : list string)
  : list ((nat * string) * (nat * string)) :=
  ordered_pairs (enumerate valid_names).

Section Test.
Variable sqrt : Q -> Q.
Variable median : list float -> float.
(** [stats.f_oneway], applied to the valid groups *)
Variable f_oneway : list (list float) -> outcome (float * float).
(** [stats.ttest_ind(a, b)] *)
Variable ttest_ind : list float -> list float -> outcome (float * float).

(** The call of [f_oneway] is outside any [try]: what it raises leaves
    the function. *)
Definition perform_one_way_anova (groups : list (list float))
           (group_names : list string) (metric_name : string)
  : outcome result :=
  let valid := valid_pairs groups group_names in
  let valid_groups := map fst valid in
  let valid_names := map snd valid in
  if Nat.ltb (length valid_groups) 2 then
    Returned
      (mkResult
         (Some ("Se necesitan al menos 2 grupos para ANOVA. Solo se encontraron "
                ++ str_of_nat (length valid_groups) ++ " grupos válidos."))%string
         metric_name None None None None None None)
  else
    fp <- f_oneway valid_groups ;;
    let f_statistic := fst fp in
    let p_value := snd fp in
    let stats_desc :=
      fold_left
        (fun stats gn =>
           dict_set stats (snd gn)
             (mkDesc (length (fst gn)) (Numpy.mean (fst gn))
                     (Numpy.std_ddof1 sqrt (fst gn)) (median (fst gn))
                     (np_min (fst gn)) (np_max (fst gn))))
        valid [] in
    let alpha := double 0.05 in
    let significant := flt p_value alpha in
    Returned
      (mkResult None metric_name (Some f_statistic) (Some p_value)
                (Some significant) (Some alpha) (Some valid_names)
                (Some stats_desc)).

(** The table is a list of rows, empty for [pd.DataFrame()]. *)
Definition perform_bonferroni_correction (groups : list (list float))
           (group_names : list string) (metric_name : string)
  : outcome (list row) :=
  let valid := valid_pairs groups group_names in
  let valid_groups := map fst valid in
  let valid_names := map snd valid in
  if Nat.ltb (length valid_groups) 2 then Returned []
  else
    let n_comparisons := (length valid_names * (length valid_names - 1) / 2)%nat in
    let alpha_corrected :=
      if Nat.ltb 0 n_comparisons then fdiv (double 0.05) (of_nat n_comparisons)
      else double 0.05 in
    for_each
      (fun ab =>
         let '((i, name1), (j, name2)) := ab in
         let group_i := nth i valid_groups [] in
         let group_j := nth j valid_groups [] in
         tp <- ttest_ind group_i group_j ;;
         let p_value := snd tp in
         Returned
           (mkRow name1 name2
                  (fsub (Numpy.mean group_i) (Numpy.mean group_j))
                  p_value
                  (py_min (fmul p_value (of_nat n_comparisons)) (Some 1))
                  (flt p_value alpha_corrected)))
      (index_pairs valid_names).

End Test.

End Anova.

(** ** Inputs of the worked runs *)

Module Runs.

(** Two samples hold the same numbers. *)
Definition same_values (a b : list float) : bool :=
  Nat.eqb (length a) (length b)
  && forallb (fun xy => feq (fst xy) (snd xy)) (combine a b).

(** [np.around(x, 3)]: times 1000, to the nearest integer, over 1000. *)
Definition around3 (x : float) : float :=
  match fmul x (Some 1000) with
  | Some y => fdiv (Some (inject_Z (Binary64.nearest_even y))) (Some 1000)
  | None => nan
  end.

(** The critical values that [stats.anderson] lists for a sample of [n]
    values and the normal distribution: its asymptotic values over
    [1.0 + 4.0/n - 25.0/n/n], rounded to three decimals. *)
Definition anderson_critical_values (n : nat) : list float :=
  let scale := fsub (fadd (Some 1) (fdiv (Some 4) (of_nat n)))
                    (fdiv (fdiv (Some 25) (of_nat n)) (of_nat n)) in
  map (fun a => around3 (fdiv (double a) scale))
      [0.576; 0.656; 0.787; 0.918; 1.092].

Definition eight_values : list float :=
  [Some 1; Some 2; Some 3; Some 4; Some 5; Some 6; Some 7; Some 8].

Definition skewed_values : list float :=
  [Some 1; Some 1; Some 1; Some 2; Some 2; Some 3; Some 5; Some 9].

Definition outlier_values : list float :=
  [Some 1; Some 1; Some 1; Some 1; Some 1; Some 1; Some 1; Some 100].

Definition ten_equal_values : list float := repeat (double 0.3) 10.

(** The statistic of [stats.anderson] on these samples, to the digits
    shown. *)
Definition anderson_statistics : list (list float * Q) :=
  [(eight_values, 0.1340); (skewed_values, 0.7896);
   (outlier_values, 2.4025); (ten_equal_values, 9.5182)].

(** [stats.anderson(group, dist='norm')] on the samples above: the
    tabulated statistic, scipy's critical values for the size of the
    sample, and the five levels in percent.  Other samples are not
    tabulated. *)
Definition anderson_on_samples (group : list float)
  : outcome AD.anderson_result :=
  match find (fun e => same_values (fst e) group) anderson_statistics with
  | Some (_, statistic) =>
      Returned
        (AD.mkAnderson (double statistic)
           (anderson_critical_values (length group))
           [Some 15; Some 10; Some 5; Some 2.5; Some 1])
  | None => Raised "sample not tabulated"
  end.

(** Three values 0.1, and what numpy makes of them before the ECDF-based
    test: [(data - mean) / std] with the mean 0.10000000000000002 and the
    standard deviation 1.6996749443881478e-17. *)
Definition three_tenths : list float := repeat (double 0.1) 3.

Definition three_tenths_standardized : list float :=
  repeat (double (- 0.8164965809277261)) 3.

(** [stats.kstest(., 'norm')] on that sample: the statistic is
    [1 - Phi(-0.8165)], the p-value [2 * (1 - D) ^ 3].  Other samples are
    not tabulated. *)
Definition kstest_on_samples (normalized : list float)
  : outcome (float * float) :=
  if same_values normalized three_tenths_standardized
  then Returned (double 0.7928919108787374, double 0.017767289577674143)
  else Raised "sample not tabulated".

(** Three groups of two values, each group below the next, and what
    [mannwhitneyu] answers on two such groups: [U = 0] and the exact
    two-sided p-value [2 * (1/6)]. *)
Definition three_groups : list (string * list float) :=
  [("A"%string, [Some 1; Some 2]); ("B"%string, [Some 3; Some 4]);
   ("C"%string, [Some 5; Some 6])].

Definition all_below (data1 data2 : list float) : bool :=
  forallb (fun x => forallb (fun y => flt x y) data2) data1.

Definition rank_sum_on_samples (data1 data2 : list float)
  : outcome (float * float) :=
  if Nat.eqb (length data1) 2 && Nat.eqb (length data2) 2
     && all_below data1 data2
  then Returned (Some 0, double (1 # 3))
  else Raised "sample not tabulated".

End Runs.

(** ** Reading the Pareto files ([plot_pareto_front.py]) *)

Module ParetoFiles.

(** A table read by [pd.read_csv]: its column names and its rows, a row
    giving the number in each column. *)
Record dataframe : Type := mkFrame {
  columns : list string;
  rows : list (string -> float)
}.

(** [df[['f1', 'f2']].values] *)
Definition f1_f2_values (df : dataframe) : list Pareto.solution :=
  map (fun row => (row "f1"%string, row "f2"%string)) (rows df).

Definition has_column (df : dataframe) (name : string) : bool :=
  existsb (String.eqb name) (columns df).

Section Files.
(** [os.path.exists] and [pd.read_csv] *)
Variable path_exists : string -> bool.
Variable read_csv : string -> outcome dataframe.

(** The loop [for file in file_list], appending one array of rows per
    usable file; a missing file or a file without the two columns is
    skipped with a warning, what [pd.read_csv] raises leaves the function. *)
Fixpoint read_loop (file_list : list string)
         (all_solutions : list (list Pareto.solution))
  : outcome (list (list Pareto.solution)) :=
  match file_list with
  | [] => Returned all_solutions
  | file :: file_list' =>
      if path_exists file then
        df <- read_csv file ;;
        if has_column df "f1" && has_column df "f2" then
          read_loop file_list' (all_solutions ++ [f1_f2_values df])
        else read_loop file_list' all_solutions
      else read_loop file_list' all_solutions
  end.

(** [combine_pareto_fronts(file_list)]; [np.concatenate] is [concat]. *)
Definition combine_pareto_fronts (file_list : list string)
  : outcome (list Pareto.solution) :=
  all_solutions <- read_loop file_list [] ;;
  match all_solutions with
  | [] => Raised "No se encontraron archivos válidos con soluciones"
  | _ => Returned (concat all_solutions)
  end.

(** The two steps of [main] between the search for files and the
    output: read all rows, then split them. *)
Definition combined_partition (file_list : list string)
  : outcome (list Pareto.solution * list Pareto.solution) :=
  combined_pareto <- combine_pareto_fronts file_list ;;
  Returned (Pareto.get_non_dominated_solutions combined_pareto).

(** A file the loop uses: it exists and its table has both columns. *)
Definition usable (file : string) : bool :=
  path_exists file &&
  match read_csv file with
  | Returned df => has_column df "f1" && has_column df "f2"
  | Raised _ => false
  end.

(** The rows of a file, when it can be read. *)
Definition solutions_of (file : string) : list Pareto.solution :=
  match read_csv file with
  | Returned df => f1_f2_values df
  | Raised _ => []
  end.

End Files.

End ParetoFiles.

(** ** Normality test before the parametric comparison ([anova_test.py]) *)

Module AnovaNormality.

(** [results[name]]; [note] is an optional key. *)
Record group_result : Type := mkGroup {
  statistic : float;
  p_value : float;
  normal : bool;
  mean : float;
  std : float;
  n : nat;
  note : option string
}.

Inductive report : Type :=
| NoValidGroups (error metric : string)
| Report (metric : string) (alpha : float) (groups : list string)
         (test_results : list (string * group_result))
         (all_groups_normal : bool).

Section Test.
Variable sqrt : Q -> Q.
Variable kstest : list float -> outcome (float * float).

(** [(group - mean) / std] *)
Definition standardized (group : list float) : list float :=
  map (fun x => fdiv (fsub x (Numpy.mean group)) (Numpy.std_ddof1 sqrt group))
      group.

(** The body of the loop over the valid groups, as the value stored in
    [results[name]].  There is no test on the size of the group, and the
    call of [stats.kstest] is outside any [try]. *)
Definition classify_group (group : list float) : outcome group_result :=
  let alpha := double 0.05 in
  let mean := Numpy.mean group in
  let std := Numpy.std_ddof1 sqrt group in
  if feq std (Some 0) then
    Returned (mkGroup nan nan false mean std (length group)
                      (Some "Todos los valores son iguales (std=0)"%string))
  else
    sp <- kstest (standardized group) ;;
    let statistic := fst sp in
    let p_value := snd sp in
    let is_normal := fge p_value alpha in
    Returned (mkGroup statistic p_value is_normal mean std (length group) None).

(** The loop, on the state [(results, all_normal)]. *)
Fixpoint test_loop (pairs : list (list float * string))
         (state : list (string * group_result) * bool)
  : outcome (list (string * group_result) * bool) :=
  match pairs with
  | [] => Returned state
  | (group, name) :: pairs' =>
      r <- classify_group group ;;
      test_loop pairs' (dict_set (fst state) name r, snd state && normal r)
  end.

Definition perform_normality_test_ks (groups : list (list float))
           (group_names : list string) (metric_name : string)
  : outcome report :=
  let valid := valid_pairs groups group_names in
  let valid_names := map snd valid in
  if Nat.eqb (length valid) 0 then
    Returned
      (NoValidGroups "No hay grupos válidos para el test de normalidad."
                     metric_name)
  else
    st <- test_loop valid ([], true) ;;
    Returned (Report metric_name (double 0.05) valid_names (fst st) (snd st)).

End Test.

End AnovaNormality.

(** ** Tukey's post-hoc table ([anova_test.py]) *)

Module AnovaTukey.

(** A row of the table; the columns are [Grupo 1], [Grupo 2],
    [Diferencia], [p_value] and [Significativo]. *)
Record row : Type := mkRow {
  grupo_1 : string;
  grupo_2 : string;
  diferencia : float;
  t_p_value : float;
  significativo : bool
}.

(** The two shapes of table the function returns. *)
Inductive table : Type :=
| Tukey (comparisons : list row)
| Bonferroni (comparisons : list Anova.row).

Section Test.
(** [scipy.stats.tukey_hsd], when the import succeeds: the matrix
    [result.pvalue], read at [[i, j]]. *)
Variable tukey_hsd : option (list (list float) -> outcome (nat -> nat -> float)).
Variable ttest_ind : list float -> list float -> outcome (float * float).

Definition perform_post_hoc_tukey (groups : list (list float))
           (group_names : list string) (metric_name : string)
  : outcome table :=
  match tukey_hsd with
  | None =>
      rows <- Anova.perform_bonferroni_correction ttest_ind groups group_names
                                                  metric_name ;;
      Returned (Bonferroni rows)
  | Some tukey =>
      let valid := valid_pairs groups group_names in
      let valid_groups := map fst valid in
      let valid_names := map snd valid in
      if Nat.ltb (length valid_groups) 2 then Returned (Tukey [])
      else
        pvalue <- tukey valid_groups ;;
        Returned
          (Tukey
             (map (fun ab =>
                     let '((i, name1), (j, name2)) := ab in
                     mkRow name1 name2
                           (fsub (Numpy.mean (nth i valid_groups []))
                                 (Numpy.mean (nth j valid_groups [])))
                           (pvalue i j)
                           (flt (pvalue i j) (double 0.05)))
                  (Anova.index_pairs valid_names)))
  end.

End Test.

End AnovaTukey.

(** ** The driver of the rank-based analysis ([kruskal_wallis_test.py]) *)

Module FolderName.

(** [s.split(sep)] for a one-character separator *)
Fixpoint split_on (sep : Ascii.ascii) (s : string) : list string :=
  match s with
  | EmptyString => [EmptyString]
  | String c s' =>
      if Ascii.eqb c sep then EmptyString :: split_on sep s'
      else
        match split_on sep s' with
        | [] => [String c EmptyString]
        | part :: parts => String c part :: parts
        end
  end.

(** [sep.join(parts)] *)
Fixpoint join (sep : Ascii.ascii) (parts : list string) : string :=
  match parts with
  | [] => EmptyString
  | [part] => part
  | part :: parts' => (part ++ String sep (join sep parts'))%string
  end.

(** The character [c] does not occur in [s]. *)
Fixpoint free_of (c : Ascii.ascii) (s : string) : bool :=
  match s with
  | EmptyString => true
  | String c' s' => negb (Ascii.eqb c' c) && free_of c s'
  end.

(** How many times [c] occurs in [s]. *)
Fixpoint occurrences (c : Ascii.ascii) (s : string) : nat :=
  match s with
  | EmptyString => 0
  | String c' s' => (if Ascii.eqb c' c then 1 else 0) + occurrences c s'
  end.

Definition underscore : Ascii.ascii := "_"%char.

(** The dictionary [parse_folder_name] returns. *)
Record params : Type := mkParams {
  crossover : float;
  mutation : float;
  population : Z;
  folder : string
}.

Section Parse.
(** [float(s)] and [int(s)]; [None] is a [ValueError]. *)
Variable py_float : string -> option float.
Variable py_int : string -> option Z.

(** [parse_folder_name(folder_name)]; the [None] of Python is [None]. *)
Definition parse_folder_name (folder_name : string) : option params :=
  let parts := split_on underscore folder_name in
  if Nat.leb 4 (length parts) then
    match py_float (nth 1 parts EmptyString) with
    | None => None
    | Some c =>
        let crossover := fdiv c (Some 10) in
        match py_float (nth 2 parts EmptyString) with
        | None => None
        | Some m =>
            let mutation := fdiv m (Some 1000) in
            match py_int (nth 3 parts EmptyString) with
            | None => None
            | Some population =>
                Some (mkParams crossover mutation population folder_name)
            end
        end
    end
  else None.

End Parse.

End FolderName.

Module KruskalWallisDriver.


Section Driver.
(** The table and what pandas answers on it: the column names,
    [df[factor].unique()], and
    [df[df[factor] == value]['hypervolume'].values]. *)
Variable dataframe : Type.
Variable cell : Type.
Variable df_columns : dataframe -> list string.
Variable unique : dataframe -> string -> list cell.
Variable hypervolume_where : dataframe -> string -> cell -> outcome (list float).
(** [str(value)] *)
Variable py_str : cell -> string.
Variable sqrt : Q -> Q.
Variable median : list float -> float.
Variable percentile : list float -> Q -> float.
Variable kruskal : list (list float) -> outcome (float * float).
Variable mannwhitneyu : list float -> list float -> outcome (float * float).



End Driver.

End KruskalWallisDriver.

(** ** The batch of the ECDF-based test ([kolmogorov_smirnov_test.py]) *)

Module KSBatch.

(** An element of [all_results]: the dictionary of the test with the
    keys [folder], [file_path] and [column] added, or the dictionary of a
    file that could not be processed. *)
Inductive entry : Type :=
| Tested (test_result : KS.result) (folder file_path column : string)
| Failed (folder file_path error : string) (n : nat).

(** ['error' in result] *)
Definition has_error (e : entry) : bool :=
  match e with
  | Tested _ _ _ _ => false
  | Failed _ _ _ _ => true
  end.

(** [result.get('normal', False)] *)
Definition get_normal (e : entry) : bool :=
  match e with
  | Tested r _ _ _ => KS.normal r
  | Failed _ _ _ _ => false
  end.

Definition file_path_of (e : entry) : string :=
  match e with
  | Tested _ _ file_path _ => file_path
  | Failed _ file_path _ _ => file_path
  end.

(** The four lists that [print_batch_summary] counts. *)
Record summary : Type := mkSummary {
  successful : list entry;
  errors : list entry;
  normal : list entry;
  not_normal : list entry
}.

Definition batch_summary (all_results : list entry) : summary :=
  let successful := filter (fun r => negb (has_error r)) all_results in
  let errors := filter has_error all_results in
  let normal := filter get_normal successful in
  let not_normal := filter (fun r => negb (get_normal r)) successful in
  mkSummary successful errors normal not_normal.

Section Batch.
Variable sqrt : Q -> Q.
Variable kstest : list float -> outcome (float * float).
(** [find_all_test_files], [load_data_from_csv] and
    [Path(csv_file).parent.name] *)
Variable find_all_test_files : string -> string -> list string.
Variable load_data_from_csv : string -> option string -> outcome (list float * string).
Variable parent_name : string -> string.

(** The body of the loop over the files: the [try] and its [except]. *)
Definition process_file (csv_file : string) (column : option string)
           (significance_level : float) : entry :=
  let folder_name := parent_name csv_file in
  match load_data_from_csv csv_file column with
  | Returned (data, column_name) =>
      let test_result :=
        KS.perform_kolmogorov_smirnov_test sqrt kstest data significance_level in
      Tested test_result folder_name csv_file column_name
  | Raised e => Failed folder_name csv_file e 0
  end.

(** [process_all_files]; the lines it prints are left out. *)
Definition process_all_files (base_dir filename : string)
           (column : option string) (significance_level : float)
  : list entry :=
  let files := find_all_test_files base_dir filename in
  match files with
  | [] => []
  | _ =>
      fold_left
        (fun all_results csv_file =>
           all_results ++ [process_file csv_file column significance_level])
        files []
  end.

End Batch.

End KSBatch.

(** ** The pairs of a post-hoc list *)

Module PostHocPairs.

(** The two names of an entry. *)
Definition names_of (c : KruskalWallis.comparison) : string * string :=
  (KruskalWallis.group1 c, KruskalWallis.group2 c).

(** Both names of the pair are keys, of non-empty groups: the pairs
    that the loop does not skip. *)
Definition both_nonempty (groups_data : list (string * list float))
           (pair : string * string) : bool :=
  match dict_get groups_data (fst pair), dict_get groups_data (snd pair) with
  | Some data1, Some data2 =>
      negb (Nat.eqb (length data1) 0 || Nat.eqb (length data2) 0)
  | _, _ => false
  end.

(** The entry that the loop appends for a pair of non-empty groups:
    the corrected comparison when the rank-sum test returns, the error
    entry when it raises. *)
Definition entry_of
           (mannwhitneyu : list float -> list float -> outcome (float * float))
           (alpha : float) (correction : option string) (n_comparisons : nat)
           (group1 group2 : string) (data1 data2 : list float)
  : KruskalWallis.comparison :=
  match mannwhitneyu data1 data2 with
  | Returned (statistic, p_value) =>
      KruskalWallis.mkComparison group1 group2 statistic p_value
        (KruskalWallis.correct correction p_value n_comparisons)
        (flt (KruskalWallis.correct correction p_value n_comparisons) alpha)
        (Some correction) None
  | Raised e =>
      KruskalWallis.mkComparison group1 group2 nan nan nan false None (Some e)
  end.

(** An entry of the list is the entry of the pair it names. *)
Definition entry_for
           (mannwhitneyu : list float -> list float -> outcome (float * float))
           (groups_data : list (string * list float))
           (alpha : float) (correction : option string) (n_comparisons : nat)
           (c : KruskalWallis.comparison) : Prop :=
  exists data1 data2,
    dict_get groups_data (KruskalWallis.group1 c) = Some data1 /\
    dict_get groups_data (KruskalWallis.group2 c) = Some data2 /\
    data1 <> [] /\ data2 <> [] /\
    c = entry_of mannwhitneyu alpha correction n_comparisons
                 (KruskalWallis.group1 c) (KruskalWallis.group2 c) data1 data2.

End PostHocPairs.

(** ** The rows of the two post-hoc tables, pair by pair *)

Module TableRows.

(** The row of the Bonferroni table for two groups with their names,
    among [n_pairs] comparisons. *)
Definition bonferroni_row
           (ttest_ind : list float -> list float -> outcome (float * float))
           (n_pairs : nat)
           (pair : (list float * string) * (list float * string))
  : outcome Anova.row :=
  let '((group_a, name_a), (group_b, name_b)) := pair in
  tp <- ttest_ind group_a group_b ;;
  Returned
    (Anova.mkRow name_a name_b
       (fsub (Numpy.mean group_a) (Numpy.mean group_b))
       (snd tp)
       (py_min (fmul (snd tp) (of_nat n_pairs)) (Some 1))
       (flt (snd tp) (fdiv (double 0.05) (of_nat n_pairs)))).

(** The row of Tukey's table for two groups with their names and their
    positions among the valid groups. *)
Definition tukey_row (pvalue : nat -> nat -> float)
           (pair : (nat * (list float * string)) * (nat * (list float * string)))
  : AnovaTukey.row :=
  let '((i, (group_a, name_a)), (j, (group_b, name_b))) := pair in
  AnovaTukey.mkRow name_a name_b
    (fsub (Numpy.mean group_a) (Numpy.mean group_b))
    (pvalue i j)
    (flt (pvalue i j) (double 0.05)).

End TableRows.

(** ** Inputs of further runs *)

Module MoreRuns.
Import ParetoFiles.

(** Two files for the runs: two rows each, read in either order. *)
Definition two_files_exist (file : string) : bool :=
  String.eqb file "a.csv" || String.eqb file "b.csv".

Definition two_files_read (file : string) : outcome dataframe :=
  if String.eqb file "a.csv" then
    Returned (mkFrame ["f1"%string; "f2"%string]
                [fun c => if String.eqb c "f1" then Some 1 else Some 5;
                 fun c => if String.eqb c "f1" then Some 3 else Some 5])
  else
    Returned (mkFrame ["f1"%string; "f2"%string]
                [fun c => if String.eqb c "f1" then Some 2 else Some 9;
                 fun c => if String.eqb c "f1" then Some 4 else Some 1]).

(** A rank-sum test that fails on a group of one value and answers
    [p = 0.01] otherwise, and three groups with one such group. *)
Definition rank_sum_failing (data1 data2 : list float)
  : outcome (float * float) :=
  if Nat.eqb (length data1) 1 || Nat.eqb (length data2) 1
  then Raised "degenerate sample"
  else Returned (Some 0, double 0.01).

Definition groups_with_singleton : list (string * list float) :=
  [("A"%string, [Some 1; Some 2]); ("B"%string, [Some 3]);
   ("C"%string, [Some 5; Some 6])].

(** Stand-ins for [float] and [int] that read two digits, for the runs
    on folder names. *)
Definition digit_of (c : Ascii.ascii) : option Z :=
  let n := Ascii.nat_of_ascii c in
  if Nat.leb 48 n && Nat.leb n 57 then Some (Z.of_nat (n - 48)) else None.

Fixpoint digits_value (acc : Z) (s : string) : option Z :=
  match s with
  | EmptyString => Some acc
  | String c s' =>
      match digit_of c with
      | Some d => digits_value (10 * acc + d)%Z s'
      | None => None
      end
  end.

Definition int_of_digits (s : string) : option Z :=
  match s with
  | EmptyString => None
  | _ => digits_value 0%Z s
  end.

Definition float_of_digits (s : string) : option float :=
  option_map (fun z => Some (inject_Z z)) (int_of_digits s).

(** A loader that finds the data of one file only, and the list of two
    files, for the runs of the batch. *)
Definition load_one (csv_file : string) (column : option string)
  : outcome (list float * string) :=
  if String.eqb csv_file "out/a/hv.csv"
  then Returned ([Some 1; Some 2; Some 4; Some 8], "Hypervolume"%string)
  else Raised "missing column".

Definition find_two (base_dir filename : string) : list string :=
  ["out/a/hv.csv"%string; "out/b/hv.csv"%string].

End MoreRuns.

(** * Part II: properties *)

(** ** The rounding of binary64 *)

Module Binary64Facts.
Import Binary64.

Lemma pow2_pos (e : Z) : 0 < 2 ^ e.
Proof. apply Qpower_0_lt. reflexivity. Qed.

Lemma two_not_zero : ~ 2 == 0.
Proof. discriminate. Qed.

Lemma pow2_le (n m : Z) : (n <= m)%Z -> 2 ^ n <= 2 ^ m.
Proof. intro H. apply Qpower_le_compat_l; [exact H | discriminate]. Qed.

Lemma pow2_Z (n : Z) : (0 <= n)%Z -> inject_Z (2 ^ n) == 2 ^ n.
Proof. intro H. exact (Zpower_Qpower 2 n H). Qed.

Lemma exponent_spec (q : Q) :
  0 < q -> 2 ^ exponent q <= q /\ q < 2 ^ (exponent q + 1).
Proof.
  intro Hq. unfold exponent.
  destruct q as [a d]. cbn [Qnum Qden].
  assert (Ha : (0 < a)%Z) by (unfold Qlt in Hq; cbn in Hq; lia).
  assert (Hd : (0 < Zpos d)%Z) by reflexivity.
  destruct (Z.log2_spec a Ha) as [La Ua].
  destruct (Z.log2_spec (Zpos d) Hd) as [Ld Ud].
  set (la := Z.log2 a) in *. set (ld := Z.log2 (Zpos d)) in *.
  assert (Hla : (0 <= la)%Z) by apply Z.log2_nonneg.
  assert (Hld : (0 <= ld)%Z) by apply Z.log2_nonneg.
  assert (Hqa : (a # d) * inject_Z (Zpos d) == inject_Z a).
  { unfold Qeq, Qmult, inject_Z. cbn. lia. }
  assert (La' : 2 ^ la <= inject_Z a)
    by (rewrite <- pow2_Z by exact Hla; rewrite <- Zle_Qle; exact La).
  assert (Ua' : inject_Z a < 2 ^ (la + 1))
    by (rewrite <- pow2_Z by lia; rewrite <- Zlt_Qlt; fold (Z.succ la); exact Ua).
  assert (Ld' : 2 ^ ld <= inject_Z (Zpos d))
    by (rewrite <- pow2_Z by exact Hld; rewrite <- Zle_Qle; exact Ld).
  assert (Ud' : inject_Z (Zpos d) < 2 ^ (ld + 1))
    by (rewrite <- pow2_Z by lia; rewrite <- Zlt_Qlt; fold (Z.succ ld); exact Ud).
  assert (P1 := pow2_pos ld). assert (P2 := pow2_pos (ld + 1)).
  destruct (Qle_bool (2 ^ (la - ld)) (a # d)) eqn:E.
  - split; [apply Qle_bool_iff; exact E|].
    replace (la - ld + 1)%Z with ((la + 1) - ld)%Z by ring.
    rewrite Qpower_minus by exact two_not_zero.
    apply Qlt_shift_div_l; [exact P1|].
    apply Qle_lt_trans with (inject_Z a); [|exact Ua'].
    rewrite <- Hqa. apply Qmult_le_l; [exact Hq | exact Ld'].
  - assert (E' : (a # d) < 2 ^ (la - ld)).
    { apply Qnot_le_lt. intro H. apply Qle_bool_iff in H. congruence. }
    split.
    + replace (la - ld - 1)%Z with (la - (ld + 1))%Z by ring.
      rewrite Qpower_minus by exact two_not_zero.
      apply Qle_shift_div_r; [exact P2|].
      apply Qle_trans with (inject_Z a); [exact La'|].
      rewrite <- Hqa. apply Qmult_le_l; [exact Hq | apply Qlt_le_weak; exact Ud'].
    + replace (la - ld - 1 + 1)%Z with (la - ld)%Z by ring. exact E'.
Qed.

Lemma exponent_le (a b : Q) :
  0 < a -> a <= b -> (exponent a <= exponent b)%Z.
Proof.
  intros Ha Hab.
  destruct (exponent_spec a Ha) as [La _].
  destruct (exponent_spec b (Qlt_le_trans _ _ _ Ha Hab)) as [_ Ub].
  assert (H : 2 ^ exponent a < 2 ^ (exponent b + 1)).
  { apply Qle_lt_trans with a; [exact La|].
    apply Qle_lt_trans with b; assumption. }
  apply Qpower_lt_compat_l_inv in H; [lia | reflexivity].
Qed.

Lemma nearest_even_cases (q : Q) :
  let f := Qfloor q in
  (nearest_even q = f /\ q - inject_Z f <= 1 # 2) \/
  (nearest_even q = (f + 1)%Z /\ 1 # 2 <= q - inject_Z f).
Proof.
  intro f. unfold nearest_even. fold f.
  destruct (Qcompare_spec (q - inject_Z f) (1 # 2)) as [E | L | G].
  - destruct (Z.even f); [left | right]; split; try reflexivity;
      rewrite E; apply Qle_refl.
  - left. split; [reflexivity | apply Qlt_le_weak; exact L].
  - right. split; [reflexivity | apply Qlt_le_weak; exact G].
Qed.

Lemma nearest_even_tie (q : Q) :
  q - inject_Z (Qfloor q) == 1 # 2 ->
  nearest_even q = if Z.even (Qfloor q) then Qfloor q else (Qfloor q + 1)%Z.
Proof.
  intro E. unfold nearest_even.
  destruct (Qcompare_spec (q - inject_Z (Qfloor q)) (1 # 2)) as [_ | L | G].
  - reflexivity.
  - rewrite E in L. discriminate L.
  - rewrite E in G. discriminate G.
Qed.

Lemma nearest_even_mono (a b : Q) :
  a <= b -> (nearest_even a <= nearest_even b)%Z.
Proof.
  intro Hab.
  assert (Hf := Qfloor_resp_le a b Hab).
  destruct (nearest_even_cases a) as [[Ea Ra] | [Ea Ra]];
    destruct (nearest_even_cases b) as [[Eb Rb] | [Eb Rb]];
    rewrite ?Ea, ?Eb; try lia.
  destruct (Z.eq_dec (Qfloor a) (Qfloor b)) as [E | N]; [|lia].
  rewrite <- E in Rb.
  assert (Ta : a - inject_Z (Qfloor a) == 1 # 2) by lra.
  assert (Tb : b - inject_Z (Qfloor b) == 1 # 2) by (rewrite <- E; lra).
  rewrite <- Ea, <- Eb.
  rewrite (nearest_even_tie a Ta), (nearest_even_tie b Tb), E. lia.
Qed.

Lemma nearest_even_Z (n : Z) : nearest_even (inject_Z n) = n.
Proof.
  unfold nearest_even. rewrite Qfloor_Z.
  destruct (Qcompare_spec (inject_Z n - inject_Z n) (1 # 2)) as [E | L | G].
  - exfalso. assert (H : inject_Z n - inject_Z n == 0) by ring.
    rewrite H in E. discriminate E.
  - reflexivity.
  - exfalso. assert (H : inject_Z n - inject_Z n == 0) by ring.
    rewrite H in G. discriminate G.
Qed.

Lemma round_positive (q : Q) :
  0 < q ->
  round q == inject_Z (nearest_even (q / 2 ^ ulp_exponent q)) * 2 ^ ulp_exponent q.
Proof.
  intro Hq. unfold round.
  destruct (Qeq_bool q 0) eqn:E.
  - apply Qeq_bool_iff in E. rewrite E in Hq. discriminate Hq.
  - apply Qred_correct.
Qed.

Lemma Qabs_positive (q : Q) : 0 < q -> Qabs q = q.
Proof.
  destruct q as [a d]. unfold Qlt. cbn. intro H.
  rewrite Z.abs_eq by lia. reflexivity.
Qed.

Lemma round_zero : round 0 = 0.
Proof. reflexivity. Qed.

(** Rounding is monotone on the non-negative numbers. *)
Lemma round_mono (a b : Q) : 0 <= a -> a <= b -> round a <= round b.
Proof.
  intros Ha Hab.
  assert (Hnn : forall q, 0 < q -> 0 <= round q).
  { intros q Hq. rewrite (round_positive q Hq).
    apply Qmult_le_0_compat; [|apply Qlt_le_weak, pow2_pos].
    change 0 with (inject_Z 0). rewrite <- Zle_Qle.
    rewrite <- (nearest_even_Z 0). apply nearest_even_mono.
    apply Qle_shift_div_l; [apply pow2_pos|].
    change (inject_Z 0) with 0. rewrite Qmult_0_l. apply Qlt_le_weak; exact Hq. }
  destruct (Qlt_le_dec 0 a) as [Pa | Za].
  2:{ assert (E : a == 0) by lra.
      assert (Ra : round a = 0).
      { unfold round. rewrite (proj2 (Qeq_bool_iff a 0) E). reflexivity. }
      rewrite Ra.
      destruct (Qlt_le_dec 0 b) as [Pb | Zb]; [apply Hnn; exact Pb|].
      assert (Eb : b == 0) by lra.
      unfold round. rewrite (proj2 (Qeq_bool_iff b 0) Eb). apply Qle_refl. }
  assert (Pb : 0 < b) by lra.
  rewrite (round_positive a Pa), (round_positive b Pb).
  unfold ulp_exponent. rewrite (Qabs_positive a Pa), (Qabs_positive b Pb).
  assert (He := exponent_le a b Pa Hab).
  destruct (exponent_spec a Pa) as [La Ua].
  destruct (exponent_spec b Pb) as [Lb Ub].
  set (ea := exponent a) in *. set (eb := exponent b) in *.
  set (ua := Z.max (ea - 52) (-1074)). set (ub := Z.max (eb - 52) (-1074)).
  assert (Hu : (ua <= ub)%Z) by (unfold ua, ub; lia).
  destruct (Z.eq_dec ua ub) as [E | N].
  - rewrite <- E.
    apply Qmult_le_compat_r; [|apply Qlt_le_weak, pow2_pos].
    rewrite <- Zle_Qle. apply nearest_even_mono.
    apply Qmult_le_compat_r; [exact Hab|].
    apply Qlt_le_weak, Qinv_lt_0_compat, pow2_pos.
  - assert (Hub : ub = (eb - 52)%Z) by (unfold ua, ub in *; lia).
    assert (Hlt : (ea < eb)%Z) by (unfold ua, ub in *; lia).
    assert (Hk : (0 <= eb - ua)%Z) by (unfold ua, ub in *; lia).
    apply Qle_trans with (2 ^ eb).
    + (* round a <= 2 ^ eb *)
      assert (Hz : a / 2 ^ ua <= inject_Z (2 ^ (eb - ua))).
      { rewrite pow2_Z by exact Hk.
        rewrite Qpower_minus by exact two_not_zero.
        apply Qmult_le_compat_r;
          [|apply Qlt_le_weak, Qinv_lt_0_compat, pow2_pos].
        apply Qle_trans with (2 ^ (ea + 1));
          [apply Qlt_le_weak; exact Ua | apply pow2_le; lia]. }
      apply nearest_even_mono in Hz. rewrite nearest_even_Z in Hz.
      apply Qle_trans with (inject_Z (2 ^ (eb - ua)) * 2 ^ ua).
      * apply Qmult_le_compat_r; [|apply Qlt_le_weak, pow2_pos].
        rewrite <- Zle_Qle. exact Hz.
      * rewrite pow2_Z by exact Hk.
        rewrite <- Qpower_plus by exact two_not_zero.
        replace (eb - ua + ua)%Z with eb by ring. apply Qle_refl.
    + (* 2 ^ eb <= round b *)
      assert (Hz : inject_Z (2 ^ 52) <= b / 2 ^ ub).
      { rewrite pow2_Z by lia.
        apply Qle_shift_div_l; [apply pow2_pos|].
        rewrite <- Qpower_plus by exact two_not_zero.
        replace (52 + ub)%Z with eb by lia. exact Lb. }
      apply nearest_even_mono in Hz. rewrite nearest_even_Z in Hz.
      apply Qle_trans with (inject_Z (2 ^ 52) * 2 ^ ub).
      * rewrite pow2_Z by lia.
        rewrite <- Qpower_plus by exact two_not_zero.
        replace (52 + ub)%Z with eb by lia. apply Qle_refl.
      * apply Qmult_le_compat_r; [|apply Qlt_le_weak, pow2_pos].
        rewrite <- Zle_Qle. exact Hz.
Qed.











(** The rounding on a few numbers: the doubles of 0.1 and of 1/3, a
    tie that goes to the even neighbour ([2 ^ 53 + 1] and [2 ^ 53 + 3]),
    half the smallest subnormal, which goes to zero, and the root of 2. *)
Example round_examples :
  round 0.1 = 3602879701896397 # 36028797018963968 /\
  round (1 # 3) = 6004799503160661 # 18014398509481984 /\
  round 9007199254740993 = 9007199254740992 /\
  round 9007199254740995 = 9007199254740996 /\
  round (2 ^ (-1075)) = 0 /\
  round (3 * 2 ^ (-1075)) == 2 ^ (-1073) /\
  Binary64.sqrt 2 = 6369051672525773 # 4503599627370496.
Proof. repeat split; vm_compute; reflexivity. Qed.

End Binary64Facts.

(** ** Comparisons of doubles *)

Lemma fle_iff (x y : float) :
  fle x y = true <-> exists a b, x = Some a /\ y = Some b /\ a <= b.
Proof.
  destruct x as [a|], y as [b|]; simpl; split.
  - intro H. exists a, b. rewrite <- Qle_bool_iff. auto.
  - intros (a' & b' & Ha & Hb & H). inversion Ha; inversion Hb; subst.
    apply Qle_bool_iff; exact H.
  - discriminate.
  - intros (a' & b' & _ & Hb & _). discriminate.
  - discriminate.
  - intros (a' & b' & Ha & _). discriminate.
  - discriminate.
  - intros (a' & b' & Ha & _). discriminate.
Qed.

Lemma Qlt_negb_le (a b : Q) : negb (Qle_bool b a) = true <-> a < b.
Proof.
  rewrite negb_true_iff. split; intro H.
  - apply Qnot_le_lt. intro Hle. apply Qle_bool_iff in Hle. congruence.
  - destruct (Qle_bool b a) eqn:E; [|reflexivity].
    apply Qle_bool_iff in E. exfalso. exact (Qlt_not_le _ _ H E).
Qed.

Lemma flt_iff (x y : float) :
  flt x y = true <-> exists a b, x = Some a /\ y = Some b /\ a < b.
Proof.
  destruct x as [a|], y as [b|]; simpl; split.
  - intro H. exists a, b. rewrite <- Qlt_negb_le. auto.
  - intros (a' & b' & Ha & Hb & H). inversion Ha; inversion Hb; subst.
    apply Qlt_negb_le; exact H.
  - discriminate.
  - intros (a' & b' & _ & Hb & _). discriminate.
  - discriminate.
  - intros (a' & b' & Ha & _). discriminate.
  - discriminate.
  - intros (a' & b' & Ha & _). discriminate.
Qed.

Lemma flt_some (a b : Q) : flt (Some a) (Some b) = true <-> a < b.
Proof. apply Qlt_negb_le. Qed.

Lemma flt_some_false (a b : Q) : flt (Some a) (Some b) = false <-> b <= a.
Proof.
  simpl. rewrite negb_false_iff. apply Qle_bool_iff.
Qed.

Lemma fle_some (a b : Q) : fle (Some a) (Some b) = true <-> a <= b.
Proof. apply Qle_bool_iff. Qed.

Lemma fle_some_false (a b : Q) : fle (Some a) (Some b) = false <-> b < a.
Proof.
  rewrite <- flt_some. simpl. destruct (Qle_bool a b); simpl; intuition congruence.
Qed.

(** ** Pareto dominance *)

Module ParetoFacts.
Import Pareto.

Lemma dominates_spec (a b : solution) :
  dominates a b = true <->
  exists a1 a2 b1 b2,
    a = (Some a1, Some a2) /\ b = (Some b1, Some b2) /\
    a1 <= b1 /\ b2 <= a2 /\ (a1 < b1 \/ b2 < a2).
Proof.
  destruct a as [x1 x2], b as [y1 y2]. unfold dominates, fge, fgt. cbn [fst snd].
  rewrite !andb_true_iff, orb_true_iff. split.
  - intros [[H1 H2] H3].
    apply fle_iff in H1. destruct H1 as (a1 & b1 & -> & -> & H1).
    apply fle_iff in H2. destruct H2 as (b2 & a2 & -> & -> & H2).
    exists a1, a2, b1, b2. rewrite !flt_some in H3. auto.
  - intros (a1 & a2 & b1 & b2 & Ha & Hb & H1 & H2 & H3).
    inversion Ha; inversion Hb; subst.
    rewrite !fle_some, !flt_some. auto.
Qed.

Lemma dominates_irrefl (a : solution) : dominates a a = false.
Proof.
  destruct (dominates a a) eqn:E; [|reflexivity].
  apply dominates_spec in E.
  destruct E as (a1 & a2 & b1 & b2 & Ha & Hb & _ & _ & H).
  rewrite Ha in Hb. inversion Hb; subst.
  destruct H as [H | H]; exfalso; exact (Qlt_irrefl _ H).
Qed.

Lemma dominates_asym (a b : solution) :
  dominates a b = true -> dominates b a = false.
Proof.
  intro H. destruct (dominates b a) eqn:E; [|reflexivity].
  apply dominates_spec in H. apply dominates_spec in E.
  destruct H as (a1 & a2 & b1 & b2 & Ha & Hb & H1 & H2 & H3).
  destruct E as (b1' & b2' & a1' & a2' & Hb' & Ha' & E1 & E2 & _).
  rewrite Ha in Ha'. rewrite Hb in Hb'. inversion Ha'; inversion Hb'; subst.
  destruct H3 as [H3 | H3]; exfalso.
  - exact (Qlt_not_le _ _ H3 E1).
  - exact (Qlt_not_le _ _ H3 E2).
Qed.

Lemma dominates_trans (a b c : solution) :
  dominates a b = true -> dominates b c = true -> dominates a c = true.
Proof.
  rewrite !dominates_spec.
  intros (a1 & a2 & b1 & b2 & Ha & Hb & H1 & H2 & H3).
  intros (b1' & b2' & c1 & c2 & Hb' & Hc & K1 & K2 & K3).
  rewrite Hb in Hb'. inversion Hb'; subst.
  exists a1, a2, c1, c2. repeat split; try reflexivity.
  - eapply Qle_trans; eassumption.
  - eapply Qle_trans; eassumption.
  - destruct H3 as [H3 | H3].
    + left. eapply Qlt_le_trans; eassumption.
    + right. eapply Qle_lt_trans; eassumption.
Qed.

(** The inner loop answers whether a row at another index dominates. *)
Lemma is_dominated_loop_iff (i : nat) (sol : solution) (rest : list solution) :
  forall j,
    is_dominated_loop i sol j rest = true <->
    exists k other, nth_error rest k = Some other /\ (j + k)%nat <> i
                    /\ dominates other sol = true.
Proof.
  induction rest as [|sol_b rest IH]; intro j; simpl.
  - split; [discriminate|]. intros (k & other & H & _). destruct k; discriminate.
  - destruct (negb (i =? j)%nat && dominates sol_b sol) eqn:E.
    + split; [intros _|reflexivity].
      apply andb_true_iff in E. destruct E as [E1 E2].
      apply negb_true_iff, Nat.eqb_neq in E1.
      exists 0%nat, sol_b. simpl. repeat split; [lia | exact E2].
    + rewrite IH. split.
      * intros (k & other & H1 & H2 & H3).
        exists (S k), other. simpl. repeat split; [exact H1 | lia | exact H3].
      * intros (k & other & H1 & H2 & H3). destruct k as [|k]; simpl in H1.
        -- inversion H1; subst. rewrite H3, andb_true_r in E.
           apply negb_false_iff, Nat.eqb_eq in E. lia.
        -- exists k, other. repeat split; [exact H1 | lia | exact H3].
Qed.

Lemma has_dominator_iff (solutions : list solution) (sol : solution) :
  has_dominator solutions sol = true <->
  exists other, In other solutions /\ dominates other sol = true.
Proof. apply existsb_exists. Qed.

(** For the row at index [i], being dominated by a row at another index
    is being dominated by a row at all: no row dominates itself. *)
Lemma has_dominator_other (solutions : list solution) (i : nat) (sol : solution) :
  nth_error solutions i = Some sol ->
  (has_dominator solutions sol = true <->
   exists j other, j <> i /\ nth_error solutions j = Some other
                   /\ dominates other sol = true).
Proof.
  intro Hi. rewrite has_dominator_iff. split.
  - intros (other & Hin & Hd). apply In_nth_error in Hin. destruct Hin as [j Hj].
    exists j, other. repeat split; [|exact Hj|exact Hd].
    intro; subst j. rewrite Hi in Hj. inversion Hj; subst.
    rewrite dominates_irrefl in Hd. discriminate.
  - intros (j & other & _ & Hj & Hd). exists other. split; [|exact Hd].
    eapply nth_error_In; exact Hj.
Qed.

Lemma is_dominated_loop_has_dominator (solutions : list solution) (i : nat)
      (sol : solution) :
  nth_error solutions i = Some sol ->
  is_dominated_loop i sol 0 solutions = has_dominator solutions sol.
Proof.
  intro Hi. apply eq_true_iff_eq.
  rewrite is_dominated_loop_iff, (has_dominator_other _ _ _ Hi). split.
  - intros (k & other & H1 & H2 & H3). exists k, other. auto.
  - intros (j & other & H1 & H2 & H3). exists j, other. auto.
Qed.

(** The outer loop appends to its accumulators the two halves of a
    filter of the rows it still has to visit. *)
Lemma partition_loop_filter (solutions : list solution) :
  forall todo i acc,
    (forall k sol, nth_error todo k = Some sol ->
                   nth_error solutions (i + k) = Some sol) ->
    non_dominated (partition_loop solutions i todo acc) =
      non_dominated acc
      ++ filter (fun sol => negb (has_dominator solutions sol)) todo
    /\ dominated (partition_loop solutions i todo acc) =
      dominated acc ++ filter (has_dominator solutions) todo.
Proof.
  induction todo as [|sol_a todo IH]; intros i acc Hidx; simpl.
  - rewrite !app_nil_r. split; reflexivity.
  - assert (Ha : nth_error solutions i = Some sol_a).
    { specialize (Hidx 0%nat sol_a eq_refl). rewrite Nat.add_0_r in Hidx. exact Hidx. }
    rewrite (is_dominated_loop_has_dominator _ _ _ Ha).
    assert (Hidx' : forall k sol, nth_error todo k = Some sol ->
                                  nth_error solutions (S i + k) = Some sol).
    { intros k sol Hk. specialize (Hidx (S k) sol Hk).
      rewrite Nat.add_succ_r in Hidx. exact Hidx. }
    destruct (IH (S i)
                 (if has_dominator solutions sol_a
                  then mkAcc (non_dominated acc) (dominated acc ++ [sol_a])
                             (dominated_indices acc ++ [i])
                  else mkAcc (non_dominated acc ++ [sol_a]) (dominated acc)
                             (dominated_indices acc))
                 Hidx') as [IH1 IH2].
    rewrite IH1, IH2.
    destruct (has_dominator solutions sol_a); simpl;
      rewrite <- ?app_assoc; split; reflexivity.
Qed.

Lemma get_non_dominated_solutions_filter (solutions : list solution) :
  get_non_dominated_solutions solutions =
  (filter (fun sol => negb (has_dominator solutions sol)) solutions,
   filter (has_dominator solutions) solutions).
Proof.
  unfold get_non_dominated_solutions.
  destruct (partition_loop_filter solutions solutions 0 (mkAcc [] [] []))
    as [H1 H2]; [intros k sol H; exact H|].
  rewrite H1, H2. reflexivity.
Qed.

Lemma filter_split_permutation {A : Type} (f : A -> bool) (l : list A) :
  Permutation (filter (fun x => negb (f x)) l ++ filter f l) l.
Proof.
  induction l as [|x l IH]; simpl; [constructor|].
  destruct (f x); simpl.
  - apply Permutation_sym, Permutation_cons_app, Permutation_sym, IH.
  - constructor. exact IH.
Qed.

Lemma filter_length_lt {A : Type} (f g : A -> bool) (l : list A) (y : A) :
  (forall x, In x l -> f x = true -> g x = true) ->
  In y l -> f y = false -> g y = true ->
  (length (filter f l) < length (filter g l))%nat.
Proof.
  intros Hfg Hin Hf Hg.
  assert (Hle : forall l', (forall x, In x l' -> f x = true -> g x = true) ->
                           (length (filter f l') <= length (filter g l'))%nat).
  { induction l' as [|x l' IH]; intro H; simpl; [lia|].
    assert (IH' := IH (fun x' Hx => H x' (or_intror Hx))).
    destruct (f x) eqn:Ef.
    - rewrite (H x (or_introl eq_refl) Ef). simpl. lia.
    - destruct (g x); simpl; lia. }
  induction l as [|x l IH]; [destruct Hin|].
  simpl. destruct Hin as [-> | Hin].
  - rewrite Hf, Hg. simpl.
    assert (H := Hle l (fun x' Hx => Hfg x' (or_intror Hx))). lia.
  - assert (IH' := IH (fun x' Hx => Hfg x' (or_intror Hx)) Hin).
    destruct (f x) eqn:Ef.
    + rewrite (Hfg x (or_introl eq_refl) Ef). simpl. lia.
    + destruct (g x); simpl; lia.
Qed.

(** Every row that has a dominator has one that has none itself: climb
    from dominator to dominator; each step leaves strictly fewer rows
    that dominate the current one. *)
Lemma undominated_dominator (solutions : list solution) :
  forall fuel sol,
    (length (filter (fun other => dominates other sol) solutions) <= fuel)%nat ->
    has_dominator solutions sol = true ->
    exists top, In top solutions /\ has_dominator solutions top = false
                /\ dominates top sol = true.
Proof.
  induction fuel as [|fuel IH]; intros sol Hlen Hdom.
  - apply has_dominator_iff in Hdom. destruct Hdom as (other & Hin & Hd).
    assert (Hf : In other (filter (fun o => dominates o sol) solutions))
      by (apply filter_In; auto).
    destruct (filter (fun o => dominates o sol) solutions);
      [destruct Hf | simpl in Hlen; lia].
  - assert (Hdom' := Hdom).
    apply has_dominator_iff in Hdom'. destruct Hdom' as (other & Hin & Hd).
    destruct (has_dominator solutions other) eqn:Eo.
    + destruct (IH other) as (top & Ht1 & Ht2 & Ht3); [|exact Eo|].
      * assert (Hlt := filter_length_lt
                         (fun o => dominates o other) (fun o => dominates o sol)
                         solutions other
                         (fun x _ Hx => dominates_trans x other sol Hx Hd)
                         Hin (dominates_irrefl other) Hd).
        lia.
      * exists top. repeat split; [exact Ht1 | exact Ht2 |].
        exact (dominates_trans _ _ _ Ht3 Hd).
    + exists other. auto.
Qed.

(** C9. The dominance relation of the extractor ([f1] minimised, [f2]
    maximised) is irreflexive, [dominates(A, A)] is false for every
    solution [A], and asymmetric: whenever [dominates(A, B)] holds,
    [dominates(B, A)] does not. *)
Theorem dominates_irreflexive_asymmetric :
  (forall a : solution, dominates a a = false) /\
  (forall a b : solution, dominates a b = true -> dominates b a = false).
Proof.
  split; [exact dominates_irrefl | exact dominates_asym].
Qed.

(** C1. For every finite sequence of solutions the partition puts the
    row at index [i] into [dominated] exactly when a row at another index
    dominates it, and into [non_dominated] otherwise; both outputs keep
    the input order.  The two outputs together are the input as a
    multiset, and no solution is in both. *)
Theorem partition_correct (solutions : list solution) :
  let (non_dominated, dominated) := get_non_dominated_solutions solutions in
  (forall i sol, nth_error solutions i = Some sol ->
     (has_dominator solutions sol = true <->
      exists j other, j <> i /\ nth_error solutions j = Some other
                      /\ dominates other sol = true)) /\
  dominated = filter (has_dominator solutions) solutions /\
  non_dominated =
    filter (fun sol => negb (has_dominator solutions sol)) solutions /\
  (forall sol, In sol dominated <->
     exists i j other, nth_error solutions i = Some sol /\ j <> i /\
                       nth_error solutions j = Some other /\
                       dominates other sol = true) /\
  (forall sol, In sol non_dominated <->
     exists i, nth_error solutions i = Some sol /\
               forall j other, j <> i -> nth_error solutions j = Some other ->
                               dominates other sol = false) /\
  Permutation (non_dominated ++ dominated) solutions /\
  (forall sol, In sol non_dominated -> In sol dominated -> False).
Proof.
  rewrite get_non_dominated_solutions_filter.
  split; [exact (has_dominator_other solutions)|].
  split; [reflexivity|]. split; [reflexivity|].
  split; [|split; [|split]].
  - intro sol. rewrite filter_In. split.
    + intros [Hin Hd]. apply In_nth_error in Hin. destruct Hin as [i Hi].
      apply (has_dominator_other _ _ _ Hi) in Hd.
      destruct Hd as (j & other & H1 & H2 & H3). exists i, j, other. auto.
    + intros (i & j & other & Hi & H1 & H2 & H3). split.
      * eapply nth_error_In; exact Hi.
      * apply (has_dominator_other _ _ _ Hi). exists j, other. auto.
  - intro sol. rewrite filter_In, negb_true_iff. split.
    + intros [Hin Hd]. apply In_nth_error in Hin. destruct Hin as [i Hi].
      exists i. split; [exact Hi|]. intros j other Hj Ho.
      destruct (dominates other sol) eqn:E; [|reflexivity].
      assert (H : has_dominator solutions sol = true)
        by (apply (has_dominator_other _ _ _ Hi); exists j, other; auto).
      congruence.
    + intros (i & Hi & H). split; [eapply nth_error_In; exact Hi|].
      destruct (has_dominator solutions sol) eqn:E; [|reflexivity].
      apply (has_dominator_other _ _ _ Hi) in E.
      destruct E as (j & other & H1 & H2 & H3).
      rewrite (H j other H1 H2) in H3. discriminate.
  - apply filter_split_permutation.
  - intros sol H1 H2. apply filter_In in H1. apply filter_In in H2.
    destruct H1 as [_ H1]. destruct H2 as [_ H2].
    rewrite H2 in H1. discriminate.
Qed.

(** C4. For every input, every member of the [dominated] output is
    dominated by at least one member of the [non_dominated] output. *)
Theorem dominated_closure (solutions : list solution) :
  forall sol, In sol (snd (get_non_dominated_solutions solutions)) ->
    exists top, In top (fst (get_non_dominated_solutions solutions))
                /\ dominates top sol = true.
Proof.
  rewrite get_non_dominated_solutions_filter. cbn [fst snd].
  intros sol Hin. apply filter_In in Hin. destruct Hin as [_ Hd].
  destruct (undominated_dominator solutions _ sol (le_n _) Hd)
    as (top & H1 & H2 & H3).
  exists top. split; [|exact H3].
  apply filter_In. split; [exact H1|]. rewrite H2. reflexivity.
Qed.

(** Duplicates: [(3,5)] is dominated, the two copies of [(2,9)] are
    not, and [(1,5)] and [(2,9)] do not dominate each other. *)
Example partition_example :
  get_non_dominated_solutions
    [(Some 1, Some 5); (Some 2, Some 9); (Some 3, Some 5); (Some 2, Some 9)]
  = ([(Some 1, Some 5); (Some 2, Some 9); (Some 2, Some 9)],
     [(Some 3, Some 5)]).
Proof. reflexivity. Qed.

(** An instance of C4 on that example. *)
Lemma dominated_closure_witness :
  In (Some 3, Some 5)
     (snd (get_non_dominated_solutions
             [(Some 1, Some 5); (Some 2, Some 9); (Some 3, Some 5);
              (Some 2, Some 9)])) /\
  exists top,
    In top (fst (get_non_dominated_solutions
                   [(Some 1, Some 5); (Some 2, Some 9); (Some 3, Some 5);
                    (Some 2, Some 9)]))
    /\ dominates top (Some 3, Some 5) = true.
Proof.
  assert (H : In (Some 3, Some 5)
     (snd (get_non_dominated_solutions
             [(Some 1, Some 5); (Some 2, Some 9); (Some 3, Some 5);
              (Some 2, Some 9)]))) by (simpl; left; reflexivity).
  split; [exact H|].
  exact (dominated_closure _ _ H).
Defined.

End ParetoFacts.

(** ** Dictionaries *)

Lemma dict_get_set_same {V : Type} (d : list (string * V)) (k : string) (v : V) :
  dict_get (dict_set d k v) k = Some v.
Proof.
  induction d as [|[k' v'] d IH]; simpl.
  - rewrite String.eqb_refl. reflexivity.
  - destruct (String.eqb k' k) eqn:E; simpl.
    + rewrite String.eqb_refl. reflexivity.
    + rewrite E. exact IH.
Qed.

Lemma dict_get_set_other {V : Type} (d : list (string * V)) (k k' : string) (v : V) :
  k <> k' -> dict_get (dict_set d k v) k' = dict_get d k'.
Proof.
  intro Hne. induction d as [|[k0 v0] d IH]; simpl.
  - destruct (String.eqb k k') eqn:E; [|reflexivity].
    apply String.eqb_eq in E. contradiction.
  - destruct (String.eqb k0 k) eqn:E; simpl.
    + apply String.eqb_eq in E. subst k0.
      destruct (String.eqb k k') eqn:E'; [|reflexivity].
      apply String.eqb_eq in E'. contradiction.
    + destruct (String.eqb k0 k'); [reflexivity | exact IH].
Qed.

(** ** The filter on empty groups *)

Lemma valid_pairs_names_incl {A : Type} (names : list string) :
  forall (groups : list (list A)) name,
    In name (map snd (valid_pairs groups names)) -> In name names.
Proof.
  unfold valid_pairs.
  induction names as [|n names IH]; intros groups name H.
  - destruct groups; simpl in H; destruct H.
  - destruct groups as [|g groups]; [destruct H|].
    simpl in H. destruct (Nat.ltb 0 (length g)); simpl in H.
    + destruct H as [H | H]; [left; exact H | right; exact (IH _ _ H)].
    + right. exact (IH _ _ H).
Qed.

Lemma valid_pairs_names_NoDup {A : Type} (names : list string) :
  forall (groups : list (list A)),
    NoDup names -> NoDup (map snd (valid_pairs groups names)).
Proof.
  induction names as [|n names IH]; intros groups Hnd.
  - destruct groups; constructor.
  - destruct groups as [|g groups]; [constructor|].
    inversion Hnd as [|? ? Hn Hnd']; subst.
    unfold valid_pairs. simpl. destruct (Nat.ltb 0 (length g)); simpl.
    + constructor; [|exact (IH groups Hnd')].
      intro H. apply Hn. exact (valid_pairs_names_incl _ _ _ H).
    + exact (IH groups Hnd').
Qed.

Lemma valid_pairs_In {A : Type} (groups : list (list A)) (names : list string)
      (group : list A) (name : string) :
  In (group, name) (combine groups names) -> group <> [] ->
  In (group, name) (valid_pairs groups names).
Proof.
  intros Hin Hne. apply filter_In. split; [exact Hin|].
  destruct group; [contradiction | reflexivity].
Qed.

(** The valid group of a name that is used once: it splits the valid
    pairs, and the name does not come back after it. *)
Lemma valid_pairs_split {A : Type} (groups : list (list A)) (names : list string)
      (group : list A) (name : string) :
  NoDup names -> In (group, name) (combine groups names) -> group <> [] ->
  exists before after,
    valid_pairs groups names = before ++ (group, name) :: after
    /\ ~ In name (map snd after).
Proof.
  intros Hnd Hin Hne.
  destruct (in_split _ _ (valid_pairs_In _ _ _ _ Hin Hne)) as (before & after & E).
  exists before, after. split; [exact E|].
  assert (H := valid_pairs_names_NoDup names groups Hnd).
  rewrite E, map_app in H. simpl in H.
  apply NoDup_remove_2 in H. intro Hin'. apply H, in_or_app. right. exact Hin'.
Qed.

(** ** Descriptive statistics of two equal values *)

Module NumpyFacts.
Import Binary64 Binary64Facts Numpy.






End NumpyFacts.

(** ** The two normality tests *)

Module NormalityFacts.
Import Numpy NumpyFacts Runs.

(** The loop of the tail-sensitive test leaves alone the results of the
    names it does not meet. *)
Lemma test_loop_other (sqrt : Q -> Q)
      (anderson : list float -> outcome AD.anderson_result)
      (alpha : float) (name : string) :
  forall pairs state,
    ~ In name (map snd pairs) ->
    dict_get (fst (AD.test_loop sqrt anderson alpha pairs state)) name
    = dict_get (fst state) name.
Proof.
  unfold AD.test_loop.
  induction pairs as [|[g n] pairs IH]; intros state Hnot; simpl; [reflexivity|].
  rewrite IH; [|intro H; apply Hnot; right; exact H]. simpl.
  apply dict_get_set_other. intro E. apply Hnot. left. exact E.
Qed.

(** What the loop stores under a name is the result of the last valid
    group of that name. *)
Lemma test_loop_last (sqrt : Q -> Q)
      (anderson : list float -> outcome AD.anderson_result)
      (alpha : float) (group : list float) (name : string)
      (before after : list (list float * string)) state :
  ~ In name (map snd after) ->
  dict_get
    (fst (AD.test_loop sqrt anderson alpha (before ++ (group, name) :: after) state))
    name
  = Some (AD.classify_group sqrt anderson group alpha).
Proof.
  intro Hnot. unfold AD.test_loop. rewrite fold_left_app. simpl.
  fold (AD.test_loop sqrt anderson alpha before state).
  set (st := AD.test_loop sqrt anderson alpha before state).
  change (dict_get
            (fst (AD.test_loop sqrt anderson alpha after
                    (dict_set (fst st) name
                       (AD.classify_group sqrt anderson group alpha),
                     snd st && AD.normal (AD.classify_group sqrt anderson group alpha))))
            name
          = Some (AD.classify_group sqrt anderson group alpha)).
  rewrite test_loop_other by exact Hnot. simpl.
  apply dict_get_set_same.
Qed.

(** The report of the tail-sensitive test holds, for a non-empty group
    whose name is used once, the result of the loop body on that group. *)
Lemma report_of_group (sqrt : Q -> Q)
      (anderson : list float -> outcome AD.anderson_result)
      (groups : list (list float)) (group_names : list string)
      (metric_name : string) (alpha : float)
      (group : list float) (name : string) :
  NoDup group_names -> In (group, name) (combine groups group_names) ->
  group <> [] ->
  dict_get
    (AD.test_results_of
       (AD.perform_anderson_darling_test sqrt anderson groups group_names
                                         metric_name alpha))
    name
  = Some (AD.classify_group sqrt anderson group alpha).
Proof.
  intros Hnd Hin Hne.
  destruct (valid_pairs_split groups group_names group name Hnd Hin Hne)
    as (before & after & E & Hnot).
  unfold AD.perform_anderson_darling_test. rewrite E.
  destruct (Nat.eqb (length (before ++ (group, name) :: after)) 0) eqn:El.
  - apply Nat.eqb_eq in El. rewrite length_app in El. simpl in El. lia.
  - simpl. apply test_loop_last. exact Hnot.
Qed.

(** C6. A sample below the minimum size of a test gets no test: the
    ECDF-based classifier on [n < 3] values and the tail-sensitive
    classifier on a group of [n < 8] values return [normal = False], a
    non-empty note and [nan] as statistic and p-value, whatever the
    library routine would have answered. *)
Theorem small_sample_fails_soft
        (sqrt : Q -> Q)
        (kstest : list float -> outcome (float * float))
        (anderson : list float -> outcome AD.anderson_result)
        (alpha : float) :
  (forall data, (length data < 3)%nat ->
     let r := KS.perform_kolmogorov_smirnov_test sqrt kstest data alpha in
     KS.normal r = false /\
     (exists msg, KS.note r = Some msg /\ msg <> EmptyString) /\
     KS.statistic r = nan /\ KS.p_value r = nan /\
     forall kstest',
       KS.perform_kolmogorov_smirnov_test sqrt kstest' data alpha = r) /\
  (forall group, (length group < 8)%nat ->
     let r := AD.classify_group sqrt anderson group alpha in
     AD.normal r = false /\
     (exists msg, AD.note r = Some msg /\ msg <> EmptyString) /\
     AD.statistic r = nan /\ AD.p_value r = nan /\
     forall anderson', AD.classify_group sqrt anderson' group alpha = r) /\
  (forall groups group_names metric_name group name,
     NoDup group_names -> In (group, name) (combine groups group_names) ->
     group <> [] -> (length group < 8)%nat ->
     exists r,
       dict_get
         (AD.test_results_of
            (AD.perform_anderson_darling_test sqrt anderson groups group_names
                                              metric_name alpha))
         name = Some r /\
       AD.normal r = false /\
       exists msg, AD.note r = Some msg /\ msg <> EmptyString).
Proof.
  assert (Hks : forall kt data, (length data < 3)%nat ->
            KS.perform_kolmogorov_smirnov_test sqrt kt data alpha =
            KS.mkResult nan nan false (Numpy.mean data)
              (Numpy.std_ddof1 sqrt data) (length data)
              (Some ("Tamaño de muestra insuficiente (n="
                     ++ str_of_nat (length data)
                     ++ " < 3). Se requieren al menos 3 observaciones."))%string
              None).
  { intros kt data H. unfold KS.perform_kolmogorov_smirnov_test.
    apply Nat.ltb_lt in H. rewrite H. reflexivity. }
  assert (Had : forall an group, (length group < 8)%nat ->
            AD.classify_group sqrt an group alpha =
            AD.mkGroup nan nan None nan false (Numpy.mean group)
              (Numpy.std_ddof1 sqrt group) (length group)
              (Some ("Tamaño de muestra insuficiente (n="
                     ++ str_of_nat (length group)
                     ++ " < 8). Se requieren al menos 8 observaciones."))%string).
  { intros an group H. unfold AD.classify_group.
    apply Nat.ltb_lt in H. rewrite H. reflexivity. }
  split; [|split].
  - intros data H r. subst r. rewrite (Hks kstest data H). cbn.
    repeat split.
    + eexists. split; [reflexivity | discriminate].
    + intro kstest'. exact (Hks kstest' data H).
  - intros group H r. subst r. rewrite (Had anderson group H). cbn.
    repeat split.
    + eexists. split; [reflexivity | discriminate].
    + intro anderson'. exact (Had anderson' group H).
  - intros groups group_names metric_name group name Hnd Hin Hne H.
    exists (AD.classify_group sqrt anderson group alpha).
    split; [apply report_of_group; assumption|].
    rewrite (Had anderson group H). cbn.
    split; [reflexivity|]. eexists. split; [reflexivity | discriminate].
Qed.

(** A run of C6: two values, and a [kstest] that would have answered
    "normal". *)
Lemma small_sample_witness :
  Nat.lt (length [Some 1; Some 2]) 3 /\
  KS.normal
    (KS.perform_kolmogorov_smirnov_test Binary64.sqrt
       (fun _ => Returned (Some 0, Some 1)) [Some 1; Some 2] (double 0.05))
  = false.
Proof.
  assert (H : Nat.lt (length [Some 1; Some 2]) 3) by (cbn [length]; lia).
  split; [exact H|].
  exact (proj1 (proj1 (small_sample_fails_soft Binary64.sqrt
                         (fun _ => Returned (Some 0, Some 1))
                         (fun _ => Raised EmptyString) (double 0.05))
                      [Some 1; Some 2] H)).
Defined.

(** A sample whose standard deviation numpy computes as exactly zero is
    never classified as normal: both classifiers return [normal = False]
    and a non-empty note.  (Below two values numpy's standard deviation
    is [nan], and the size test has answered first.) *)
Lemma zero_std_never_normal
      (sqrt : Q -> Q)
      (kstest : list float -> outcome (float * float))
      (anderson : list float -> outcome AD.anderson_result)
      (alpha : float) :
  (forall data, feq (std_ddof1 sqrt data) (Some 0) = true ->
     let r := KS.perform_kolmogorov_smirnov_test sqrt kstest data alpha in
     KS.normal r = false /\
     exists msg, KS.note r = Some msg /\ msg <> EmptyString) /\
  (forall group, feq (std_ddof1 sqrt group) (Some 0) = true ->
     let r := AD.classify_group sqrt anderson group alpha in
     AD.normal r = false /\
     exists msg, AD.note r = Some msg /\ msg <> EmptyString).
Proof.
  split.
  - intros data Hz r. subst r. unfold KS.perform_kolmogorov_smirnov_test.
    destruct (Nat.ltb (length data) 3); cbn.
    + split; [reflexivity|]. eexists. split; [reflexivity | discriminate].
    + rewrite Hz. cbn.
      split; [reflexivity|]. eexists. split; [reflexivity | discriminate].
  - intros group Hz r. subst r. unfold AD.classify_group.
    destruct (Nat.ltb (length group) 8); cbn.
    + split; [reflexivity|]. eexists. split; [reflexivity | discriminate].
    + rewrite Hz. cbn.
      split; [reflexivity|]. eexists. split; [reflexivity | discriminate].
Qed.

(** C5, on the code.  Three values 0.1 are all identical, but numpy's
    mean of them is 0.10000000000000002 and their standard deviation
    1.6996749443881478e-17, not zero.  The test [std == 0], commented
    "todos los valores son iguales", fails; the sample is standardized
    and handed to [stats.kstest], and at the significance level 0.01 the
    result is [normal = True], without a note. *)
Theorem identical_values_pass_as_normal :
  all_identical three_tenths /\
  feq (std_ddof1 Binary64.sqrt three_tenths) (Some 0) = false /\
  map (fun x => fdiv (fsub x (mean three_tenths))
                     (std_ddof1 Binary64.sqrt three_tenths)) three_tenths
  = three_tenths_standardized /\
  KS.perform_kolmogorov_smirnov_test Binary64.sqrt kstest_on_samples
                                     three_tenths (double 0.01)
  = KS.mkResult (double 0.7928919108787374) (double 0.017767289577674143)
                true
                (double 0.10000000000000002) (double 1.6996749443881478e-17)
                3 None (Some (double 0.01)).
Proof.
  split; [|split; [|split]].
  - exists (Binary64.round 0.1). intros x Hx.
    apply repeat_spec in Hx. exact Hx.
  - vm_compute. reflexivity.
  - vm_compute. reflexivity.
  - vm_compute. reflexivity.
Qed.

(** The same on the tail-sensitive test: ten values 0.3 have the
    standard deviation 5.851389114294502e-17, the group is handed to
    [stats.anderson], and its result has no note. *)
Example identical_values_reach_anderson :
  all_identical ten_equal_values /\
  std_ddof1 Binary64.sqrt ten_equal_values = double 5.851389114294502e-17 /\
  AD.note (AD.classify_group Binary64.sqrt anderson_on_samples
                             ten_equal_values (double 0.05)) = None /\
  AD.normal (AD.classify_group Binary64.sqrt anderson_on_samples
                               ten_equal_values (double 0.05)) = false.
Proof.
  split; [|split; [|split]].
  - exists (Binary64.round 0.3). intros x Hx.
    apply repeat_spec in Hx. exact Hx.
  - vm_compute. reflexivity.
  - vm_compute. reflexivity.
  - vm_compute. reflexivity.
Qed.

(** *** The approximate p-value of the tail-sensitive test *)

(** On a table whose first critical value is not above its last one, as
    [stats.anderson] lists them (levels 15% down to 1%, critical values
    going up), the first two tests of the [if] chain leave nothing to the
    interpolation loop. *)
Lemma approximate_p_value_ascending
      (critical_values significance_levels : list float) (s first last : Q) :
  index critical_values 0 = Returned (Some first) ->
  index_last critical_values = Returned (Some last) ->
  first <= last ->
  AD.approximate_p_value critical_values significance_levels (Some s)
  = Returned (Some (if Qle_bool s last then double 0.01 else double 0.15)).
Proof.
  intros Hfirst Hlast Hle. unfold AD.approximate_p_value.
  rewrite Hlast. cbn [bind]. change (fle (Some s) (Some last)) with (Qle_bool s last).
  destruct (Qle_bool s last) eqn:E; [reflexivity|].
  rewrite Hfirst. cbn [bind]. unfold fge.
  assert (H : fle (Some first) (Some s) = true).
  { apply fle_some. apply (fle_some_false s last) in E.
    apply Qlt_le_weak. eapply Qle_lt_trans; eassumption. }
  rewrite H. reflexivity.
Qed.

(** C2, on the code.  On the eight values 1, 1, 1, 2, 2, 3, 5, 9
    [stats.anderson] answers the statistic 0.7896 and the critical values
    0.519, 0.591, 0.709, 0.827, 0.984 for the levels 15% to 1%.  The
    statistic lies strictly between the critical values of the levels 5%
    and 2.5%, and the reported p-value is 0.01, below both levels, not an
    interpolation between them: [statistic <= critical_values[-1]]
    compares with the largest critical value, so that every statistic
    below it takes the first branch. *)
Theorem p_value_between_levels_is_clamped :
  anderson_on_samples skewed_values
  = Returned
      (AD.mkAnderson (double 0.7896)
         [double 0.519; double 0.591; double 0.709; double 0.827; double 0.984]
         [Some 15; Some 10; Some 5; Some 2.5; Some 1]) /\
  flt (double 0.709) (double 0.7896) = true /\
  flt (double 0.7896) (double 0.827) = true /\
  AD.classify_group Binary64.sqrt anderson_on_samples skewed_values (double 0.05)
  = AD.mkGroup (double 0.7896) (double 0.709) (Some (double 0.05))
               (double 0.01) false
               (Some 3) (double 2.7774602993176543) 8 None /\
  flt (double 0.01) (double 0.025) = true.
Proof.
  split; [|split; [|split; [|split]]]; vm_compute; reflexivity.
Qed.

(** The two ends of the table, as the script answers them: 0.01 for the
    statistic 0.134 of the values 1 to 8, below every critical value,
    and 0.15 for the statistic 2.4025 of a sample with an outlier, above
    every critical value. *)
Example p_value_outside_table :
  AD.p_value
    (AD.classify_group Binary64.sqrt anderson_on_samples eight_values
                       (double 0.05)) = double 0.01 /\
  AD.p_value
    (AD.classify_group Binary64.sqrt anderson_on_samples outlier_values
                       (double 0.05)) = double 0.15.
Proof. split; vm_compute; reflexivity. Qed.

(** The interpolation loop itself is sound: on a table listed the other
    way round (critical values going down) it is reached and interpolates
    between the levels 10% and 5%. *)
Example interpolation_on_descending_table :
  AD.approximate_p_value
    [double 1.092; double 0.918; double 0.787; double 0.656; double 0.576]
    [Some 1; Some 2.5; Some 5; Some 10; Some 15]
    (double 0.7)
  = Returned (Some (double 0.08320610687022904)).
Proof. vm_compute. reflexivity. Qed.

End NormalityFacts.

(** ** The two omnibus tests *)

Module OmnibusFacts.
Import KruskalWallis.

(** The valid groups of the rank-based test are the non-empty values of
    the dictionary. *)
Lemma combine_fst_snd {A B : Type} (l : list (A * B)) :
  combine (map fst l) (map snd l) = l.
Proof.
  induction l as [|[a b] l IH]; simpl; [reflexivity | rewrite IH; reflexivity].
Qed.

(** C8. Every omnibus result that was computed has
    [significant == (p_value < alpha)]: the rank-based test with the
    [alpha] it was given, the parametric test with its fixed 0.05.  (The
    results of the rank-based test that report a failure satisfy it too:
    their p-value is [nan] and they are not significant.) *)
Theorem significant_iff_p_below_alpha
        (sqrt : Q -> Q) (median : list float -> float)
        (percentile : list float -> Q -> float)
        (kruskal f_oneway : list (list float) -> outcome (float * float)) :
  (forall groups_data factor_name alpha,
     let r := KruskalWallis.perform_kruskal_wallis_test
                sqrt median percentile kruskal groups_data factor_name alpha in
     KruskalWallis.significant r = flt (KruskalWallis.p_value r) alpha /\
     (KruskalWallis.note r = None ->
      KruskalWallis.alpha r = Some alpha /\
      exists statistic,
        kruskal (map snd (filter (fun nd => Nat.ltb 0 (length (snd nd)))
                                 groups_data))
        = Returned (statistic, KruskalWallis.p_value r))) /\
  (forall groups group_names metric_name r,
     Anova.perform_one_way_anova sqrt median f_oneway groups group_names
                                 metric_name = Returned r ->
     Anova.error r = None ->
     exists f p,
       f_oneway (map fst (valid_pairs groups group_names)) = Returned (f, p) /\
       Anova.p_value r = Some p /\
       Anova.alpha r = Some (double 0.05) /\
       Anova.significant r = Some (flt p (double 0.05))).
Proof.
  split.
  - intros groups_data factor_name alpha r. subst r.
    unfold KruskalWallis.perform_kruskal_wallis_test.
    rewrite combine_fst_snd.
    destruct (Nat.ltb _ 2); cbn; [split; [reflexivity | discriminate]|].
    destruct (kruskal _) as [[statistic p]|e]; cbn.
    + split; [reflexivity|]. intros _. split; [reflexivity|].
      exists statistic. reflexivity.
    + split; [reflexivity | discriminate].
  - intros groups group_names metric_name r.
    unfold Anova.perform_one_way_anova.
    destruct (Nat.ltb _ 2).
    + intros H. inversion H; subst; cbn. discriminate.
    + destruct (f_oneway _) as [[f p]|e]; cbn; [|discriminate].
      intros H _. inversion H; subst; cbn.
      exists f, p. repeat split; reflexivity.
Qed.

(** A run of C8 on two groups, with library answers that make the
    rank-based test significant and the parametric one not. *)
Lemma significant_iff_p_below_alpha_witness :
  KruskalWallis.significant
    (KruskalWallis.perform_kruskal_wallis_test
       Binary64.sqrt (fun _ => nan) (fun _ _ => nan)
       (fun _ => Returned (Some 11, double 0.001))
       [("A"%string, [Some 1; Some 2]); ("B"%string, [Some 10; Some 11])]
       "population" (double 0.05))
  = true.
Proof.
  exact (proj1
           (proj1 (significant_iff_p_below_alpha
                     Binary64.sqrt (fun _ => nan) (fun _ _ => nan)
                     (fun _ => Returned (Some 11, double 0.001))
                     (fun _ => Returned (Some 1, Some 0.5)))
                  [("A"%string, [Some 1; Some 2]);
                   ("B"%string, [Some 10; Some 11])]
                  "population"%string (double 0.05))).
Defined.

(** C7, as stated, on the parametric test: with one non-empty group the
    dictionary returned has the keys [error] and [metric] only, so that
    it has no [significant] entry to be false. *)
Lemma anova_error_has_no_significant :
  exists r,
    Anova.perform_one_way_anova
      Binary64.sqrt (fun _ => nan) (fun _ => Returned (Some 1, Some 0.5))
      [[Some 1; Some 2; Some 3]; []] ["A"%string; "B"%string] "hypervolume"
    = Returned r /\
    Anova.error r =
      Some ("Se necesitan al menos 2 grupos para ANOVA. "
            ++ "Solo se encontraron 1 grupos válidos.")%string /\
    Anova.significant r = None /\
    Anova.significant r <> Some false.
Proof.
  eexists. split; [reflexivity|]. cbn.
  split; [reflexivity|]. split; [reflexivity | discriminate].
Qed.

(** C7, amended.  With fewer than two non-empty groups neither omnibus
    test is run and neither raises.  The rank-based test returns a result
    with [significant = False], a non-empty note and [nan] as statistic
    and p-value.  The parametric test returns the dictionary of an error
    message and the metric name, with no other key. *)
Theorem too_few_groups_reported
        (sqrt : Q -> Q) (median : list float -> float)
        (percentile : list float -> Q -> float)
        (kruskal f_oneway : list (list float) -> outcome (float * float)) :
  (forall groups_data factor_name alpha,
     (nonempty_groups groups_data < 2)%nat ->
     let r := KruskalWallis.perform_kruskal_wallis_test
                sqrt median percentile kruskal groups_data factor_name alpha in
     KruskalWallis.significant r = false /\
     (exists msg, KruskalWallis.note r = Some msg /\ msg <> EmptyString) /\
     KruskalWallis.statistic r = nan /\ KruskalWallis.p_value r = nan /\
     KruskalWallis.factor r = factor_name /\
     KruskalWallis.groups r = nonempty_groups groups_data /\
     forall kruskal',
       KruskalWallis.perform_kruskal_wallis_test
         sqrt median percentile kruskal' groups_data factor_name alpha = r) /\
  (forall groups group_names metric_name,
     (length (valid_pairs groups group_names) < 2)%nat ->
     exists msg,
       msg <> EmptyString /\
       forall f_oneway',
         Anova.perform_one_way_anova sqrt median f_oneway' groups group_names
                                     metric_name
         = Returned (Anova.mkResult (Some msg) metric_name
                                    None None None None None None)).
Proof.
  split.
  - intros groups_data factor_name alpha Hlt r.
    assert (E : forall k,
      KruskalWallis.perform_kruskal_wallis_test
        sqrt median percentile k groups_data factor_name alpha
      = KruskalWallis.mkResult factor_name nan nan false
          (nonempty_groups groups_data) None None None
          (Some "Se requieren al menos 2 grupos para realizar el test"%string)).
    { intro k. unfold KruskalWallis.perform_kruskal_wallis_test.
      rewrite combine_fst_snd. rewrite !length_map.
      unfold nonempty_groups in Hlt. apply Nat.ltb_lt in Hlt. rewrite Hlt.
      reflexivity. }
    subst r. rewrite (E kruskal). cbn. repeat split.
    + eexists. split; [reflexivity | discriminate].
    + intro kruskal'. exact (E kruskal').
  - intros groups group_names metric_name Hlt.
    eexists. split; [|intro f_oneway'].
    2:{ unfold Anova.perform_one_way_anova. rewrite !length_map.
        apply Nat.ltb_lt in Hlt. rewrite Hlt. reflexivity. }
    simpl. discriminate.
Qed.

(** A run of the amended C7: one group for the rank-based test. *)
Lemma too_few_groups_witness :
  Nat.lt (nonempty_groups [("A"%string, [Some 1; Some 2]); ("B"%string, [])]) 2 /\
  KruskalWallis.significant
    (KruskalWallis.perform_kruskal_wallis_test
       Binary64.sqrt (fun _ => nan) (fun _ _ => nan)
       (fun _ => Returned (Some 11, double 0.001))
       [("A"%string, [Some 1; Some 2]); ("B"%string, [])]
       "population" (double 0.05))
  = false.
Proof.
  assert (H : Nat.lt (nonempty_groups
                        [("A"%string, [Some 1; Some 2]); ("B"%string, [])]) 2)
    by (vm_compute; lia).
  split; [exact H|].
  exact (proj1
           (proj1 (too_few_groups_reported
                     Binary64.sqrt (fun _ => nan) (fun _ _ => nan)
                     (fun _ => Returned (Some 11, double 0.001))
                     (fun _ => Returned (Some 1, Some 0.5)))
                  [("A"%string, [Some 1; Some 2]); ("B"%string, [])]
                  "population"%string (double 0.05) H)).
Defined.

End OmnibusFacts.

(** ** Pairs of groups *)

Module PairFacts.

Lemma combinations2_length_twice {A : Type} (l : list A) :
  (2 * length (combinations2 l) = length l * (length l - 1))%nat.
Proof.
  induction l as [|x l IH]; [reflexivity|].
  cbn [combinations2 length]. rewrite length_app, length_map.
  destruct l as [|y l]; [reflexivity|].
  cbn [length] in *. nia.
Qed.

(** [combinations(l, 2)] has [k*(k-1)/2] pairs for [k] elements. *)
Lemma combinations2_length {A : Type} (l : list A) :
  length (combinations2 l) = (length l * (length l - 1) / 2)%nat.
Proof.
  rewrite <- combinations2_length_twice, Nat.mul_comm.
  symmetry. apply Nat.div_mul. discriminate.
Qed.

Lemma combinations2_In {A : Type} (l : list A) (a b : A) :
  In (a, b) (combinations2 l) -> In a l /\ In b l.
Proof.
  induction l as [|x l IH]; [intros []|].
  cbn [combinations2]. intro H. apply in_app_or in H. destruct H as [H | H].
  - apply in_map_iff in H. destruct H as (y & E & Hy). inversion E; subst.
    split; [left; reflexivity | right; exact Hy].
  - destruct (IH H) as [Ha Hb]. split; right; assumption.
Qed.

Lemma flat_map_ext_in {A B : Type} (f g : A -> list B) (l : list A) :
  (forall a, In a l -> f a = g a) -> flat_map f l = flat_map g l.
Proof.
  induction l as [|x l IH]; intro H; simpl; [reflexivity|].
  rewrite (H x (or_introl eq_refl)), IH; [reflexivity|].
  intros a Ha. apply H. right. exact Ha.
Qed.

(** On a list whose indices go up, they are the combinations. *)
Lemma ordered_pairs_combinations {A : Type} (l : list (nat * A)) :
  StronglySorted (fun a b => (fst a < fst b)%nat) l ->
  ordered_pairs l = combinations2 l.
Proof.
  unfold ordered_pairs.
  induction l as [|a l IH]; intro Hs; [reflexivity|].
  inversion Hs as [|? ? Hs' Hall]; subst.
  cbn [flat_map combinations2]. rewrite Nat.ltb_irrefl. cbn [app].
  f_equal.
  - rewrite Forall_forall in Hall. clear IH Hs Hs'.
    induction l as [|b l IHl]; [reflexivity|]. cbn [flat_map map].
    assert (Hb := Hall b (or_introl eq_refl)). apply Nat.ltb_lt in Hb.
    rewrite Hb. cbn [app]. f_equal. apply IHl.
    intros x Hx. apply Hall. right. exact Hx.
  - rewrite <- (IH Hs'). apply flat_map_ext_in.
    intros b Hb. rewrite Forall_forall in Hall.
    assert (H := Hall b Hb).
    assert (E : Nat.ltb (fst b) (fst a) = false) by (apply Nat.ltb_ge; lia).
    rewrite E. reflexivity.
Qed.

Lemma combine_seq_sorted {A : Type} (l : list A) :
  forall s, StronglySorted (fun a b : nat * A => (fst a < fst b)%nat)
                           (combine (seq s (length l)) l).
Proof.
  induction l as [|x l IH]; intro s; cbn [length seq combine]; constructor.
  - apply IH.
  - apply Forall_forall. intros [i y] Hin. cbn [fst].
    apply in_combine_l in Hin. apply in_seq in Hin. lia.
Qed.

Lemma enumerate_length {A : Type} (l : list A) :
  length (enumerate l) = length l.
Proof.
  unfold enumerate. rewrite length_combine, length_seq. apply Nat.min_id.
Qed.

(** The nested [enumerate] loops of the parametric post-hoc visit the
    combinations of the enumerated names. *)
Lemma index_pairs_combinations (valid_names : list string) :
  Anova.index_pairs valid_names = combinations2 (enumerate valid_names).
Proof.
  apply (ordered_pairs_combinations (enumerate valid_names)).
  apply combine_seq_sorted.
Qed.

Lemma index_pairs_length (valid_names : list string) :
  length (Anova.index_pairs valid_names)
  = (length valid_names * (length valid_names - 1) / 2)%nat.
Proof.
  rewrite index_pairs_combinations, combinations2_length, enumerate_length.
  reflexivity.
Qed.

Lemma for_each_returned {A B : Type} (f : A -> outcome B) (l : list A) :
  forall rs, for_each f l = Returned rs ->
    length rs = length l /\
    forall r, In r rs -> exists a, In a l /\ f a = Returned r.
Proof.
  induction l as [|a l IH]; intros rs H; cbn [for_each] in H.
  - inversion H; subst. split; [reflexivity | intros r []].
  - destruct (f a) as [b|e] eqn:Ea; cbn [bind] in H; [|discriminate].
    destruct (for_each f l) as [bs|e] eqn:El; cbn [bind] in H; [|discriminate].
    inversion H; subst. destruct (IH bs eq_refl) as [Hlen Hin].
    split; [cbn [length]; rewrite Hlen; reflexivity|].
    intros r [<- | Hr].
    + exists a. split; [left; reflexivity | exact Ea].
    + destruct (Hin r Hr) as (a' & Ha' & E). exists a'. split; [right|]; assumption.
Qed.

Lemma for_each_total {A B : Type} (f : A -> outcome B) (l : list A) :
  (forall a, In a l -> exists b, f a = Returned b) ->
  exists rs, for_each f l = Returned rs.
Proof.
  induction l as [|a l IH]; intro H; cbn [for_each].
  - exists []. reflexivity.
  - destruct (H a (or_introl eq_refl)) as [b Eb]. rewrite Eb.
    destruct (IH (fun a' Ha' => H a' (or_intror Ha'))) as [bs Ebs]. rewrite Ebs.
    exists (b :: bs). reflexivity.
Qed.

End PairFacts.

(** ** The Bonferroni correction *)

Module BonferroniFacts.
Import Binary64 Binary64Facts.

Lemma round_one : round 1 = 1.
Proof. vm_compute. reflexivity. Qed.

(** A count of at least one is, as a double, at least one. *)
Lemma of_nat_positive (n : nat) :
  (1 <= n)%nat -> 1 <= round (inject_Z (Z.of_nat n)).
Proof.
  intro H. rewrite <- round_one at 1. apply round_mono; [discriminate|].
  change 1 with (inject_Z 1). rewrite <- Zle_Qle. lia.
Qed.

Lemma py_min_one (x : Q) :
  py_min (Some x) (Some 1) = Some (if Qle_bool x 1 then x else 1).
Proof.
  unfold py_min. cbn. destruct (Qle_bool x 1); reflexivity.
Qed.

(** [min(p * n, 1.0)] lies between [p] and 1 for a p-value [p] and
    [n >= 1] comparisons: the product is not below [p] before it is
    rounded, and rounding is monotone and keeps the double [p]. *)
Lemma corrected_bounds (p : Q) (n : nat) :
  representable p -> 0 <= p -> p <= 1 -> (1 <= n)%nat ->
  fle (Some p) (py_min (fmul (Some p) (of_nat n)) (Some 1)) = true /\
  fle (py_min (fmul (Some p) (of_nat n)) (Some 1)) (Some 1) = true.
Proof.
  intros R H0 H1 Hn. unfold of_nat. cbn [fmul lift2]. rewrite py_min_one.
  assert (HN := of_nat_positive n Hn).
  set (N := round (inject_Z (Z.of_nat n))) in *.
  assert (Hp : p <= round (p * N)).
  { unfold representable in R. rewrite <- R at 1.
    apply round_mono; [exact H0 | nra]. }
  destruct (Qle_bool (round (p * N)) 1) eqn:E; rewrite !fle_some.
  - split; [exact Hp | apply Qle_bool_iff; exact E].
  - split; [exact H1 | apply Qle_refl].
Qed.

End BonferroniFacts.

(** ** The post-hoc comparisons *)

Module PostHocFacts.
Import KruskalWallis PairFacts BonferroniFacts Runs.

Section Loop.
Variable mannwhitneyu : list float -> list float -> outcome (float * float).
Variable groups_data : list (string * list float).
Variable alpha : float.
Variable correction : option string.
Variable n_comparisons : nat.

(** A property of the two kinds of entries the loop appends is a
    property of every entry of its result. *)
Lemma posthoc_loop_entries (P : comparison -> Prop) :
  (forall g1 g2 s p,
     P (mkComparison g1 g2 s p (correct correction p n_comparisons)
          (flt (correct correction p n_comparisons) alpha)
          (Some correction) None)) ->
  (forall g1 g2 e, P (mkComparison g1 g2 nan nan nan false None (Some e))) ->
  forall comparisons results out,
    posthoc_loop mannwhitneyu groups_data alpha correction n_comparisons
                 comparisons results = Returned out ->
    Forall P results -> Forall P out.
Proof.
  intros Hok Herr.
  induction comparisons as [|[g1 g2] comparisons IH]; intros results out H Hacc;
    cbn [posthoc_loop] in H.
  - inversion H; subst. exact Hacc.
  - unfold lookup in H.
    destruct (dict_get groups_data g1) as [data1|]; cbn [bind] in H; [|discriminate].
    destruct (dict_get groups_data g2) as [data2|]; cbn [bind] in H; [|discriminate].
    destruct (Nat.eqb (length data1) 0 || Nat.eqb (length data2) 0).
    + exact (IH _ _ H Hacc).
    + destruct (mannwhitneyu data1 data2) as [[s p]|e].
      * apply (IH _ _ H). apply Forall_app. split; [exact Hacc|].
        constructor; [apply Hok | constructor].
      * apply (IH _ _ H). apply Forall_app. split; [exact Hacc|].
        constructor; [apply Herr | constructor].
Qed.

(** The loop appends at most one entry per pair, and exactly one when no
    group is empty. *)
Lemma posthoc_loop_length :
  forall comparisons results out,
    posthoc_loop mannwhitneyu groups_data alpha correction n_comparisons
                 comparisons results = Returned out ->
    (length out <= length results + length comparisons)%nat /\
    (all_nonempty groups_data ->
     length out = (length results + length comparisons)%nat).
Proof.
  induction comparisons as [|[g1 g2] comparisons IH]; intros results out H;
    cbn [posthoc_loop] in H.
  - inversion H; subst. cbn [length]. split; [lia | intros _; lia].
  - unfold lookup in H.
    destruct (dict_get groups_data g1) as [data1|] eqn:E1; cbn [bind] in H;
      [|discriminate].
    destruct (dict_get groups_data g2) as [data2|] eqn:E2; cbn [bind] in H;
      [|discriminate].
    destruct (Nat.eqb (length data1) 0 || Nat.eqb (length data2) 0) eqn:Ee.
    + destruct (IH _ _ H) as [Hle _]. cbn [length]. split; [lia|].
      intro Hall. exfalso. apply orb_true_iff in Ee.
      destruct Ee as [Ee | Ee]; apply Nat.eqb_eq, length_zero_iff_nil in Ee.
      * exact (Hall _ _ E1 Ee).
      * exact (Hall _ _ E2 Ee).
    + destruct (mannwhitneyu data1 data2) as [[s p]|e];
        destruct (IH _ _ H) as [Hle Heq]; rewrite length_app in Hle, Heq;
        cbn [length] in *; (split; [lia | intro Hall; specialize (Heq Hall); lia]).
Qed.

(** The loop returns as soon as every name of a pair is a key. *)
Lemma posthoc_loop_total :
  forall comparisons results,
    (forall g1 g2, In (g1, g2) comparisons ->
       dict_get groups_data g1 <> None /\ dict_get groups_data g2 <> None) ->
    exists out, posthoc_loop mannwhitneyu groups_data alpha correction n_comparisons
                 comparisons results = Returned out.
Proof.
  induction comparisons as [|[g1 g2] comparisons IH]; intros results Hkeys;
    cbn [posthoc_loop].
  - exists results. reflexivity.
  - destruct (Hkeys g1 g2 (or_introl eq_refl)) as [H1 H2].
    assert (Hkeys' : forall a b, In (a, b) comparisons ->
              dict_get groups_data a <> None /\ dict_get groups_data b <> None)
      by (intros a b Hab; apply Hkeys; right; exact Hab).
    unfold lookup.
    destruct (dict_get groups_data g1) as [data1|]; [|contradiction].
    destruct (dict_get groups_data g2) as [data2|]; [|contradiction].
    cbn [bind].
    destruct (Nat.eqb (length data1) 0 || Nat.eqb (length data2) 0);
      [apply IH; exact Hkeys'|].
    destruct (mannwhitneyu data1 data2) as [[s p]|e]; apply IH; exact Hkeys'.
Qed.

End Loop.

(** Both branches of the correction [if] that multiply. *)
Lemma correct_bonferroni_holm (correction : option string) (p : float) (n : nat) :
  correction = Some "bonferroni"%string \/ correction = Some "holm"%string ->
  correct correction p n = py_min (fmul p (of_nat n)) (Some 1).
Proof. intros [-> | ->]; reflexivity. Qed.

(** The loop under ['holm'] is the loop under ['bonferroni'], relabelled. *)
Lemma posthoc_loop_holm
      (mannwhitneyu : list float -> list float -> outcome (float * float))
      (groups_data : list (string * list float)) (alpha : float) (n : nat) :
  forall comparisons results,
    posthoc_loop mannwhitneyu groups_data alpha (Some "holm"%string) n comparisons
                 (map (with_label (Some "holm"%string)) results)
    = outcome_map (map (with_label (Some "holm"%string)))
        (posthoc_loop mannwhitneyu groups_data alpha (Some "bonferroni"%string) n
                      comparisons results).
Proof.
  induction comparisons as [|[g1 g2] comparisons IH]; intro results;
    cbn [posthoc_loop]; [reflexivity|].
  destruct (lookup groups_data g1) as [data1|e1]; cbn [bind]; [|reflexivity].
  destruct (lookup groups_data g2) as [data2|e2]; cbn [bind]; [|reflexivity].
  destruct (Nat.eqb (length data1) 0 || Nat.eqb (length data2) 0); [apply IH|].
  destruct (mannwhitneyu data1 data2) as [[s p]|e]; rewrite <- IH, map_app;
    reflexivity.
Qed.

(** C10. In the rank-based post-hoc, asking for ['holm'] gives what
    asking for ['bonferroni'] gives, entry by entry and field by field,
    but for the recorded label: the same raise, or the same list of
    comparisons with the same corrected p-values and decisions. *)
Theorem holm_is_bonferroni
        (mannwhitneyu : list float -> list float -> outcome (float * float))
        (groups_data : list (string * list float)) (group_names : list string)
        (alpha : float) :
  perform_posthoc_tests mannwhitneyu groups_data group_names alpha
                        (Some "holm"%string)
  = outcome_map (map (with_label (Some "holm"%string)))
      (perform_posthoc_tests mannwhitneyu groups_data group_names alpha
                             (Some "bonferroni"%string)).
Proof.
  unfold perform_posthoc_tests.
  exact (posthoc_loop_holm mannwhitneyu groups_data alpha _ _ []).
Qed.

(** Every other value of [correction] takes the last branch. *)
Lemma correct_other (correction : option string) (p : float) (n : nat) :
  correction <> Some "bonferroni"%string -> correction <> Some "holm"%string ->
  correct correction p n = p.
Proof.
  intros Hb Hh. unfold correct, is_method.
  destruct correction as [c|]; [|reflexivity].
  destruct (String.eqb_spec c "bonferroni") as [-> | _]; [contradiction Hb; reflexivity|].
  destruct (String.eqb_spec c "holm") as [-> | _]; [contradiction Hh; reflexivity|].
  reflexivity.
Qed.

(** C3, as stated, fails twice on the code.
    - The rank-based post-hoc called with no correction
      ([correction=None], or any name other than ['bonferroni'] and
      ['holm']) emits the raw p-value as corrected p-value: for the three
      groups, where [mannwhitneyu] answers [p = 1/3] on every pair, every
      comparison has the corrected p-value 1/3, not
      [min(1/3 * 3, 1.0) = 1.0].
    - The two forms of the decision differ on doubles: with 20 groups
      (190 pairs) and [p = 0.0002631578947368421],
      [min(p * 190, 1.0) < 0.05] holds while [p < 0.05 / 190] does not. *)
Lemma claimed_correction_fails :
  (exists results,
     perform_posthoc_tests rank_sum_on_samples three_groups
                           ["A"%string; "B"%string; "C"%string] (double 0.05) None
     = Returned results /\
     length results = 3%nat /\
     Forall (fun c =>
               c_p_value c = double (1 # 3) /\
               p_value_corrected c = double (1 # 3) /\
               py_min (fmul (c_p_value c) (of_nat 3)) (Some 1) = Some 1 /\
               feq (p_value_corrected c)
                   (py_min (fmul (c_p_value c) (of_nat 3)) (Some 1)) = false)
            results) /\
  (20 * (20 - 1) / 2 = 190)%nat /\
  flt (correct (Some "bonferroni"%string) (double 0.0002631578947368421) 190)
      (double 0.05) = true /\
  flt (double 0.0002631578947368421) (fdiv (double 0.05) (of_nat 190)) = false.
Proof.
  split; [|split; [reflexivity | split; vm_compute; reflexivity]].
  eexists. split; [vm_compute; reflexivity|]. split; [reflexivity|].
  repeat constructor.
Qed.

(** C3, amended.  [combinations] of [k] names has [k*(k-1)/2] pairs, and
    that count is the factor of the correction.
    - Rank-based post-hoc: at most that many comparisons are emitted,
      exactly that many when no group is empty, and every emitted
      comparison has [significant = (corrected < alpha)].  Asked for
      ['bonferroni'] or ['holm'], [corrected = min(raw * n_pairs, 1.0)],
      and for a raw p-value in [0, 1] the corrected one lies between it
      and 1.  With any other [correction], [corrected = raw].  The
      analysis returns whenever the names are keys of the dictionary.
    - Parametric Bonferroni table: one row per pair of valid groups, each
      with [corrected = min(raw * n_pairs, 1.0)] and
      [significant = (raw < 0.05 / n_pairs)]; the same bounds hold.  The
      table is returned whenever [ttest_ind] returns.
    The products and the quotient are those of the doubles, rounded. *)
Theorem bonferroni_posthoc
        (mannwhitneyu ttest_ind : list float -> list float -> outcome (float * float)) :
  (forall names : list string,
     length (combinations2 names)
     = (length names * (length names - 1) / 2)%nat) /\
  (forall groups_data group_names alpha correction results,
     perform_posthoc_tests mannwhitneyu groups_data group_names alpha correction
     = Returned results ->
     let n_pairs := (length group_names * (length group_names - 1) / 2)%nat in
     (length results <= n_pairs)%nat /\
     (all_nonempty groups_data -> length results = n_pairs) /\
     forall c, In c results ->
       c_significant c = flt (p_value_corrected c) alpha /\
       (correction = Some "bonferroni"%string \/ correction = Some "holm"%string ->
        p_value_corrected c
        = py_min (fmul (c_p_value c) (of_nat n_pairs)) (Some 1) /\
        forall p, c_p_value c = Some p ->
          Binary64.representable p -> 0 <= p -> p <= 1 ->
          fle (c_p_value c) (p_value_corrected c) = true /\
          fle (p_value_corrected c) (Some 1) = true) /\
       (correction <> Some "bonferroni"%string ->
        correction <> Some "holm"%string ->
        p_value_corrected c = c_p_value c /\
        c_significant c = flt (c_p_value c) alpha)) /\
  (forall groups_data group_names alpha correction,
     (forall name, In name group_names -> dict_get groups_data name <> None) ->
     exists results,
       perform_posthoc_tests mannwhitneyu groups_data group_names alpha correction
       = Returned results) /\
  (forall groups group_names metric_name rows,
     Anova.perform_bonferroni_correction ttest_ind groups group_names
                                         metric_name = Returned rows ->
     let k := length (valid_pairs groups group_names) in
     let n_pairs := (k * (k - 1) / 2)%nat in
     length rows = n_pairs /\
     forall r, In r rows ->
       Anova.p_value_corregido r
       = py_min (fmul (Anova.r_p_value r) (of_nat n_pairs)) (Some 1) /\
       Anova.significativo r
       = flt (Anova.r_p_value r) (fdiv (double 0.05) (of_nat n_pairs)) /\
       forall p, Anova.r_p_value r = Some p ->
         Binary64.representable p -> 0 <= p -> p <= 1 ->
         fle (Anova.r_p_value r) (Anova.p_value_corregido r) = true /\
         fle (Anova.p_value_corregido r) (Some 1) = true) /\
  (forall groups group_names metric_name,
     (forall a b, exists r, ttest_ind a b = Returned r) ->
     exists rows,
       Anova.perform_bonferroni_correction ttest_ind groups group_names
                                           metric_name = Returned rows).
Proof.
  split; [exact (fun names => combinations2_length names)|].
  split; [|split; [|split]].
  - intros groups_data group_names alpha correction results Hrun n_pairs.
    unfold perform_posthoc_tests in Hrun.
    rewrite combinations2_length in Hrun. fold n_pairs in Hrun.
    destruct (posthoc_loop_length _ _ _ _ _ _ _ _ Hrun) as [Hle Heq].
    rewrite combinations2_length in Hle, Heq. fold n_pairs in Hle, Heq.
    cbn [length] in Hle, Heq.
    split; [exact Hle|]. split; [exact Heq|].
    intros c Hc.
    assert (Hn : (1 <= n_pairs)%nat).
    { destruct results as [|c0 results]; [destruct Hc | cbn [length] in Hle; lia]. }
    assert (HP : Forall
              (fun c =>
                 p_value_corrected c = correct correction (c_p_value c) n_pairs /\
                 c_significant c = flt (p_value_corrected c) alpha)
              results).
    { eapply posthoc_loop_entries; [| |exact Hrun|constructor].
      - intros g1 g2 s p. cbn. split; reflexivity.
      - intros g1 g2 e. cbn. split; [|reflexivity].
        unfold correct. destruct (is_method correction "bonferroni");
          [reflexivity|]. destruct (is_method correction "holm"); reflexivity. }
    rewrite Forall_forall in HP. destruct (HP c Hc) as [Hcorrd Hsig].
    split; [exact Hsig|]. split.
    + intro Hcorr. rewrite (correct_bonferroni_holm _ _ _ Hcorr) in Hcorrd.
      split; [exact Hcorrd|].
      intros p Hp R H0 H1. rewrite Hcorrd, Hp.
      exact (corrected_bounds p n_pairs R H0 H1 Hn).
    + intros Hb Hh. rewrite (correct_other _ _ _ Hb Hh) in Hcorrd.
      split; [exact Hcorrd|]. rewrite Hsig, Hcorrd. reflexivity.
  - intros groups_data group_names alpha correction Hkeys.
    unfold perform_posthoc_tests. apply posthoc_loop_total.
    intros g1 g2 Hin. apply combinations2_In in Hin. destruct Hin as [H1 H2].
    split; apply Hkeys; assumption.
  - intros groups group_names metric_name rows Hrun k n_pairs.
    unfold Anova.perform_bonferroni_correction in Hrun.
    rewrite !length_map in Hrun. fold k in Hrun. fold n_pairs in Hrun.
    destruct (Nat.ltb k 2) eqn:Ek.
    + inversion Hrun; subst. apply Nat.ltb_lt in Ek.
      split; [|intros r []].
      subst n_pairs. destruct k as [|[|k']]; [reflexivity | reflexivity | lia].
    + destruct (for_each_returned _ _ _ Hrun) as [Hlen Hrows].
      rewrite index_pairs_length, length_map in Hlen.
      fold k in Hlen. fold n_pairs in Hlen.
      split; [exact Hlen|]. intros r Hr.
      assert (Hn : (1 <= n_pairs)%nat).
      { destruct rows as [|r0 rows]; [destruct Hr | cbn [length] in Hlen; lia]. }
      clearbody n_pairs.
      destruct (Hrows r Hr) as ([[i name1] [j name2]] & _ & Hrow).
      destruct (ttest_ind _ _) as [[t p]|e]; cbn [bind] in Hrow; [|discriminate].
      assert (En : Nat.ltb 0 n_pairs = true) by (apply Nat.ltb_lt; lia).
      rewrite En in Hrow. inversion Hrow; subst r.
      cbn [Anova.p_value_corregido Anova.significativo Anova.r_p_value snd].
      split; [reflexivity|]. split; [reflexivity|].
      intros q -> R H0 H1. exact (corrected_bounds q n_pairs R H0 H1 Hn).
  - intros groups group_names metric_name Htotal.
    unfold Anova.perform_bonferroni_correction.
    destruct (Nat.ltb _ 2); [exists []; reflexivity|].
    apply for_each_total. intros [[i name1] [j name2]] _.
    destruct (Htotal (nth i (map fst (valid_pairs groups group_names)) [])
                     (nth j (map fst (valid_pairs groups group_names)) []))
      as [[t p] E].
    rewrite E. cbn [bind]. eexists. reflexivity.
Qed.

(** A run of the amended C3: the three groups under ['bonferroni'],
    where [min(1/3 * 3, 1.0)] is 1, and under no correction. *)
Lemma bonferroni_posthoc_witness :
  (exists results,
     perform_posthoc_tests rank_sum_on_samples three_groups
       ["A"%string; "B"%string; "C"%string] (double 0.05)
       (Some "bonferroni"%string)
     = Returned results /\
     length results = 3%nat /\
     forall c, In c results ->
       c_significant c = flt (p_value_corrected c) (double 0.05) /\
       p_value_corrected c = py_min (fmul (c_p_value c) (of_nat 3)) (Some 1)) /\
  (exists results,
     perform_posthoc_tests rank_sum_on_samples three_groups
       ["A"%string; "B"%string; "C"%string] (double 0.05) None
     = Returned results /\
     forall c, In c results -> p_value_corrected c = c_p_value c).
Proof.
  assert (T := proj1 (proj2 (bonferroni_posthoc rank_sum_on_samples
                               rank_sum_on_samples))).
  split.
  - destruct (perform_posthoc_tests rank_sum_on_samples three_groups
                ["A"%string; "B"%string; "C"%string] (double 0.05)
                (Some "bonferroni"%string)) as [results|e] eqn:E;
      [|vm_compute in E; discriminate E].
    exists results. split; [reflexivity|].
    destruct (T _ _ _ _ _ E) as (_ & Hlen & Hall).
    split.
    + apply Hlen. intros name data Hget Hnil. subst data.
      vm_compute in Hget.
      repeat match type of Hget with
             | (if ?b then _ else _) = _ => destruct b; try discriminate Hget
             end.
    + intros c Hc. destruct (Hall c Hc) as (H1 & H2 & _).
      split; [exact H1 | exact (proj1 (H2 (or_introl eq_refl)))].
  - destruct (perform_posthoc_tests rank_sum_on_samples three_groups
                ["A"%string; "B"%string; "C"%string] (double 0.05) None)
      as [results|e] eqn:E; [|vm_compute in E; discriminate E].
    exists results. split; [reflexivity|].
    destruct (T _ _ _ _ _ E) as (_ & _ & Hall).
    intros c Hc. destruct (Hall c Hc) as (_ & _ & H3).
    apply H3; discriminate.
Defined.

End PostHocFacts.

(** ** More on the Pareto extractor *)

Module ParetoMore.
Import Pareto ParetoFacts.

Lemma filter_all {A : Type} (f : A -> bool) (l : list A) :
  (forall x, In x l -> f x = true) -> filter f l = l.
Proof.
  induction l as [|x l IH]; intro H; simpl; [reflexivity|].
  rewrite (H x (or_introl eq_refl)), IH; [reflexivity|].
  intros y Hy. apply H. right. exact Hy.
Qed.

Lemma filter_none {A : Type} (f : A -> bool) (l : list A) :
  (forall x, In x l -> f x = false) -> filter f l = [].
Proof.
  induction l as [|x l IH]; intro H; simpl; [reflexivity|].
  rewrite (H x (or_introl eq_refl)). apply IH.
  intros y Hy. apply H. right. exact Hy.
Qed.

Lemma filter_permutation {A : Type} (f : A -> bool) (l l' : list A) :
  Permutation l l' -> Permutation (filter f l) (filter f l').
Proof.
  induction 1 as [|x l l' _ IH|x y l|l l' l'' _ IH1 _ IH2]; simpl.
  - constructor.
  - destruct (f x); [constructor|]; exact IH.
  - destruct (f x), (f y); try apply Permutation_refl. constructor.
  - eapply Permutation_trans; eassumption.
Qed.

Lemma has_dominator_false_iff (solutions : list solution) (sol : solution) :
  has_dominator solutions sol = false <->
  forall other, In other solutions -> dominates other sol = false.
Proof.
  split.
  - intros H other Hin. destruct (dominates other sol) eqn:E; [|reflexivity].
    assert (Ht : has_dominator solutions sol = true)
      by (apply has_dominator_iff; exists other; auto).
    congruence.
  - intro H. destruct (has_dominator solutions sol) eqn:E; [|reflexivity].
    apply has_dominator_iff in E. destruct E as (other & Hin & Hd).
    rewrite (H other Hin) in Hd. discriminate.
Qed.

Lemma has_dominator_permutation (l l' : list solution) (sol : solution) :
  Permutation l l' -> has_dominator l sol = has_dominator l' sol.
Proof.
  intro Hp. apply eq_true_iff_eq. rewrite !has_dominator_iff.
  split; intros (other & Hin & Hd); exists other; split; try exact Hd.
  - eapply Permutation_in; eassumption.
  - eapply Permutation_in; [apply Permutation_sym|]; eassumption.
Qed.

Lemma front_In (solutions : list solution) (sol : solution) :
  In sol (fst (get_non_dominated_solutions solutions)) <->
  In sol solutions /\ has_dominator solutions sol = false.
Proof.
  rewrite get_non_dominated_solutions_filter. cbn [fst].
  rewrite filter_In, negb_true_iff. reflexivity.
Qed.

(** X1. Dominance is transitive. *)
Theorem dominance_transitive (a b c : solution) :
  dominates a b = true -> dominates b c = true -> dominates a c = true.
Proof. apply dominates_trans. Qed.

Lemma dominance_transitive_witness :
  dominates (Some 1, Some 9) (Some 3, Some 5) = true.
Proof.
  exact (dominance_transitive (Some 1, Some 9) (Some 2, Some 9) (Some 3, Some 5)
                              eq_refl eq_refl).
Defined.

(** X2. No row of the input dominates a member of the front; in
    particular the members of the front do not dominate each other. *)
Theorem front_undominated (solutions : list solution) (sol other : solution) :
  In sol (fst (get_non_dominated_solutions solutions)) ->
  In other solutions ->
  dominates other sol = false.
Proof.
  intros Hs Ho. apply front_In in Hs. destruct Hs as [_ Hs].
  exact (proj1 (has_dominator_false_iff solutions sol) Hs other Ho).
Qed.

Lemma front_undominated_witness :
  dominates (Some 2, Some 9) (Some 1, Some 5) = false.
Proof.
  apply (front_undominated
           [(Some 1, Some 5); (Some 2, Some 9); (Some 3, Some 5)]);
    simpl; auto.
Defined.

(** X3. Extracting the front of a front changes nothing: every row is
    kept, in the same order, and nothing is dominated. *)
Theorem partition_idempotent (solutions : list solution) :
  get_non_dominated_solutions (fst (get_non_dominated_solutions solutions))
  = (fst (get_non_dominated_solutions solutions), []).
Proof.
  set (front := fst (get_non_dominated_solutions solutions)).
  assert (H : forall sol, In sol front -> has_dominator front sol = false).
  { intros sol Hin. apply has_dominator_false_iff. intros other Ho.
    apply (front_undominated solutions); [exact Hin|].
    apply front_In in Ho. tauto. }
  rewrite get_non_dominated_solutions_filter. f_equal.
  - apply filter_all. intros sol Hin. rewrite (H sol Hin). reflexivity.
  - apply filter_none. exact H.
Qed.

(** X4. A non-empty input has a non-empty front. *)
Theorem front_nonempty (solutions : list solution) :
  solutions <> [] -> fst (get_non_dominated_solutions solutions) <> [].
Proof.
  intros Hne Hfront. destruct solutions as [|sol solutions]; [contradiction|].
  assert (Hin : In sol (sol :: solutions)) by (left; reflexivity).
  destruct (has_dominator (sol :: solutions) sol) eqn:E.
  - destruct (undominated_dominator (sol :: solutions) _ sol (le_n _) E)
      as (top & H1 & H2 & _).
    assert (Ht : In top (fst (get_non_dominated_solutions (sol :: solutions))))
      by (apply front_In; auto).
    rewrite Hfront in Ht. destruct Ht.
  - assert (Ht : In sol (fst (get_non_dominated_solutions (sol :: solutions))))
      by (apply front_In; auto).
    rewrite Hfront in Ht. destruct Ht.
Qed.

Lemma front_nonempty_witness :
  fst (get_non_dominated_solutions [(Some 3, Some 5); (Some 1, Some 5)]) <> [].
Proof.
  apply front_nonempty. discriminate.
Defined.

Lemma partition_permutation (solutions solutions' : list solution) :
  Permutation solutions solutions' ->
  Permutation (fst (get_non_dominated_solutions solutions))
              (fst (get_non_dominated_solutions solutions')) /\
  Permutation (snd (get_non_dominated_solutions solutions))
              (snd (get_non_dominated_solutions solutions')).
Proof.
  intro Hp. rewrite !get_non_dominated_solutions_filter. cbn [fst snd].
  assert (E1 : filter (has_dominator solutions') solutions'
               = filter (has_dominator solutions) solutions').
  { apply filter_ext. intro sol. symmetry.
    apply has_dominator_permutation. exact Hp. }
  assert (E2 : filter (fun sol => negb (has_dominator solutions' sol)) solutions'
               = filter (fun sol => negb (has_dominator solutions sol)) solutions').
  { apply filter_ext. intro sol. f_equal. symmetry.
    apply has_dominator_permutation. exact Hp. }
  rewrite E1, E2. split; apply filter_permutation; exact Hp.
Qed.

(** X5. The order of the rows does not matter: two inputs with the same
    rows have the same front and the same dominated rows, as multisets. *)
Theorem partition_order_independent (solutions solutions' : list solution) :
  Permutation solutions solutions' ->
  Permutation (fst (get_non_dominated_solutions solutions))
              (fst (get_non_dominated_solutions solutions')) /\
  Permutation (snd (get_non_dominated_solutions solutions))
              (snd (get_non_dominated_solutions solutions')).
Proof. apply partition_permutation. Qed.

Lemma partition_order_independent_witness :
  Permutation
    (fst (get_non_dominated_solutions [(Some 3, Some 5); (Some 1, Some 5)]))
    (fst (get_non_dominated_solutions [(Some 1, Some 5); (Some 3, Some 5)])).
Proof.
  apply (partition_order_independent
           [(Some 3, Some 5); (Some 1, Some 5)]
           [(Some 1, Some 5); (Some 3, Some 5)]).
  apply perm_swap.
Defined.

End ParetoMore.

(** ** Reading the Pareto files *)

Module ParetoFilesFacts.
Import Pareto ParetoFiles MoreRuns.

Section Files.
Variable path_exists : string -> bool.
Variable read_csv : string -> outcome dataframe.

(** While [pd.read_csv] returns, the loop appends the rows of the usable
    files, one array per file, in the order of the list. *)
Lemma read_loop_returned :
  forall file_list all_solutions,
    (forall file, In file file_list -> path_exists file = true ->
                  exists df, read_csv file = Returned df) ->
    read_loop path_exists read_csv file_list all_solutions
    = Returned (all_solutions
                ++ map (solutions_of read_csv)
                       (filter (usable path_exists read_csv) file_list)).
Proof.
  induction file_list as [|file file_list IH]; intros all_solutions Hread;
    cbn [read_loop].
  - cbn [filter map]. rewrite app_nil_r. reflexivity.
  - assert (Hread' : forall f, In f file_list -> path_exists f = true ->
                               exists df, read_csv f = Returned df)
      by (intros f Hf; apply Hread; right; exact Hf).
    destruct (path_exists file) eqn:Ee.
    + destruct (Hread file (or_introl eq_refl) Ee) as [df Edf].
      rewrite Edf. cbn [bind].
      assert (Hs : solutions_of read_csv file = f1_f2_values df)
        by (unfold solutions_of; rewrite Edf; reflexivity).
      assert (Hu : usable path_exists read_csv file
                   = has_column df "f1" && has_column df "f2")
        by (unfold usable; rewrite Ee, Edf; reflexivity).
      cbn [filter]. rewrite Hu.
      destruct (has_column df "f1" && has_column df "f2").
      * rewrite (IH _ Hread'). cbn [map]. rewrite Hs, <- app_assoc. reflexivity.
      * apply IH. exact Hread'.
    + assert (Hu : usable path_exists read_csv file = false)
        by (unfold usable; rewrite Ee; reflexivity).
      cbn [filter]. rewrite Hu. apply IH. exact Hread'.
Qed.

Lemma filter_nil_existsb {A : Type} (f : A -> bool) (l : list A) :
  filter f l = [] <-> existsb f l = false.
Proof.
  induction l as [|x l IH]; simpl; [tauto|].
  destruct (f x); simpl; [split; discriminate | exact IH].
Qed.

Lemma flat_map_permutation {A B : Type} (f : A -> list B) (l l' : list A) :
  Permutation l l' -> Permutation (flat_map f l) (flat_map f l').
Proof.
  induction 1 as [|x l l' _ IH|x y l|l l' l'' _ IH1 _ IH2]; simpl.
  - constructor.
  - apply Permutation_app_head. exact IH.
  - rewrite !app_assoc. apply Permutation_app_tail, Permutation_app_comm.
  - eapply Permutation_trans; eassumption.
Qed.

Lemma combine_returned (file_list : list string) :
  (forall file, In file file_list -> path_exists file = true ->
                exists df, read_csv file = Returned df) ->
  combine_pareto_fronts path_exists read_csv file_list
  = if existsb (usable path_exists read_csv) file_list
    then Returned (flat_map (solutions_of read_csv)
                            (filter (usable path_exists read_csv) file_list))
    else Raised "No se encontraron archivos válidos con soluciones".
Proof.
  intro Hread. unfold combine_pareto_fronts.
  rewrite (read_loop_returned file_list [] Hread). cbn [bind app].
  destruct (existsb (usable path_exists read_csv) file_list) eqn:E.
  - rewrite flat_map_concat_map.
    destruct (filter (usable path_exists read_csv) file_list) eqn:Ef.
    + apply filter_nil_existsb in Ef. congruence.
    + reflexivity.
  - apply filter_nil_existsb in E. rewrite E. reflexivity.
Qed.

End Files.

(** X6. While [pd.read_csv] returns on the files that exist,
    [combine_pareto_fronts] raises its [ValueError] exactly when no file
    of the list exists with both columns [f1] and [f2] (so, on an empty
    list); otherwise it returns the rows of the usable files, file after
    file in the order of the list, the other files being skipped. *)
Theorem combine_pareto_fronts_usable
        (path_exists : string -> bool) (read_csv : string -> outcome dataframe)
        (file_list : list string) :
  (forall file, In file file_list -> path_exists file = true ->
                exists df, read_csv file = Returned df) ->
  combine_pareto_fronts path_exists read_csv file_list
  = if existsb (usable path_exists read_csv) file_list
    then Returned (flat_map (solutions_of read_csv)
                            (filter (usable path_exists read_csv) file_list))
    else Raised "No se encontraron archivos válidos con soluciones".
Proof. apply combine_returned. Qed.

Lemma two_files_read_returns (file_list : list string) :
  forall file, In file file_list -> two_files_exist file = true ->
               exists df, two_files_read file = Returned df.
Proof.
  intros file _ _. unfold two_files_read.
  destruct (String.eqb file "a.csv"); eexists; reflexivity.
Qed.

Lemma combine_pareto_fronts_witness :
  combine_pareto_fronts two_files_exist two_files_read
    ["a.csv"%string; "missing.csv"%string; "b.csv"%string]
  = Returned [(Some 1, Some 5); (Some 3, Some 5); (Some 2, Some 9);
              (Some 4, Some 1)].
Proof.
  exact (combine_pareto_fronts_usable two_files_exist two_files_read
           ["a.csv"%string; "missing.csv"%string; "b.csv"%string]
           (two_files_read_returns _)).
Defined.

(** X7. The front that [main] computes does not depend on the order in
    which the files were found: listing the same files in another order
    gives the same front and the same dominated rows, as multisets, and
    raises in the same cases. *)
Theorem front_independent_of_file_order
        (path_exists : string -> bool) (read_csv : string -> outcome dataframe)
        (file_list file_list' : list string) :
  Permutation file_list file_list' ->
  (forall file, In file file_list -> path_exists file = true ->
                exists df, read_csv file = Returned df) ->
  match combined_partition path_exists read_csv file_list,
        combined_partition path_exists read_csv file_list' with
  | Returned (front, rest), Returned (front', rest') =>
      Permutation front front' /\ Permutation rest rest'
  | Raised e, Raised e' => e = e'
  | _, _ => False
  end.
Proof.
  intros Hp Hread.
  assert (Hread' : forall file, In file file_list' -> path_exists file = true ->
                                exists df, read_csv file = Returned df).
  { intros file Hin. apply Hread.
    eapply Permutation_in; [apply Permutation_sym|]; eassumption. }
  unfold combined_partition.
  rewrite (combine_returned _ _ _ Hread), (combine_returned _ _ _ Hread').
  assert (Hf : Permutation (filter (usable path_exists read_csv) file_list)
                           (filter (usable path_exists read_csv) file_list'))
    by (apply ParetoMore.filter_permutation; exact Hp).
  assert (He : existsb (usable path_exists read_csv) file_list
               = existsb (usable path_exists read_csv) file_list').
  { apply eq_true_iff_eq. rewrite !existsb_exists.
    split; intros (x & Hin & Hx); exists x; split; try exact Hx.
    - eapply Permutation_in; eassumption.
    - eapply Permutation_in; [apply Permutation_sym|]; eassumption. }
  rewrite <- He.
  destruct (existsb (usable path_exists read_csv) file_list); cbn [bind];
    [|reflexivity].
  assert (Hs := flat_map_permutation (solutions_of read_csv) _ _ Hf).
  destruct (ParetoMore.partition_permutation _ _ Hs) as [H1 H2].
  destruct (get_non_dominated_solutions
              (flat_map (solutions_of read_csv)
                        (filter (usable path_exists read_csv) file_list)))
    as [front rest].
  destruct (get_non_dominated_solutions
              (flat_map (solutions_of read_csv)
                        (filter (usable path_exists read_csv) file_list')))
    as [front' rest'].
  split; assumption.
Qed.

Lemma front_independent_of_file_order_witness :
  match combined_partition two_files_exist two_files_read
          ["a.csv"%string; "b.csv"%string],
        combined_partition two_files_exist two_files_read
          ["b.csv"%string; "a.csv"%string] with
  | Returned (front, rest), Returned (front', rest') =>
      Permutation front front' /\ Permutation rest rest'
  | Raised e, Raised e' => e = e'
  | _, _ => False
  end.
Proof.
  apply front_independent_of_file_order;
    [apply perm_swap | apply two_files_read_returns].
Defined.

End ParetoFilesFacts.

(** ** More on the normality tests *)

Module NormalityMore.

(** *** Python's [min] with a key *)

Lemma flt_false_trans (x b b' : float) :
  flt x b = false -> flt b' b = true -> flt x b' = false.
Proof.
  intros Hx Hb. apply flt_iff in Hb. destruct Hb as (q' & q & -> & -> & Hlt).
  destruct x as [qx|]; [|reflexivity].
  apply flt_some_false in Hx. apply flt_some_false.
  apply Qlt_le_weak. eapply Qlt_le_trans; eassumption.
Qed.

Lemma flt_irrefl (x : float) : flt x x = false.
Proof.
  destruct x as [q|]; [|reflexivity]. apply flt_some_false. apply Qle_refl.
Qed.

Lemma min_key_from_spec {A : Type} (key : A -> float) (l : list A) :
  forall best,
    (min_key_from key best l = best \/ In (min_key_from key best l) l) /\
    flt (key best) (key (min_key_from key best l)) = false /\
    forall x, In x l -> flt (key x) (key (min_key_from key best l)) = false.
Proof.
  induction l as [|y l IH]; intro best; cbn [min_key_from].
  - split; [left; reflexivity|]. split; [apply flt_irrefl | intros x []].
  - destruct (flt (key y) (key best)) eqn:E.
    + destruct (IH y) as (Hin & Hy & Hall). split; [|split].
      * right. destruct Hin as [-> | Hin]; [left; reflexivity | right; exact Hin].
      * destruct (flt (key best) (key (min_key_from key y l))) eqn:E';
          [|reflexivity].
        apply flt_iff in E'. destruct E' as (qb & qr & Eb & Er & Hlt).
        apply flt_iff in E. destruct E as (qy & qb' & Ey & Eb' & Hlt').
        rewrite Eb in Eb'. inversion Eb'; subst qb'.
        rewrite Ey, Er in Hy. apply flt_some_false in Hy.
        exfalso. apply (Qlt_irrefl qy).
        eapply Qlt_le_trans; [|exact Hy]. eapply Qlt_trans; eassumption.
      * intros x [<- | Hx]; [exact Hy | exact (Hall x Hx)].
    + destruct (IH best) as (Hin & Hb & Hall). split; [|split].
      * destruct Hin as [-> | Hin]; [left; reflexivity | right; right; exact Hin].
      * exact Hb.
      * intros x [<- | Hx]; [|exact (Hall x Hx)].
        destruct (flt (key y) (key (min_key_from key best l))) eqn:E';
          [|reflexivity].
        apply flt_iff in E'. destruct E' as (qx & qr & Ex & Er & Hlt).
        rewrite Er in Hb. destruct (key best) as [qb|] eqn:Eb.
        -- apply flt_some_false in Hb. rewrite Ex in E.
           apply flt_some_false in E. exfalso. apply (Qlt_irrefl qx).
           eapply Qlt_le_trans; [exact Hlt|]. eapply Qle_trans; eassumption.
        -- (* the key of [best] is nan: nothing replaces it *)
           exfalso. clear - Eb Er Hin.
           assert (Hst : forall l0, min_key_from key best l0 = best).
           { induction l0 as [|z l0 IHl]; cbn [min_key_from]; [reflexivity|].
             rewrite Eb. destruct (key z); cbn; exact IHl. }
           rewrite Hst in Er. congruence.
Qed.

(** [min(l, key=key)] is an element of [l] that no element undercuts. *)
Lemma min_key_spec {A : Type} (key : A -> float) (l : list A) (m : A) :
  min_key key l = Returned m ->
  In m l /\ forall x, In x l -> flt (key x) (key m) = false.
Proof.
  destruct l as [|y l]; cbn [min_key]; [discriminate|].
  intro H. inversion H; subst m. clear H.
  destruct (min_key_from_spec key l y) as (Hin & Hy & Hall).
  split.
  - destruct Hin as [-> | Hin]; [left; reflexivity | right; exact Hin].
  - intros x [<- | Hx]; [exact Hy | exact (Hall x Hx)].
Qed.

(** [min] keeps the first of the elements it cannot tell apart: an
    element before the one it returns has a larger key, or a key that is
    [nan]. *)
Lemma min_key_from_first {A : Type} (key : A -> float) (l : list A) :
  forall best,
    min_key_from key best l = best \/
    exists before after,
      l = before ++ min_key_from key best l :: after /\
      flt (key (min_key_from key best l)) (key best) = true /\
      forall x, In x before ->
        key x = nan \/ flt (key (min_key_from key best l)) (key x) = true.
Proof.
  induction l as [|y l IH]; intro best; cbn [min_key_from]; [left; reflexivity|].
  destruct (flt (key y) (key best)) eqn:E.
  - right. destruct (IH y) as [Hm | (before & after & El & Hlt & Hall)].
    + exists [], l. rewrite Hm. split; [reflexivity|]. split; [exact E|].
      intros x [].
    + exists (y :: before), after. split; [cbn; rewrite <- El; reflexivity|].
      split.
      * apply flt_iff in Hlt. destruct Hlt as (qm & qy & Em & Ey & Hlt).
        apply flt_iff in E. destruct E as (qy' & qb & Ey' & Eb & Hlt').
        rewrite Ey in Ey'. inversion Ey'; subst qy'.
        rewrite Em, Eb. apply flt_some. eapply Qlt_trans; eassumption.
      * intros x [<- | Hx]; [right; exact Hlt | exact (Hall x Hx)].
  - destruct (IH best) as [Hm | (before & after & El & Hlt & Hall)];
      [left; exact Hm|].
    right. exists (y :: before), after.
    split; [cbn; rewrite <- El; reflexivity|]. split; [exact Hlt|].
    intros x [<- | Hx]; [|exact (Hall x Hx)].
    destruct (key y) as [qy|] eqn:Ey; [right | left; reflexivity].
    apply flt_iff in Hlt. destruct Hlt as (qm & qb & Em & Eb & Hlt).
    rewrite Eb in E. apply flt_some_false in E.
    rewrite Em. apply flt_some. eapply Qlt_le_trans; eassumption.
Qed.

(** Over [range(n)], [min] returns the first index of a smallest key. *)
Lemma min_key_range_first (key : nat -> float) (n idx : nat) :
  min_key key (seq 0 n) = Returned idx ->
  forall j, (j < idx)%nat -> key j = nan \/ flt (key idx) (key j) = true.
Proof.
  destruct n as [|n]; cbn [seq min_key]; [discriminate|].
  intro H. assert (Hidx : min_key_from key 0%nat (seq 1 n) = idx)
    by (inversion H; reflexivity).
  clear H.
  destruct (min_key_from_first key (seq 1 n) 0%nat)
    as [Hm | (before & after & El & Hlt & Hall)].
  - rewrite Hm in Hidx. intros j Hj. lia.
  - rewrite Hidx in El, Hlt, Hall.
    assert (Hlen : (length before < n)%nat).
    { rewrite <- (length_seq n 1), El, length_app. cbn [length]. lia. }
    assert (Hi : idx = (1 + length before)%nat).
    { assert (Hn : nth (length before) (seq 1 n) 0%nat = idx)
        by (rewrite El, nth_middle; reflexivity).
      rewrite seq_nth in Hn by exact Hlen. lia. }
    intros j Hj.
    destruct j as [|j]; [right; exact Hlt|].
    apply Hall.
    assert (Hjb : (j < length before)%nat) by lia.
    assert (Hn : nth j (seq 1 n) 0%nat = S j)
      by (rewrite seq_nth by lia; reflexivity).
    rewrite El, app_nth1 in Hn by exact Hjb.
    rewrite <- Hn. apply nth_In. exact Hjb.
Qed.

(** *** What a result without a note holds *)

(** The [try] block returns only results without a note, built from the
    answer of [stats.anderson]. *)
Lemma run_test_returned (anderson : list float -> outcome AD.anderson_result)
      (group : list float) (alpha std : float) (n : nat) (r : AD.group_result) :
  AD.run_test anderson group alpha std n = Returned r ->
  exists res idx cv level p,
    anderson group = Returned res /\
    min_key (fun i => fabs (fsub (nth i (AD.ar_significance_level res) nan)
                                 (fmul alpha (Some 100))))
            (seq 0 (length (AD.ar_significance_level res))) = Returned idx /\
    nth_error (AD.ar_critical_values res) idx = Some cv /\
    nth_error (AD.ar_significance_level res) idx = Some level /\
    AD.approximate_p_value (AD.ar_critical_values res)
                           (AD.ar_significance_level res) (AD.ar_statistic res)
    = Returned p /\
    r = AD.mkGroup (AD.ar_statistic res) cv (Some (fdiv level (Some 100)))
                   (match p with Some v => v | None => fdiv level (Some 100) end)
                   (fle (AD.ar_statistic res) cv) (Numpy.mean group) std n None.
Proof.
  unfold AD.run_test. intro H.
  destruct (anderson group) as [res|e]; cbn [bind] in H; [|discriminate].
  destruct (min_key _ _) as [idx|e] eqn:Em; cbn [bind] in H; [|discriminate].
  unfold index at 1 in H.
  destruct (nth_error (AD.ar_critical_values res) idx) as [cv|] eqn:Ecv;
    cbn [bind] in H; [|discriminate].
  unfold index at 1 in H.
  destruct (nth_error (AD.ar_significance_level res) idx) as [level|] eqn:El;
    cbn [bind] in H; [|discriminate].
  destruct (AD.approximate_p_value _ _ _) as [p|e] eqn:Ep; cbn [bind] in H;
    [|discriminate].
  inversion H; subst r.
  exists res, idx, cv, level, p. repeat split; try reflexivity; assumption.
Qed.

(** What the loop body stores, branch by branch. *)
Lemma classify_group_cases (sqrt : Q -> Q)
      (anderson : list float -> outcome AD.anderson_result)
      (group : list float) (alpha : float) :
  let r := AD.classify_group sqrt anderson group alpha in
  (AD.note r <> None /\ AD.normal r = false /\ AD.statistic r = nan /\
   AD.p_value r = nan /\ AD.critical_value r = nan /\ AD.critical_alpha r = None)
  \/
  (AD.note r = None /\ (8 <= length group)%nat /\
   AD.run_test anderson group alpha (Numpy.std_ddof1 sqrt group) (length group)
   = Returned r).
Proof.
  unfold AD.classify_group.
  destruct (Nat.ltb (length group) 8) eqn:En;
    [left; cbn; repeat split; discriminate|].
  apply Nat.ltb_ge in En.
  destruct (feq _ _); [left; cbn; repeat split; discriminate|].
  destruct (AD.run_test _ _ _ _ _) as [r|e] eqn:Er;
    [|left; cbn; repeat split; discriminate].
  right. destruct (run_test_returned _ _ _ _ _ _ Er)
    as (res & idx & cv & level & p & _ & _ & _ & _ & _ & Hr).
  split; [rewrite Hr; reflexivity|]. split; [exact En | reflexivity].
Qed.

(** X8. A result that carries a note is never a verdict: in both
    classifiers it has [normal = False] and [nan] as statistic and
    p-value.  A result of the ECDF-based test without a note holds what
    [stats.kstest] returned on the standardized sample of three values or
    more, with [normal = (p_value >= significance_level)]. *)
Theorem note_excludes_verdict
        (sqrt : Q -> Q)
        (kstest : list float -> outcome (float * float))
        (anderson : list float -> outcome AD.anderson_result)
        (alpha : float) :
  (forall data,
     let r := KS.perform_kolmogorov_smirnov_test sqrt kstest data alpha in
     (KS.note r <> None ->
      KS.normal r = false /\ KS.statistic r = nan /\ KS.p_value r = nan) /\
     (KS.note r = None ->
      (3 <= length data)%nat /\
      feq (Numpy.std_ddof1 sqrt data) (Some 0) = false /\
      kstest (map (fun x => fdiv (fsub x (Numpy.mean data))
                                 (Numpy.std_ddof1 sqrt data)) data)
      = Returned (KS.statistic r, KS.p_value r) /\
      KS.normal r = fge (KS.p_value r) alpha /\
      KS.significance_level r = Some alpha)) /\
  (forall group,
     let r := AD.classify_group sqrt anderson group alpha in
     AD.note r <> None ->
     AD.normal r = false /\ AD.statistic r = nan /\ AD.p_value r = nan /\
     AD.critical_value r = nan).
Proof.
  split.
  - intros data r. subst r. unfold KS.perform_kolmogorov_smirnov_test.
    destruct (Nat.ltb (length data) 3) eqn:En.
    { cbn. split; [auto | discriminate]. }
    apply Nat.ltb_ge in En.
    destruct (feq (Numpy.std_ddof1 sqrt data) (Some 0)) eqn:Es.
    { cbn. split; [auto | discriminate]. }
    destruct (kstest _) as [[s p]|e] eqn:Ek; cbn.
    + split; [intro H; contradiction|]. intros _. repeat split; auto.
    + split; [auto | discriminate].
  - intros group r Hnote.
    destruct (classify_group_cases sqrt anderson group alpha)
      as [(_ & H1 & H2 & H3 & H4 & _) | (Hn & _)]; [auto|].
    fold r in Hn. contradiction.
Qed.

(** X9. A result of the tail-sensitive test without a note comes from
    the answer of [stats.anderson] on a group of eight values or more.
    Its critical value is the tabulated one of the level whose distance
    [abs(level - alpha * 100)], as the doubles give it, is the smallest:
    no level is nearer, and every level listed before it is farther (or
    its distance is [nan]), so that a tie goes to the level listed first.
    The level is recorded as [critical_alpha], and
    [normal = (statistic <= critical_value)]. *)
Theorem decision_uses_nearest_level
        (sqrt : Q -> Q)
        (anderson : list float -> outcome AD.anderson_result)
        (group : list float) (alpha : float) :
  let r := AD.classify_group sqrt anderson group alpha in
  AD.note r = None ->
  (8 <= length group)%nat /\
  exists res idx level,
    anderson group = Returned res /\
    nth_error (AD.ar_significance_level res) idx = Some level /\
    nth_error (AD.ar_critical_values res) idx = Some (AD.critical_value r) /\
    AD.critical_alpha r = Some (fdiv level (Some 100)) /\
    (forall j other,
       nth_error (AD.ar_significance_level res) j = Some other ->
       flt (fabs (fsub other (fmul alpha (Some 100))))
           (fabs (fsub level (fmul alpha (Some 100)))) = false) /\
    (forall j other,
       (j < idx)%nat ->
       nth_error (AD.ar_significance_level res) j = Some other ->
       fabs (fsub other (fmul alpha (Some 100))) = nan \/
       flt (fabs (fsub level (fmul alpha (Some 100))))
           (fabs (fsub other (fmul alpha (Some 100)))) = true) /\
    AD.statistic r = AD.ar_statistic res /\
    AD.normal r = fle (AD.statistic r) (AD.critical_value r).
Proof.
  intros r Hnote.
  destruct (classify_group_cases sqrt anderson group alpha)
    as [(Hn & _) | (_ & Hlen & Hrun)]; [fold r in Hn; contradiction|].
  fold r in Hrun. split; [exact Hlen|].
  destruct (run_test_returned _ _ _ _ _ _ Hrun)
    as (res & idx & cv & level & p & Ha & Hmin & Hcv & Hl & _ & Er).
  exists res, idx, level. rewrite Er. cbn.
  repeat split; try assumption; try reflexivity.
  - intros j other Hj.
    destruct (min_key_spec _ _ _ Hmin) as [_ Hall].
    assert (Hjlt : (j < length (AD.ar_significance_level res))%nat)
      by (apply nth_error_Some; congruence).
    assert (Hin : In j (seq 0 (length (AD.ar_significance_level res))))
      by (apply in_seq; lia).
    specialize (Hall j Hin). cbn beta in Hall.
    rewrite (nth_error_nth _ _ nan Hj), (nth_error_nth _ _ nan Hl) in Hall.
    exact Hall.
  - intros j other Hlt Hj.
    assert (Hfirst := min_key_range_first _ _ _ Hmin j Hlt). cbn beta in Hfirst.
    rewrite (nth_error_nth _ _ nan Hj), (nth_error_nth _ _ nan Hl) in Hfirst.
    exact Hfirst.
Qed.

(** A run of X9 with a tie: [0.075 * 100] is the double 7.5, as far from
    the level 10 as from the level 5, and the level 10, listed first, is
    taken with its critical value 0.591. *)
Lemma decision_uses_nearest_level_witness :
  fmul (double 0.075) (Some 100) = double 7.5 /\
  AD.classify_group Binary64.sqrt Runs.anderson_on_samples Runs.skewed_values
                    (double 0.075)
  = AD.mkGroup (double 0.7896) (double 0.591) (Some (double 0.1))
               (double 0.01) false (Some 3) (double 2.7774602993176543) 8 None /\
  exists res idx level,
    Runs.anderson_on_samples Runs.skewed_values = Returned res /\
    nth_error (AD.ar_significance_level res) idx = Some level /\
    (forall j other,
       (j < idx)%nat ->
       nth_error (AD.ar_significance_level res) j = Some other ->
       fabs (fsub other (fmul (double 0.075) (Some 100))) = nan \/
       flt (fabs (fsub level (fmul (double 0.075) (Some 100))))
           (fabs (fsub other (fmul (double 0.075) (Some 100)))) = true).
Proof.
  split; [vm_compute; reflexivity|].
  split; [vm_compute; reflexivity|].
  assert (Hnote : AD.note
            (AD.classify_group Binary64.sqrt Runs.anderson_on_samples
                               Runs.skewed_values (double 0.075)) = None)
    by (vm_compute; reflexivity).
  destruct (decision_uses_nearest_level Binary64.sqrt Runs.anderson_on_samples
              Runs.skewed_values (double 0.075) Hnote)
    as (_ & res & idx & level & Hres & Hlevel & _ & _ & _ & Hfirst & _).
  exists res, idx, level. split; [exact Hres|]. split; [exact Hlevel | exact Hfirst].
Defined.

(** X10. On a table of critical values whose first value is not above
    its last one, which is how [stats.anderson] lists them, the p-value
    of a result without a note is never interpolated: it is 0.01 when the
    statistic is not above the last critical value and 0.15 otherwise. *)
Theorem p_value_is_a_clamp
        (sqrt : Q -> Q)
        (anderson : list float -> outcome AD.anderson_result)
        (group : list float) (alpha : float)
        (res : AD.anderson_result) (statistic first last : Q) :
  let r := AD.classify_group sqrt anderson group alpha in
  AD.note r = None ->
  anderson group = Returned res ->
  AD.ar_statistic res = Some statistic ->
  index (AD.ar_critical_values res) 0 = Returned (Some first) ->
  index_last (AD.ar_critical_values res) = Returned (Some last) ->
  first <= last ->
  AD.p_value r = if Qle_bool statistic last then double 0.01 else double 0.15.
Proof.
  intros r Hnote Hres Hstat Hfirst Hlast Hle.
  destruct (classify_group_cases sqrt anderson group alpha)
    as [(Hn & _) | (_ & _ & Hrun)]; [fold r in Hn; contradiction|].
  fold r in Hrun.
  destruct (run_test_returned _ _ _ _ _ _ Hrun)
    as (res' & idx & cv & level & p & Ha & _ & _ & _ & Hp & Er).
  rewrite Hres in Ha. inversion Ha; subst res'.
  rewrite Hstat,
    (NormalityFacts.approximate_p_value_ascending _ _ _ _ _ Hfirst Hlast Hle)
    in Hp.
  inversion Hp; subst p. rewrite Er. reflexivity.
Qed.

Lemma p_value_is_a_clamp_witness :
  Binary64.round 0.519 <= Binary64.round 0.984 /\
  AD.p_value
    (AD.classify_group Binary64.sqrt Runs.anderson_on_samples
                       Runs.skewed_values (double 0.05))
  = if Qle_bool (Binary64.round 0.7896) (Binary64.round 0.984)
    then double 0.01 else double 0.15.
Proof.
  assert (Hle : Binary64.round 0.519 <= Binary64.round 0.984)
    by (apply Qle_bool_iff; vm_compute; reflexivity).
  split; [exact Hle|].
  apply (p_value_is_a_clamp Binary64.sqrt Runs.anderson_on_samples
           Runs.skewed_values (double 0.05)
           (AD.mkAnderson (double 0.7896)
              [double 0.519; double 0.591; double 0.709; double 0.827;
               double 0.984]
              [Some 15; Some 10; Some 5; Some 2.5; Some 1])
           (Binary64.round 0.7896) (Binary64.round 0.519)
           (Binary64.round 0.984));
    [vm_compute; reflexivity | vm_compute; reflexivity | reflexivity
     | reflexivity | reflexivity | exact Hle].
Defined.

End NormalityMore.

(** ** The verdict over all groups *)

Module AggregateFacts.

Lemma dict_get_set {V : Type} (d : list (string * V)) (k k' : string) (v : V) :
  dict_get (dict_set d k v) k' = if String.eqb k k' then Some v else dict_get d k'.
Proof.
  destruct (String.eqb k k') eqn:E.
  - apply String.eqb_eq in E. subst k'. apply dict_get_set_same.
  - apply String.eqb_neq in E. apply dict_get_set_other. exact E.
Qed.

Section TailSensitive.
Variable sqrt : Q -> Q.
Variable anderson : list float -> outcome AD.anderson_result.
Variable alpha : float.

Lemma ad_loop_all_normal :
  forall pairs state,
    snd (AD.test_loop sqrt anderson alpha pairs state)
    = snd state
      && forallb (fun gn => AD.normal (AD.classify_group sqrt anderson (fst gn) alpha))
                 pairs.
Proof.
  unfold AD.test_loop.
  induction pairs as [|[g name] pairs IH]; intro state; cbn [fold_left forallb].
  - rewrite andb_true_r. reflexivity.
  - rewrite IH. cbn [fst snd]. rewrite andb_assoc. reflexivity.
Qed.

Lemma ad_loop_keys (name : string) :
  forall pairs state,
    dict_get (fst (AD.test_loop sqrt anderson alpha pairs state)) name <> None <->
    dict_get (fst state) name <> None \/ In name (map snd pairs).
Proof.
  unfold AD.test_loop.
  induction pairs as [|[g n] pairs IH]; intro state; cbn [fold_left map In].
  - tauto.
  - rewrite IH. cbn [fst snd]. rewrite dict_get_set.
    destruct (String.eqb n name) eqn:E.
    + apply String.eqb_eq in E. subst n. split; [auto|]. intros _. left. discriminate.
    + apply String.eqb_neq in E. tauto.
Qed.

End TailSensitive.

(** X11. The tail-sensitive test over several groups.  Without any
    non-empty group it returns the error dictionary.  Otherwise it
    reports the names of the non-empty groups in their order, a result
    for exactly those names, and [all_groups_normal] is true exactly when
    every non-empty group was classified as normal. *)
Theorem anderson_darling_all_groups
        (sqrt : Q -> Q) (anderson : list float -> outcome AD.anderson_result)
        (groups : list (list float)) (group_names : list string)
        (metric_name : string) (alpha : float) :
  (valid_pairs groups group_names = [] ->
   AD.perform_anderson_darling_test sqrt anderson groups group_names
                                    metric_name alpha
   = AD.NoValidGroups "No hay grupos válidos para el test de normalidad."
                      metric_name) /\
  (valid_pairs groups group_names <> [] ->
   exists results all_normal,
     AD.perform_anderson_darling_test sqrt anderson groups group_names
                                      metric_name alpha
     = AD.Report metric_name alpha (map snd (valid_pairs groups group_names))
                 results all_normal "Anderson-Darling" /\
     (all_normal = true <->
      forall group name, In (group, name) (valid_pairs groups group_names) ->
        AD.normal (AD.classify_group sqrt anderson group alpha) = true) /\
     (forall name,
        dict_get results name <> None <->
        In name (map snd (valid_pairs groups group_names)))).
Proof.
  unfold AD.perform_anderson_darling_test. split.
  - intros ->. reflexivity.
  - intro Hne.
    destruct (Nat.eqb (length (valid_pairs groups group_names)) 0) eqn:E.
    { apply Nat.eqb_eq, length_zero_iff_nil in E. contradiction. }
    eexists. eexists. split; [reflexivity|]. split.
    + rewrite ad_loop_all_normal. cbn [snd andb]. rewrite forallb_forall. split.
      * intros H group name Hin. exact (H (group, name) Hin).
      * intros H [group name] Hin. exact (H group name Hin).
    + intro name. rewrite ad_loop_keys. cbn. tauto.
Qed.

Section BeforeAnova.
Variable sqrt : Q -> Q.
Variable kstest : list float -> outcome (float * float).

Lemma anova_classify_raised (group : list float) (e : string) :
  AnovaNormality.classify_group sqrt kstest group = Raised e <->
  feq (Numpy.std_ddof1 sqrt group) (Some 0) = false /\
  kstest (AnovaNormality.standardized sqrt group) = Raised e.
Proof.
  unfold AnovaNormality.classify_group.
  destruct (feq _ _).
  - split; [discriminate | intros [H _]; discriminate].
  - destruct (kstest _) as [sp|e']; cbn [bind].
    + split; [discriminate | intros [_ H]; discriminate].
    + split; [intro H; inversion H; auto | intros [_ H]; inversion H; reflexivity].
Qed.

Lemma anova_loop_returned :
  forall pairs state state',
    AnovaNormality.test_loop sqrt kstest pairs state = Returned state' ->
    (snd state' = true <->
     snd state = true /\
     forall group name, In (group, name) pairs ->
       exists r, AnovaNormality.classify_group sqrt kstest group = Returned r
                 /\ AnovaNormality.normal r = true) /\
    (forall name,
       dict_get (fst state') name <> None <->
       dict_get (fst state) name <> None \/ In name (map snd pairs)).
Proof.
  induction pairs as [|[g n] pairs IH]; intros state state' H;
    cbn [AnovaNormality.test_loop] in H.
  - inversion H; subst. split.
    + split; [intro Hs; split; [exact Hs | intros ? ? []] | tauto].
    + intro name. cbn. tauto.
  - destruct (AnovaNormality.classify_group sqrt kstest g) as [r|e] eqn:Ec;
      cbn [bind] in H; [|discriminate].
    destruct (IH _ _ H) as [Hall Hkeys]. cbn [fst snd] in Hall, Hkeys. split.
    + rewrite Hall, andb_true_iff. split.
      * intros [[Hs Hr] Hrest]. split; [exact Hs|].
        intros group name [E | Hin].
        -- inversion E; subst. exists r. auto.
        -- exact (Hrest group name Hin).
      * intros [Hs Hrest]. split; [split; [exact Hs|]|].
        -- destruct (Hrest g n (or_introl eq_refl)) as (r' & Er' & Hn).
           rewrite Ec in Er'. inversion Er'; subst. exact Hn.
        -- intros group name Hin. apply (Hrest group name). right. exact Hin.
    + intro name. rewrite Hkeys, dict_get_set. cbn [map In snd].
      destruct (String.eqb n name) eqn:E.
      * apply String.eqb_eq in E. subst n. split; [auto|]. intros _. left. discriminate.
      * apply String.eqb_neq in E. tauto.
Qed.

Lemma anova_loop_raised :
  forall pairs state e,
    AnovaNormality.test_loop sqrt kstest pairs state = Raised e ->
    exists group name,
      In (group, name) pairs /\
      AnovaNormality.classify_group sqrt kstest group = Raised e.
Proof.
  induction pairs as [|[g n] pairs IH]; intros state e H;
    cbn [AnovaNormality.test_loop] in H; [discriminate|].
  destruct (AnovaNormality.classify_group sqrt kstest g) as [r|e'] eqn:Ec;
    cbn [bind] in H.
  - destruct (IH _ _ H) as (group & name & Hin & Hr).
    exists group, name. split; [right|]; assumption.
  - inversion H; subst. exists g, n. split; [left; reflexivity | exact Ec].
Qed.

Lemma anova_loop_total :
  forall pairs state,
    (forall group name, In (group, name) pairs ->
       exists r, AnovaNormality.classify_group sqrt kstest group = Returned r) ->
    exists state', AnovaNormality.test_loop sqrt kstest pairs state = Returned state'.
Proof.
  induction pairs as [|[g n] pairs IH]; intros state H;
    cbn [AnovaNormality.test_loop].
  - exists state. reflexivity.
  - destruct (H g n (or_introl eq_refl)) as [r Er]. rewrite Er. cbn [bind].
    apply IH. intros group name Hin. apply (H group name). right. exact Hin.
Qed.

End BeforeAnova.

(** X12. The normality test that precedes the parametric comparison.
    Without any non-empty group it returns the error dictionary.  A
    report has [alpha = 0.05], the names of the non-empty groups, a
    result for exactly those names, and [all_groups_normal] true exactly
    when every non-empty group was tested and found normal.  The function
    raises only what [stats.kstest] raised on a non-empty group whose
    standard deviation is not zero, and returns whenever [stats.kstest]
    returns on those groups. *)
Theorem normality_before_anova
        (sqrt : Q -> Q) (kstest : list float -> outcome (float * float))
        (groups : list (list float)) (group_names : list string)
        (metric_name : string) :
  let run := AnovaNormality.perform_normality_test_ks
               sqrt kstest groups group_names metric_name in
  let valid := valid_pairs groups group_names in
  (valid = [] ->
   run = Returned (AnovaNormality.NoValidGroups
                     "No hay grupos válidos para el test de normalidad."
                     metric_name)) /\
  (forall metric alpha names results all_normal,
     run = Returned (AnovaNormality.Report metric alpha names results all_normal) ->
     metric = metric_name /\ alpha = double 0.05 /\ names = map snd valid /\
     (all_normal = true <->
      forall group name, In (group, name) valid ->
        exists r, AnovaNormality.classify_group sqrt kstest group = Returned r
                  /\ AnovaNormality.normal r = true) /\
     (forall name, dict_get results name <> None <-> In name names)) /\
  (forall e, run = Raised e ->
     exists group name,
       In (group, name) valid /\
       feq (Numpy.std_ddof1 sqrt group) (Some 0) = false /\
       kstest (AnovaNormality.standardized sqrt group) = Raised e) /\
  ((forall group name, In (group, name) valid ->
      feq (Numpy.std_ddof1 sqrt group) (Some 0) = false ->
      exists sp, kstest (AnovaNormality.standardized sqrt group) = Returned sp) ->
   exists report, run = Returned report).
Proof.
  intros run valid. subst run.
  unfold AnovaNormality.perform_normality_test_ks. fold valid.
  split; [intros ->; reflexivity|].
  destruct (Nat.eqb (length valid) 0) eqn:E.
  - split; [intros ? ? ? ? ? H; discriminate|].
    split; [intros e H; discriminate|].
    intros _. eexists. reflexivity.
  - split; [|split].
    + intros metric alpha names results all_normal H.
      destruct (AnovaNormality.test_loop sqrt kstest valid ([], true))
        as [st|e] eqn:El; cbn [bind] in H; [|discriminate].
      inversion H; subst.
      destruct (anova_loop_returned sqrt kstest _ _ _ El) as [Hall Hkeys].
      cbn [fst snd] in Hall, Hkeys.
      repeat split; try reflexivity.
      * intro Hs. apply Hall in Hs. tauto.
      * intro Hs. apply Hall. split; [reflexivity | exact Hs].
      * intro Hn. apply Hkeys in Hn. cbn in Hn. tauto.
      * intro Hn. apply Hkeys. right. exact Hn.
    + intros e H.
      destruct (AnovaNormality.test_loop sqrt kstest valid ([], true))
        as [st|e'] eqn:El; cbn [bind] in H; [discriminate|].
      inversion H; subst.
      destruct (anova_loop_raised sqrt kstest _ _ _ El) as (group & name & Hin & Hr).
      apply anova_classify_raised in Hr. exists group, name. tauto.
    + intro Hret.
      destruct (anova_loop_total sqrt kstest valid ([], true)) as [st Est].
      * intros group name Hin.
        unfold AnovaNormality.classify_group.
        destruct (feq (Numpy.std_ddof1 sqrt group) (Some 0)) eqn:Es;
          [eexists; reflexivity|].
        destruct (Hret group name Hin Es) as [sp Esp].
        fold (AnovaNormality.standardized sqrt group). rewrite Esp.
        eexists. reflexivity.
      * rewrite Est. eexists. reflexivity.
Qed.



End AggregateFacts.

(** ** More on the omnibus tests *)

Module OmnibusMore.
Import AggregateFacts.

(** A dictionary filled by a loop of assignments [d[key(a)] = value(a)]. *)
Section FilledDict.
Context {A V : Type}.
Variable key : A -> string.
Variable value : A -> V.

Lemma filled_keys (name : string) :
  forall items d,
    dict_get (fold_left (fun d a => dict_set d (key a) (value a)) items d) name
    <> None <->
    dict_get d name <> None \/ In name (map key items).
Proof.
  induction items as [|a items IH]; intro d; cbn [fold_left map In]; [tauto|].
  rewrite IH, dict_get_set.
  destruct (String.eqb (key a) name) eqn:E.
  - apply String.eqb_eq in E. split; [auto|]. intros _. left. discriminate.
  - apply String.eqb_neq in E. tauto.
Qed.

Lemma filled_other (name : string) :
  forall items d,
    ~ In name (map key items) ->
    dict_get (fold_left (fun d a => dict_set d (key a) (value a)) items d) name
    = dict_get d name.
Proof.
  induction items as [|a items IH]; intros d Hnot; cbn [fold_left]; [reflexivity|].
  rewrite IH by (intro H; apply Hnot; right; exact H).
  apply dict_get_set_other. intro E. apply Hnot. left. exact E.
Qed.

Lemma filled_last (before after : list A) (a : A) (d : list (string * V)) :
  ~ In (key a) (map key after) ->
  dict_get (fold_left (fun d a => dict_set d (key a) (value a))
                      (before ++ a :: after) d)
           (key a)
  = Some (value a).
Proof.
  intro Hnot. rewrite fold_left_app. cbn [fold_left].
  rewrite (filled_other (key a) after _ Hnot). apply dict_get_set_same.
Qed.

End FilledDict.

(** X14. The parametric omnibus test with two non-empty groups or more:
    it raises exactly what [stats.f_oneway] raises (the call is not
    guarded), and a computed result lists the names of the non-empty
    groups in their order and holds descriptive statistics for exactly
    those names, each computed on the group of that name. *)
Theorem one_way_anova_outcome
        (sqrt : Q -> Q) (median : list float -> float)
        (f_oneway : list (list float) -> outcome (float * float))
        (groups : list (list float)) (group_names : list string)
        (metric_name : string) :
  let run := Anova.perform_one_way_anova sqrt median f_oneway groups group_names
                                         metric_name in
  let valid := valid_pairs groups group_names in
  (forall e, run = Raised e <->
             (2 <= length valid)%nat /\ f_oneway (map fst valid) = Raised e) /\
  (forall r, run = Returned r -> Anova.error r = None ->
     Anova.metric r = metric_name /\
     Anova.groups r = Some (map snd valid) /\
     exists stats,
       Anova.descriptive_stats r = Some stats /\
       (forall name, dict_get stats name <> None <-> In name (map snd valid)) /\
       (forall before group name after,
          valid = before ++ (group, name) :: after ->
          ~ In name (map snd after) ->
          exists d, dict_get stats name = Some d /\
                    Anova.d_n d = length group /\
                    Anova.d_mean d = Numpy.mean group /\
                    Anova.d_std d = Numpy.std_ddof1 sqrt group /\
                    Anova.d_median d = median group)).
Proof.
  intros run valid. subst run. unfold Anova.perform_one_way_anova. fold valid.
  rewrite !length_map.
  destruct (Nat.ltb (length valid) 2) eqn:E.
  - apply Nat.ltb_lt in E. split.
    + intro e. split; [discriminate | intros [H _]; lia].
    + intros r H. inversion H; subst. cbn. discriminate.
  - apply Nat.ltb_ge in E.
    destruct (f_oneway (map fst valid)) as [[f p]|e'] eqn:Ef; cbn [bind].
    + split; [intro e; split; [discriminate | intros [_ H]; discriminate]|].
      intros r H _. inversion H; subst. cbn.
      split; [reflexivity|]. split; [reflexivity|].
      eexists. split; [reflexivity|]. split.
      * intro name.
        rewrite (filled_keys (fun gn : list float * string => snd gn) _ name valid []).
        cbn. tauto.
      * intros before group name after Hv Hnot. rewrite Hv.
        eexists. split.
        -- exact (filled_last (fun gn : list float * string => snd gn) _
                              before after (group, name) [] Hnot).
        -- cbn. repeat split; reflexivity.
    + split; [|intros r H; discriminate].
      intro e. split.
      * intro H. inversion H; subst. split; [exact E | reflexivity].
      * intros [_ H]. inversion H; subst. reflexivity.
Qed.

(** X15. The rank-based omnibus test never raises: what [kruskal] raises
    becomes a note on a result that is not significant.  A computed
    result (no note) counts and lists the non-empty groups of the
    dictionary in their order and holds statistics for exactly those
    names: the size, median, mean, standard deviation and the two
    quartiles, each computed on the group of that name. *)
Theorem kruskal_wallis_outcome
        (sqrt : Q -> Q) (median : list float -> float)
        (percentile : list float -> Q -> float)
        (kruskal : list (list float) -> outcome (float * float))
        (groups_data : list (string * list float)) (factor_name : string)
        (alpha : float) :
  let r := KruskalWallis.perform_kruskal_wallis_test
             sqrt median percentile kruskal groups_data factor_name alpha in
  let valid := filter (fun nd => Nat.ltb 0 (length (snd nd))) groups_data in
  KruskalWallis.groups r = length valid /\
  (forall e, (2 <= length valid)%nat -> kruskal (map snd valid) = Raised e ->
     KruskalWallis.note r = Some ("Error al realizar el test: " ++ e)%string /\
     KruskalWallis.significant r = false /\
     KruskalWallis.p_value r = nan /\ KruskalWallis.group_names r = None) /\
  (KruskalWallis.note r = None ->
     (2 <= length valid)%nat /\
     KruskalWallis.group_names r = Some (map fst valid) /\
     exists stats,
       KruskalWallis.group_stats r = Some stats /\
       (forall name, dict_get stats name <> None <-> In name (map fst valid)) /\
       (forall before name data after,
          valid = before ++ (name, data) :: after ->
          ~ In name (map fst after) ->
          exists s, dict_get stats name = Some s /\
                    KruskalWallis.gs_n s = length data /\
                    KruskalWallis.gs_median s = median data /\
                    KruskalWallis.gs_mean s = Numpy.mean data /\
                    KruskalWallis.gs_std s = Numpy.std_ddof1 sqrt data /\
                    KruskalWallis.gs_q25 s = percentile data 25 /\
                    KruskalWallis.gs_q75 s = percentile data 75)).
Proof.
  intros r valid. subst r. unfold KruskalWallis.perform_kruskal_wallis_test.
  rewrite OmnibusFacts.combine_fst_snd. fold valid. rewrite !length_map.
  destruct (Nat.ltb (length valid) 2) eqn:E.
  - apply Nat.ltb_lt in E. cbn. split; [reflexivity|].
    split; [intros e H; lia | discriminate].
  - apply Nat.ltb_ge in E.
    destruct (kruskal (map snd valid)) as [[s p]|e'] eqn:Ek; cbn.
    + split; [reflexivity|]. split; [intros e _ H; discriminate|].
      intros _. split; [exact E|]. split; [reflexivity|].
      eexists. split; [reflexivity|]. split.
      * intro name.
        rewrite (filled_keys (fun nd : string * list float => fst nd) _ name valid []).
        cbn. tauto.
      * intros before name data after Hv Hnot. rewrite Hv.
        eexists. split.
        -- exact (filled_last (fun nd : string * list float => fst nd) _
                              before after (name, data) [] Hnot).
        -- cbn. repeat split; reflexivity.
    + split; [reflexivity|]. split; [|discriminate].
      intros e _ H. inversion H; subst. repeat split; reflexivity.
Qed.

End OmnibusMore.

(** ** More on the post-hoc comparisons *)

Module PostHocMore.
Import KruskalWallis PostHocPairs PairFacts.

(** *** Combinations *)

Lemma combinations2_distinct {A : Type} (l : list A) (a b : A) :
  NoDup l -> In (a, b) (combinations2 l) -> a <> b /\ ~ In (b, a) (combinations2 l).
Proof.
  induction 1 as [|x l Hx Hnd IH]; [intros []|].
  cbn [combinations2]. intro H. apply in_app_or in H. destruct H as [H | H].
  - apply in_map_iff in H. destruct H as (y & E & Hy). inversion E; subst.
    split; [intro; subst; contradiction|].
    intro H. apply in_app_or in H. destruct H as [H | H].
    + apply in_map_iff in H. destruct H as (z & E' & _). inversion E'; subst.
      contradiction.
    + apply combinations2_In in H. destruct H as [_ H]. contradiction.
  - destruct (IH H) as [Hab Hba]. split; [exact Hab|].
    intro H'. apply in_app_or in H'. destruct H' as [H' | H'].
    + apply in_map_iff in H'. destruct H' as (z & E' & _). inversion E'; subst.
      apply combinations2_In in H. destruct H as [_ H]. contradiction.
    + contradiction.
Qed.

Lemma combinations2_covers {A : Type} (l : list A) (a b : A) :
  In a l -> In b l -> a <> b ->
  In (a, b) (combinations2 l) \/ In (b, a) (combinations2 l).
Proof.
  induction l as [|x l IH]; [intros []|].
  cbn [combinations2]. intros [Ha | Ha] [Hb | Hb] Hab.
  - subst. contradiction.
  - subst. left. apply in_or_app. left. apply in_map. exact Hb.
  - subst. right. apply in_or_app. left. apply in_map. exact Ha.
  - destruct (IH Ha Hb Hab) as [H | H]; [left | right];
      apply in_or_app; right; exact H.
Qed.

Lemma combinations2_NoDup {A : Type} (l : list A) :
  NoDup l -> NoDup (combinations2 l).
Proof.
  induction 1 as [|x l Hx Hnd IH]; [constructor|].
  cbn [combinations2]. apply NoDup_app.
  - clear IH Hx. induction Hnd as [|y l Hy Hnd IHl]; [constructor|].
    cbn [map]. constructor; [|exact IHl].
    intro H. apply in_map_iff in H. destruct H as (z & E & Hz).
    inversion E; subst. contradiction.
  - exact IH.
  - intros [a b] H1 H2. apply in_map_iff in H1. destruct H1 as (y & E & _).
    inversion E; subst. apply combinations2_In in H2. destruct H2 as [H2 _].
    contradiction.
Qed.

Lemma combinations2_partner {A : Type} (l : list A) (a : A) :
  In a l -> (2 <= length l)%nat ->
  exists b, In (a, b) (combinations2 l) \/ In (b, a) (combinations2 l).
Proof.
  intros Ha Hlen. destruct l as [|x [|y l]]; cbn [length] in Hlen; try lia.
  destruct Ha as [Ha | Ha].
  - subst. exists y. left. cbn. left. reflexivity.
  - exists x. right. cbn [combinations2]. apply in_or_app. left.
    apply in_map. exact Ha.
Qed.

(** *** The loop, entry by entry *)

Section Loop.
Variable mannwhitneyu : list float -> list float -> outcome (float * float).
Variable groups_data : list (string * list float).
Variable alpha : float.
Variable correction : option string.
Variable n_comparisons : nat.

Lemma entry_of_names (g1 g2 : string) (d1 d2 : list float) :
  names_of (entry_of mannwhitneyu alpha correction n_comparisons g1 g2 d1 d2)
  = (g1, g2).
Proof.
  unfold entry_of. destruct (mannwhitneyu d1 d2) as [[s p]|e]; reflexivity.
Qed.

Lemma entry_for_entry_of (g1 g2 : string) (d1 d2 : list float) :
  dict_get groups_data g1 = Some d1 -> dict_get groups_data g2 = Some d2 ->
  d1 <> [] -> d2 <> [] ->
  entry_for mannwhitneyu groups_data alpha correction n_comparisons
            (entry_of mannwhitneyu alpha correction n_comparisons g1 g2 d1 d2).
Proof.
  intros E1 E2 H1 H2. unfold entry_for, entry_of.
  destruct (mannwhitneyu d1 d2) as [[s p]|e] eqn:Em; cbn [group1 group2];
    exists d1, d2; rewrite Em; repeat split; assumption.
Qed.

Lemma posthoc_loop_step (g1 g2 : string) (d1 d2 : list float)
      (comparisons : list (string * string)) (results : list comparison) :
  dict_get groups_data g1 = Some d1 -> dict_get groups_data g2 = Some d2 ->
  Nat.eqb (length d1) 0 || Nat.eqb (length d2) 0 = false ->
  posthoc_loop mannwhitneyu groups_data alpha correction n_comparisons
               ((g1, g2) :: comparisons) results
  = posthoc_loop mannwhitneyu groups_data alpha correction n_comparisons
                 comparisons
                 (results ++ [entry_of mannwhitneyu alpha correction n_comparisons
                                       g1 g2 d1 d2]).
Proof.
  intros E1 E2 Ee. cbn [posthoc_loop]. unfold lookup. rewrite E1, E2.
  cbn [bind]. rewrite Ee. unfold entry_of.
  destruct (mannwhitneyu d1 d2) as [[s p]|e]; reflexivity.
Qed.

Lemma posthoc_loop_trace :
  forall comparisons results out,
    posthoc_loop mannwhitneyu groups_data alpha correction n_comparisons
                 comparisons results = Returned out ->
    exists new,
      out = results ++ new /\
      map names_of new = filter (both_nonempty groups_data) comparisons /\
      Forall (entry_for mannwhitneyu groups_data alpha correction n_comparisons)
             new.
Proof.
  induction comparisons as [|[g1 g2] comparisons IH]; intros results out H.
  - cbn [posthoc_loop] in H. inversion H; subst. exists [].
    rewrite app_nil_r. repeat split. constructor.
  - cbn [filter]. unfold both_nonempty at 1. cbn [fst snd].
    destruct (dict_get groups_data g1) as [d1|] eqn:E1;
      [|cbn [posthoc_loop] in H; unfold lookup in H; rewrite E1 in H;
        discriminate].
    destruct (dict_get groups_data g2) as [d2|] eqn:E2;
      [|cbn [posthoc_loop] in H; unfold lookup in H; rewrite E1, E2 in H;
        discriminate].
    destruct (Nat.eqb (length d1) 0 || Nat.eqb (length d2) 0) eqn:Ee.
    + cbn [posthoc_loop] in H. unfold lookup in H. rewrite E1, E2 in H.
      cbn [bind] in H. rewrite Ee in H. cbn [negb]. exact (IH _ _ H).
    + rewrite (posthoc_loop_step g1 g2 d1 d2 _ _ E1 E2 Ee) in H.
      destruct (IH _ _ H) as (new & Hout & Hnames & Hall).
      exists (entry_of mannwhitneyu alpha correction n_comparisons g1 g2 d1 d2
                :: new).
      rewrite Hout, <- app_assoc. cbn [negb map app].
      rewrite entry_of_names, Hnames. repeat split.
      constructor; [|exact Hall].
      apply orb_false_iff in Ee. destruct Ee as [Ee1 Ee2].
      apply Nat.eqb_neq in Ee1. apply Nat.eqb_neq in Ee2.
      apply entry_for_entry_of; try assumption.
      * intro; subst; apply Ee1; reflexivity.
      * intro; subst; apply Ee2; reflexivity.
Qed.

Lemma posthoc_loop_key_error :
  forall comparisons results,
    (exists g1 g2, In (g1, g2) comparisons /\
                   (dict_get groups_data g1 = None \/ dict_get groups_data g2 = None)) ->
    exists e,
      posthoc_loop mannwhitneyu groups_data alpha correction n_comparisons
                   comparisons results = Raised e.
Proof.
  induction comparisons as [|[h1 h2] comparisons IH]; intros results
    (g1 & g2 & Hin & Hmiss); [destruct Hin|].
  cbn [posthoc_loop]. unfold lookup.
  destruct (dict_get groups_data h1) as [d1|] eqn:E1; cbn [bind];
    [|eexists; reflexivity].
  destruct (dict_get groups_data h2) as [d2|] eqn:E2; cbn [bind];
    [|eexists; reflexivity].
  assert (Htail : exists a b, In (a, b) comparisons /\
            (dict_get groups_data a = None \/ dict_get groups_data b = None)).
  { destruct Hin as [E | Hin]; [|exists g1, g2; auto].
    inversion E; subst. destruct Hmiss; congruence. }
  destruct (Nat.eqb (length d1) 0 || Nat.eqb (length d2) 0);
    [apply IH; exact Htail|].
  destruct (mannwhitneyu d1 d2) as [[s p]|e]; apply IH; exact Htail.
Qed.

End Loop.

(** X16. The rank-based post-hoc, when it returns, has one entry for
    each pair of names whose two groups are non-empty, in the order of
    [combinations], and each entry is the one of the pair it names.  A
    rank-sum test that raises does not stop the loop: its pair gets an
    entry with [significant = False], [nan] p-values, no correction label
    and the message of the exception. *)
Theorem posthoc_entries
        (mannwhitneyu : list float -> list float -> outcome (float * float))
        (groups_data : list (string * list float)) (group_names : list string)
        (alpha : float) (correction : option string)
        (results : list comparison) :
  perform_posthoc_tests mannwhitneyu groups_data group_names alpha correction
  = Returned results ->
  map names_of results
  = filter (both_nonempty groups_data) (combinations2 group_names) /\
  Forall (entry_for mannwhitneyu groups_data alpha correction
                    (length (combinations2 group_names)))
         results /\
  (forall c, In c results -> error c <> None ->
     c_significant c = false /\ c_p_value c = nan /\
     p_value_corrected c = nan /\ KruskalWallis.correction c = None) /\
  (forall c, In c results -> error c = None ->
     KruskalWallis.correction c = Some correction).
Proof.
  unfold perform_posthoc_tests. intro H.
  destruct (posthoc_loop_trace _ _ _ _ _ _ _ _ H) as (new & Hout & Hnames & Hall).
  cbn [app] in Hout. subst new.
  split; [exact Hnames|]. split; [exact Hall|].
  rewrite Forall_forall in Hall.
  split; intros c Hc Herr; destruct (Hall c Hc) as (d1 & d2 & _ & _ & _ & _ & Ec);
    unfold entry_of in Ec; destruct (mannwhitneyu d1 d2) as [[s p]|e];
    rewrite Ec in Herr |- *; cbn in Herr |- *.
  - contradiction.
  - repeat split; reflexivity.
  - reflexivity.
  - discriminate.
Qed.

Lemma posthoc_entries_witness :
  exists results,
    perform_posthoc_tests MoreRuns.rank_sum_failing MoreRuns.groups_with_singleton
      ["A"%string; "B"%string; "C"%string] (double 0.05) (Some "bonferroni"%string)
    = Returned results /\
    map names_of results
    = [("A"%string, "B"%string); ("A"%string, "C"%string);
       ("B"%string, "C"%string)] /\
    map c_significant results = [false; true; false].
Proof.
  eexists. split; [reflexivity|].
  split; [|reflexivity].
  exact (proj1 (posthoc_entries MoreRuns.rank_sum_failing
                  MoreRuns.groups_with_singleton
                  ["A"%string; "B"%string; "C"%string] (double 0.05)
                  (Some "bonferroni"%string) _ eq_refl)).
Defined.

(** X17. With distinct names, all of them keys of non-empty groups, the
    rank-based post-hoc compares every unordered pair of groups exactly
    once: no pair of names comes twice, in either order, and every two
    different names come as a pair. *)
Theorem each_pair_once
        (mannwhitneyu : list float -> list float -> outcome (float * float))
        (groups_data : list (string * list float)) (group_names : list string)
        (alpha : float) (correction : option string)
        (results : list comparison) :
  NoDup group_names ->
  (forall name, In name group_names ->
     exists data, dict_get groups_data name = Some data /\ data <> []) ->
  perform_posthoc_tests mannwhitneyu groups_data group_names alpha correction
  = Returned results ->
  map names_of results = combinations2 group_names /\
  NoDup (map names_of results) /\
  forall a b, In a group_names -> In b group_names -> a <> b ->
    (In (a, b) (map names_of results) \/ In (b, a) (map names_of results)) /\
    ~ (In (a, b) (map names_of results) /\ In (b, a) (map names_of results)).
Proof.
  intros Hnd Hkeys H. unfold perform_posthoc_tests in H.
  destruct (posthoc_loop_trace _ _ _ _ _ _ _ _ H) as (new & Hout & Hnames & _).
  cbn [app] in Hout. subst new.
  assert (E : filter (both_nonempty groups_data) (combinations2 group_names)
              = combinations2 group_names).
  { apply ParetoMore.filter_all. intros [a b] Hin.
    apply combinations2_In in Hin. destruct Hin as [Ha Hb].
    destruct (Hkeys a Ha) as (d1 & E1 & H1).
    destruct (Hkeys b Hb) as (d2 & E2 & H2).
    unfold both_nonempty. cbn [fst snd]. rewrite E1, E2.
    destruct d1; [contradiction|]. destruct d2; [contradiction|]. reflexivity. }
  rewrite E in Hnames. rewrite Hnames.
  split; [reflexivity|]. split; [apply combinations2_NoDup; exact Hnd|].
  intros a b Ha Hb Hab. split.
  - apply combinations2_covers; assumption.
  - intros [H1 H2]. destruct (combinations2_distinct _ _ _ Hnd H1) as [_ Hno].
    contradiction.
Qed.

Lemma three_groups_keys :
  forall name, In name ["A"%string; "B"%string; "C"%string] ->
    exists data, dict_get Runs.three_groups name = Some data /\ data <> [].
Proof.
  intros name [<- | [<- | [<- | []]]]; eexists; (split; [reflexivity | discriminate]).
Qed.

Lemma three_names_distinct : NoDup ["A"%string; "B"%string; "C"%string].
Proof.
  repeat constructor; simpl; intuition discriminate.
Qed.

Lemma each_pair_once_witness :
  exists results,
    perform_posthoc_tests Runs.rank_sum_on_samples Runs.three_groups
      ["A"%string; "B"%string; "C"%string] (double 0.05) (Some "bonferroni"%string)
    = Returned results /\
    NoDup (map names_of results).
Proof.
  eexists. split; [reflexivity|].
  exact (proj1 (proj2 (each_pair_once Runs.rank_sum_on_samples Runs.three_groups
                         ["A"%string; "B"%string; "C"%string] (double 0.05)
                         (Some "bonferroni"%string) _
                         three_names_distinct three_groups_keys eq_refl))).
Defined.

(** X18. A name that is not a key of the dictionary is not skipped: as
    soon as there are two names or more, the rank-based post-hoc raises
    (the [KeyError] of the lookup, outside the [try]). *)
Theorem posthoc_missing_key_raises
        (mannwhitneyu : list float -> list float -> outcome (float * float))
        (groups_data : list (string * list float)) (group_names : list string)
        (alpha : float) (correction : option string) (name : string) :
  (2 <= length group_names)%nat -> In name group_names ->
  dict_get groups_data name = None ->
  exists e,
    perform_posthoc_tests mannwhitneyu groups_data group_names alpha correction
    = Raised e.
Proof.
  intros Hlen Hin Hmiss. unfold perform_posthoc_tests.
  apply posthoc_loop_key_error.
  destruct (combinations2_partner group_names name Hin Hlen) as [b [H | H]].
  - exists name, b. auto.
  - exists b, name. auto.
Qed.

Lemma posthoc_missing_key_witness :
  exists e,
    perform_posthoc_tests Runs.rank_sum_on_samples Runs.three_groups
      ["A"%string; "D"%string] (double 0.05) (Some "bonferroni"%string)
    = Raised e.
Proof.
  apply (posthoc_missing_key_raises Runs.rank_sum_on_samples Runs.three_groups
           ["A"%string; "D"%string] (double 0.05) (Some "bonferroni"%string)
           "D"%string).
  - cbn [length]. lia.
  - right. left. reflexivity.
  - reflexivity.
Defined.

End PostHocMore.

(** ** The driver of the rank-based analysis *)

Module DriverFacts.
Import KruskalWallis KruskalWallisDriver PairFacts.

(** *** Dictionaries keep their keys distinct *)




Lemma filter_keys_NoDup {V : Type} (f : string * V -> bool) (d : list (string * V)) :
  NoDup (map fst d) -> NoDup (map fst (filter f d)).
Proof.
  induction d as [|[k v] d IH]; cbn [filter map fst]; intro H; [constructor|].
  inversion H as [|? ? Hk Hd]; subst.
  destruct (f (k, v)); cbn [map fst]; [|exact (IH Hd)].
  constructor; [|exact (IH Hd)].
  intro Hin. apply Hk. apply in_map_iff in Hin. destruct Hin as ([k' v'] & E & Hin).
  apply filter_In in Hin. apply in_map_iff. exists (k', v'). tauto.
Qed.

(** *** The omnibus result that is significant *)


Section Driver.
Variable dataframe : Type.
Variable cell : Type.
Variable df_columns : dataframe -> list string.
Variable unique : dataframe -> string -> list cell.
Variable hypervolume_where : dataframe -> string -> cell -> outcome (list float).
Variable py_str : cell -> string.


End Driver.


End DriverFacts.

(** ** The two post-hoc tables of the parametric analysis *)

Module TableFacts.
Import PairFacts TableRows.

Lemma combine_map_r {A B C : Type} (f : B -> C) (l1 : list A) :
  forall l2, combine l1 (map f l2)
             = map (fun p => (fst p, f (snd p))) (combine l1 l2).
Proof.
  induction l1 as [|a l1 IH]; intros [|b l2]; cbn; try reflexivity.
  rewrite IH. reflexivity.
Qed.

Lemma enumerate_map {A B : Type} (f : A -> B) (l : list A) :
  enumerate (map f l) = map (fun ix => (fst ix, f (snd ix))) (enumerate l).
Proof.
  unfold enumerate. rewrite length_map. apply combine_map_r.
Qed.

Lemma combine_seq_snd {A : Type} (l : list A) :
  forall s, map snd (combine (seq s (length l)) l) = l.
Proof.
  induction l as [|x l IH]; intro s; cbn; [reflexivity|].
  rewrite IH. reflexivity.
Qed.

Lemma combine_seq_nth {A : Type} (l : list A) (i : nat) (x : A) :
  forall s, In (i, x) (combine (seq s (length l)) l) ->
            (s <= i)%nat /\ nth_error l (i - s) = Some x.
Proof.
  induction l as [|y l IH]; intros s H; cbn in H; [destruct H|].
  destruct H as [E | H].
  - inversion E; subst. rewrite Nat.sub_diag. split; [lia | reflexivity].
  - destruct (IH (S s) H) as [Hle Hn]. split; [lia|].
    replace (i - s)%nat with (S (i - S s)) by lia. exact Hn.
Qed.

Lemma enumerate_nth {A : Type} (l : list A) (i : nat) (x : A) :
  In (i, x) (enumerate l) -> nth_error l i = Some x.
Proof.
  intro H. destruct (combine_seq_nth l i x 0 H) as [_ Hn].
  rewrite Nat.sub_0_r in Hn. exact Hn.
Qed.

Lemma combinations2_map {A B : Type} (f : A -> B) (l : list A) :
  combinations2 (map f l)
  = map (fun p => (f (fst p), f (snd p))) (combinations2 l).
Proof.
  induction l as [|x l IH]; cbn [map combinations2]; [reflexivity|].
  rewrite map_app, !map_map, IH. reflexivity.
Qed.

Lemma for_each_map {A B C : Type} (h : A -> B) (f : B -> outcome C) (l : list A) :
  for_each f (map h l) = for_each (fun a => f (h a)) l.
Proof.
  induction l as [|a l IH]; cbn [map for_each]; [reflexivity|].
  rewrite IH. reflexivity.
Qed.

Lemma for_each_ext_in {A B : Type} (f g : A -> outcome B) (l : list A) :
  (forall a, In a l -> f a = g a) -> for_each f l = for_each g l.
Proof.
  induction l as [|a l IH]; intro H; cbn [for_each]; [reflexivity|].
  rewrite (H a (or_introl eq_refl)), IH; [reflexivity|].
  intros b Hb. apply H. right. exact Hb.
Qed.

(** The index pairs of the nested loops over the valid names, read on
    the enumerated valid groups. *)
Lemma index_pairs_of_valid (valid : list (list float * string)) :
  Anova.index_pairs (map snd valid)
  = map (fun p => ((fst (fst p), snd (snd (fst p))),
                   (fst (snd p), snd (snd (snd p)))))
        (combinations2 (enumerate valid)).
Proof.
  rewrite index_pairs_combinations, enumerate_map, combinations2_map.
  reflexivity.
Qed.

Lemma combinations2_of_valid (valid : list (list float * string)) :
  combinations2 valid
  = map (fun p => (snd (fst p), snd (snd p))) (combinations2 (enumerate valid)).
Proof.
  rewrite <- (combinations2_map snd). unfold enumerate.
  rewrite combine_seq_snd. reflexivity.
Qed.

Lemma enumerate_group (valid : list (list float * string)) (i : nat)
      (group : list float) (name : string) :
  In (i, (group, name)) (enumerate valid) ->
  nth i (map fst valid) [] = group.
Proof.
  intro H. apply enumerate_nth in H.
  apply nth_error_nth. rewrite nth_error_map, H. reflexivity.
Qed.

(** X20. The Bonferroni table of the parametric analysis is made pair
    by pair over the combinations of the non-empty groups: one row per
    pair, in that order, and each row compares the data of the two
    groups it names ([Diferencia] is the difference of their means, the
    p-value is that of [ttest_ind] on their data).  The first test that
    raises ends the function with what it raised. *)
Theorem bonferroni_rows_by_pair
        (ttest_ind : list float -> list float -> outcome (float * float))
        (groups : list (list float)) (group_names : list string)
        (metric_name : string) :
  let valid := valid_pairs groups group_names in
  let k := length valid in
  Anova.perform_bonferroni_correction ttest_ind groups group_names metric_name
  = for_each (bonferroni_row ttest_ind (k * (k - 1) / 2)) (combinations2 valid).
Proof.
  intros valid k. unfold Anova.perform_bonferroni_correction. fold valid.
  rewrite !length_map. fold k.
  destruct (Nat.ltb k 2) eqn:Ek.
  - apply Nat.ltb_lt in Ek. subst k.
    destruct valid as [|a [|b valid]]; [reflexivity | reflexivity |].
    cbn [length] in Ek. lia.
  - apply Nat.ltb_ge in Ek.
    assert (Hn : Nat.ltb 0 (k * (k - 1) / 2) = true).
    { apply Nat.ltb_lt. subst k.
      rewrite <- (combinations2_length valid).
      destruct valid as [|a [|b valid]]; cbn [length] in Ek; try lia.
      cbn. lia. }
    rewrite Hn, index_pairs_of_valid, for_each_map, combinations2_of_valid,
      for_each_map.
    apply for_each_ext_in. intros [[i [g1 n1]] [j [g2 n2]]] Hin.
    apply combinations2_In in Hin. destruct Hin as [H1 H2].
    cbn [fst snd bonferroni_row].
    rewrite (enumerate_group valid i g1 n1 H1), (enumerate_group valid j g2 n2 H2).
    reflexivity.
Qed.

(** X21. Tukey's table, when [tukey_hsd] can be imported and returns:
    one row per pair of non-empty groups, in the order of the
    combinations; the row of the groups at positions [i < j] names them,
    holds the difference of their means and the entry [[i, j]] of the
    matrix of p-values, and is significant exactly when that p-value is
    below 0.05, without further correction. *)
Theorem tukey_rows_by_pair
        (tukey : list (list float) -> outcome (nat -> nat -> float))
        (ttest_ind : list float -> list float -> outcome (float * float))
        (groups : list (list float)) (group_names : list string)
        (metric_name : string) :
  let valid := valid_pairs groups group_names in
  AnovaTukey.perform_post_hoc_tukey (Some tukey) ttest_ind groups group_names
                                    metric_name
  = if Nat.ltb (length valid) 2 then Returned (AnovaTukey.Tukey [])
    else
      pvalue <- tukey (map fst valid) ;;
      Returned (AnovaTukey.Tukey
                  (map (tukey_row pvalue) (combinations2 (enumerate valid)))).
Proof.
  intro valid. unfold AnovaTukey.perform_post_hoc_tukey. fold valid.
  rewrite !length_map.
  destruct (Nat.ltb (length valid) 2); [reflexivity|].
  destruct (tukey (map fst valid)) as [pvalue|e]; cbn [bind]; [|reflexivity].
  rewrite index_pairs_of_valid, map_map. do 2 f_equal.
  apply map_ext_in. intros [[i [g1 n1]] [j [g2 n2]]] Hin.
  apply combinations2_In in Hin. destruct Hin as [H1 H2].
  cbn [fst snd tukey_row].
  rewrite (enumerate_group valid i g1 n1 H1), (enumerate_group valid j g2 n2 H2).
  reflexivity.
Qed.

End TableFacts.

(** ** The batch of the ECDF-based test *)

Module KSBatchFacts.
Import KSBatch.

Lemma filter_complement_length {A : Type} (f : A -> bool) (l : list A) :
  (length (filter f l) + length (filter (fun x => negb (f x)) l) = length l)%nat.
Proof.
  induction l as [|x l IH]; cbn [filter length]; [reflexivity|].
  destruct (f x); cbn [negb length]; lia.
Qed.

Section Batch.
Variable sqrt : Q -> Q.
Variable kstest : list float -> outcome (float * float).
Variable find_all_test_files : string -> string -> list string.
Variable load_data_from_csv : string -> option string -> outcome (list float * string).
Variable parent_name : string -> string.

Lemma process_loop_map (column : option string) (alpha : float) :
  forall files all_results,
    fold_left
      (fun all_results csv_file =>
         all_results
         ++ [process_file sqrt kstest load_data_from_csv parent_name
                          csv_file column alpha])
      files all_results
    = all_results
      ++ map (fun csv_file =>
                process_file sqrt kstest load_data_from_csv parent_name
                             csv_file column alpha)
             files.
Proof.
  induction files as [|f files IH]; intro all_results; cbn [fold_left map].
  - rewrite app_nil_r. reflexivity.
  - rewrite IH, <- app_assoc. reflexivity.
Qed.

Lemma process_all_files_map (base_dir filename : string)
      (column : option string) (alpha : float) :
  process_all_files sqrt kstest find_all_test_files load_data_from_csv
                    parent_name base_dir filename column alpha
  = map (fun csv_file =>
           process_file sqrt kstest load_data_from_csv parent_name
                        csv_file column alpha)
        (find_all_test_files base_dir filename).
Proof.
  unfold process_all_files.
  destruct (find_all_test_files base_dir filename) as [|f files] eqn:E;
    [reflexivity|].
  rewrite process_loop_map. reflexivity.
Qed.

Lemma process_file_path (csv_file : string) (column : option string)
      (alpha : float) :
  file_path_of (process_file sqrt kstest load_data_from_csv parent_name
                             csv_file column alpha) = csv_file.
Proof.
  unfold process_file.
  destruct (load_data_from_csv csv_file column) as [[data c]|e]; reflexivity.
Qed.

End Batch.

(** X22. The batch returns one entry per file found, in the order of
    the files, whatever happens to a file: a file whose data cannot be
    loaded gets an entry with the message of the exception and [n = 0],
    and the other files are still processed; a file that is loaded gets
    the result of the test on its data, with the folder, the path and the
    column. *)
Theorem batch_one_entry_per_file
        (sqrt : Q -> Q) (kstest : list float -> outcome (float * float))
        (find_all_test_files : string -> string -> list string)
        (load_data_from_csv : string -> option string -> outcome (list float * string))
        (parent_name : string -> string)
        (base_dir filename : string) (column : option string) (alpha : float) :
  let all_results :=
    process_all_files sqrt kstest find_all_test_files load_data_from_csv
                      parent_name base_dir filename column alpha in
  map file_path_of all_results = find_all_test_files base_dir filename /\
  forall e, In e all_results ->
    match load_data_from_csv (file_path_of e) column with
    | Returned (data, column_name) =>
        e = Tested (KS.perform_kolmogorov_smirnov_test sqrt kstest data alpha)
                   (parent_name (file_path_of e)) (file_path_of e) column_name
    | Raised msg =>
        e = Failed (parent_name (file_path_of e)) (file_path_of e) msg 0
    end.
Proof.
  intro all_results. subst all_results. rewrite process_all_files_map. split.
  - rewrite map_map. erewrite map_ext; [apply map_id|].
    intro f. apply process_file_path.
  - intros e He. apply in_map_iff in He. destruct He as (f & <- & _).
    rewrite process_file_path. unfold process_file.
    destruct (load_data_from_csv f column) as [[data c]|msg]; reflexivity.
Qed.

(** X23. The counts of the summary of a batch add up: the entries
    processed and the entries with an error are together as many as the
    files found, and the normal and the non-normal ones are together as
    many as the entries processed; an entry with an error is counted in
    neither. *)
Theorem batch_summary_counts
        (sqrt : Q -> Q) (kstest : list float -> outcome (float * float))
        (find_all_test_files : string -> string -> list string)
        (load_data_from_csv : string -> option string -> outcome (list float * string))
        (parent_name : string -> string)
        (base_dir filename : string) (column : option string) (alpha : float) :
  let s := batch_summary
             (process_all_files sqrt kstest find_all_test_files
                                load_data_from_csv parent_name base_dir filename
                                column alpha) in
  (length (successful s) + length (errors s)
   = length (find_all_test_files base_dir filename))%nat /\
  (length (normal s) + length (not_normal s) = length (successful s))%nat /\
  (forall e, In e (errors s) ->
     ~ In e (normal s) /\ ~ In e (not_normal s) /\
     exists msg, load_data_from_csv (file_path_of e) column = Raised msg) /\
  (forall e, In e (normal s) ->
     exists data column_name,
       load_data_from_csv (file_path_of e) column = Returned (data, column_name) /\
       KS.normal (KS.perform_kolmogorov_smirnov_test sqrt kstest data alpha) = true).
Proof.
  intro s. subst s. unfold batch_summary. cbn [successful errors normal not_normal].
  rewrite process_all_files_map.
  set (all := map _ (find_all_test_files base_dir filename)).
  assert (Hlen : length all = length (find_all_test_files base_dir filename))
    by (subst all; apply length_map).
  assert (Hfile : forall e, In e all ->
            e = process_file sqrt kstest load_data_from_csv parent_name
                             (file_path_of e) column alpha).
  { intros e He. subst all. apply in_map_iff in He. destruct He as (f & <- & _).
    rewrite process_file_path. reflexivity. }
  split; [|split; [|split]].
  - rewrite <- Hlen, Nat.add_comm. apply filter_complement_length.
  - apply filter_complement_length.
  - intros e He. apply filter_In in He. destruct He as [Hin Herr].
    repeat split.
    + intro H. apply filter_In in H. destruct H as [H _].
      apply filter_In in H. destruct H as [_ H]. rewrite Herr in H. discriminate.
    + intro H. apply filter_In in H. destruct H as [H _].
      apply filter_In in H. destruct H as [_ H]. rewrite Herr in H. discriminate.
    + rewrite (Hfile e Hin) in Herr. unfold process_file in Herr.
      destruct (load_data_from_csv (file_path_of e) column) as [[data c]|msg];
        [discriminate | exists msg; reflexivity].
  - intros e He. apply filter_In in He. destruct He as [He Hn].
    apply filter_In in He. destruct He as [Hin _].
    rewrite (Hfile e Hin) in Hn. unfold process_file in Hn.
    destruct (load_data_from_csv (file_path_of e) column) as [[data c]|msg];
      [|discriminate].
    exists data, c. split; [reflexivity | exact Hn].
Qed.

End KSBatchFacts.

(** ** Folder names *)

Module FolderNameFacts.
Import FolderName.

Lemma split_on_nonempty (sep : ascii) (s : string) : split_on sep s <> [].
Proof.
  destruct s as [|c s]; cbn [split_on]; [discriminate|].
  destruct (Ascii.eqb c sep); [discriminate|].
  destruct (split_on sep s); discriminate.
Qed.

(** [split] gives one part more than there are separators. *)
Lemma split_on_length (sep : ascii) (s : string) :
  length (split_on sep s) = S (occurrences sep s).
Proof.
  induction s as [|c s IH]; cbn [split_on occurrences]; [reflexivity|].
  destruct (Ascii.eqb c sep); cbn [length]; [rewrite IH; reflexivity|].
  destruct (split_on sep s) as [|part parts] eqn:E; [discriminate IH|].
  cbn [length] in *. lia.
Qed.

Lemma split_on_free (sep : ascii) (part : string) :
  free_of sep part = true -> split_on sep part = [part].
Proof.
  induction part as [|c part IH]; cbn [free_of split_on]; [reflexivity|].
  intro H. apply andb_true_iff in H. destruct H as [Hc Hp].
  apply negb_true_iff in Hc. rewrite Hc, (IH Hp). reflexivity.
Qed.

Lemma split_on_app (sep : ascii) (part s : string) :
  free_of sep part = true ->
  split_on sep (part ++ String sep s) = part :: split_on sep s.
Proof.
  induction part as [|c part IH]; cbn [free_of split_on String.append].
  - intros _. rewrite Ascii.eqb_refl. reflexivity.
  - intro H. apply andb_true_iff in H. destruct H as [Hc Hp].
    apply negb_true_iff in Hc. rewrite Hc, (IH Hp). reflexivity.
Qed.

Lemma append_empty_r (s : string) : (s ++ EmptyString)%string = s.
Proof.
  induction s as [|c s IH]; cbn; [reflexivity | rewrite IH; reflexivity].
Qed.

(** [join] undoes [split]. *)
Lemma join_split_on (sep : ascii) (s : string) : join sep (split_on sep s) = s.
Proof.
  induction s as [|c s IH]; cbn [split_on]; [reflexivity|].
  destruct (Ascii.eqb c sep) eqn:E.
  - apply Ascii.eqb_eq in E. subst c.
    destruct (split_on sep s) as [|part parts] eqn:Es;
      [exfalso; exact (split_on_nonempty sep s Es)|].
    cbn [join]. cbn [join] in IH. rewrite IH. reflexivity.
  - destruct (split_on sep s) as [|part parts] eqn:Es;
      [exfalso; exact (split_on_nonempty sep s Es)|].
    destruct parts as [|part' parts]; cbn [join] in *; rewrite <- IH; reflexivity.
Qed.

(** X24. A folder name with fewer than three underscores is refused
    ([None]), whatever its fields are.  A name that is accepted has three
    underscores or more, its parameters are read from its second, third
    and fourth underscore-separated fields, and the record keeps the name
    of the folder as it was given. *)
Theorem parse_folder_name_fields
        (py_float : string -> option float) (py_int : string -> option Z)
        (folder_name : string) :
  ((occurrences underscore folder_name < 3)%nat ->
   parse_folder_name py_float py_int folder_name = None) /\
  (forall p, parse_folder_name py_float py_int folder_name = Some p ->
     (3 <= occurrences underscore folder_name)%nat /\
     folder p = folder_name /\
     join underscore (split_on underscore folder_name) = folder_name /\
     exists c m,
       py_float (nth 1 (split_on underscore folder_name) EmptyString) = Some c /\
       py_float (nth 2 (split_on underscore folder_name) EmptyString) = Some m /\
       py_int (nth 3 (split_on underscore folder_name) EmptyString)
       = Some (population p) /\
       crossover p = fdiv c (Some 10) /\ mutation p = fdiv m (Some 1000)).
Proof.
  unfold parse_folder_name. rewrite split_on_length. split.
  - intro H. destruct (Nat.leb 4 (S (occurrences underscore folder_name))) eqn:E;
      [apply Nat.leb_le in E; lia | reflexivity].
  - intros p H.
    destruct (Nat.leb 4 (S (occurrences underscore folder_name))) eqn:E;
      [|discriminate].
    apply Nat.leb_le in E.
    destruct (py_float (nth 1 _ _)) as [c|]; [|discriminate].
    destruct (py_float (nth 2 _ _)) as [m|]; [|discriminate].
    destruct (py_int (nth 3 _ _)) as [n|]; [|discriminate].
    inversion H; subst p. cbn.
    split; [lia|]. split; [reflexivity|]. split; [apply join_split_on|].
    exists c, m. repeat split; reflexivity.
Qed.

(** X25. The expected format: a name made of four fields without
    underscore, separated by underscores, and then nothing or an
    underscore and anything, is parsed from its second, third and fourth
    field; what follows the fourth field is ignored, and the name is
    refused exactly when one of the three fields is not a number. *)
Theorem parse_folder_name_format
        (py_float : string -> option float) (py_int : string -> option Z)
        (prefix f1 f2 f3 tail : string) :
  free_of underscore prefix = true -> free_of underscore f1 = true ->
  free_of underscore f2 = true -> free_of underscore f3 = true ->
  tail = EmptyString \/ (exists rest, tail = String underscore rest) ->
  let folder_name :=
    (prefix ++ String underscore (f1 ++ String underscore
       (f2 ++ String underscore (f3 ++ tail))))%string in
  parse_folder_name py_float py_int folder_name
  = match py_float f1, py_float f2, py_int f3 with
    | Some c, Some m, Some n =>
        Some (mkParams (fdiv c (Some 10)) (fdiv m (Some 1000)) n folder_name)
    | _, _, _ => None
    end.
Proof.
  intros H0 H1 H2 H3 Htail folder_name. subst folder_name.
  unfold parse_folder_name.
  rewrite (split_on_app _ prefix _ H0), (split_on_app _ f1 _ H1),
    (split_on_app _ f2 _ H2).
  assert (Hlast : exists parts, split_on underscore (f3 ++ tail) = f3 :: parts).
  { destruct Htail as [-> | [rest ->]].
    - exists []. rewrite append_empty_r. apply split_on_free. exact H3.
    - eexists. apply split_on_app. exact H3. }
  destruct Hlast as [parts ->]. cbn [length nth Nat.leb].
  destruct (py_float f1) as [c|]; [|reflexivity].
  destruct (py_float f2) as [m|]; [|reflexivity].
  destruct (py_int f3) as [n|]; reflexivity.
Qed.

Lemma parse_folder_name_format_witness :
  parse_folder_name MoreRuns.float_of_digits MoreRuns.int_of_digits
                    "promedio_06_001_50_bis"
  = Some (mkParams (double 0.6) (double 0.001) 50 "promedio_06_001_50_bis").
Proof.
  exact (parse_folder_name_format MoreRuns.float_of_digits MoreRuns.int_of_digits
           "promedio" "06" "001" "50" "_bis"
           eq_refl eq_refl eq_refl eq_refl
           (or_intror (ex_intro _ "bis"%string eq_refl))).
Defined.

End FolderNameFacts.
